(** * Black hole with gravitational lensing: a model of [main3.py]

    The program is a pygame + PyOpenGL demo.  This development embeds

    - the postprocess fragment shader [POST_FS] (GLSL, one invocation per pixel),
    - the resource helpers [compile_shader], [link_program], [create_fbo_tex],
      [create_fs_quad],
    - the drawing helpers and the camera [set_camera],
    - the event handling and the per-frame body of [main].

    Numbers.  Python [float]s and GLSL [float]s are modelled by the real
    numbers [R]: arithmetic is exact, there is no rounding, no infinity and no
    NaN.  Python [int]s are [Z].  OpenGL object names are [N], [0] being the
    name OpenGL reserves for "no object".

    Effects.  Every call into OpenGL, GLU or pygame's display is a value of
    [gl_call]; the OpenGL context is a record [gl_state] holding the object
    tables, the binding points and the log of the calls made so far.  Python
    exceptions are the [Raise] results of a state-and-error monad [M]. *)

From Stdlib Require Import Reals Lra ZArith List String Ascii Bool.
From stdpp Require Import base gmap strings.
Import ListNotations.

Open Scope R_scope.

(** ** Python numeric built-ins used by the program *)

Module Py.

(** [min(a, b)]: the first argument unless the second is strictly smaller. *)
Definition min (a b : R) : R := if Rlt_dec b a then b else a.

(** [max(a, b)]: the first argument unless the second is strictly greater. *)
Definition max (a b : R) : R := if Rgt_dec b a then b else a.

(** [x % y] on floats: the remainder with the sign of the divisor,
      [x - y * floor (x / y)]. *)
Definition fmod (x y : R) : R := x - y * IZR (Int_part (x / y)).

(** [math.radians]. *)
Definition radians (deg : R) : R := deg * (PI / 180).

(** [range(lo, hi)] for integers. *)
Definition range (lo hi : Z) : list Z :=
    List.map (fun i => (lo + Z.of_nat i)%Z) (seq 0 (Z.to_nat (hi - lo))).

(** [range(start, stop, step)]; empty for a zero step, which the program
    never passes. *)
Definition range3 (start stop step : Z) : list Z :=
  let n := if (0 <? step)%Z then ((stop - start + step - 1) / step)%Z
           else if (step <? 0)%Z then ((start - stop - step - 1) / (- step))%Z
           else 0%Z in
  List.map (fun i => (start + Z.of_nat i * step)%Z) (seq 0 (Z.to_nat n)).

End Py.

(** ** GLSL vectors and built-ins used by the shader *)

Record vec2 : Type := Vec2 { vx : R; vy : R }.
Record vec4 : Type := Vec4 { cr : R; cg : R; cb : R; ca : R }.

Module Glsl.

Definition min (x y : R) : R := if Rlt_dec y x then y else x.
Definition max (x y : R) : R := if Rlt_dec x y then y else x.
Definition clamp (x lo hi : R) : R := min (max x lo) hi.

(** [length(p)] of a [vec2]. *)
Definition length (p : vec2) : R := sqrt (vx p * vx p + vy p * vy p).

(** [pow(x, y)]: [0] at [x = 0] (for the positive exponents used here),
      the real power elsewhere; GLSL leaves [x < 0] undefined. *)
Definition pow (x y : R) : R := if Req_dec_T x 0 then 0 else Rpower x y.

Definition vsub (a b : vec2) : vec2 := Vec2 (vx a - vx b) (vy a - vy b).
Definition vadd (a b : vec2) : vec2 := Vec2 (vx a + vx b) (vy a + vy b).
(** vector * scalar, scalar * vector, vector / scalar, scalar / vector,
      vector * vector: all componentwise. *)
Definition vscale (a : vec2) (k : R) : vec2 := Vec2 (vx a * k) (vy a * k).
Definition scalev (k : R) (a : vec2) : vec2 := Vec2 (k * vx a) (k * vy a).
Definition vdivs (a : vec2) (k : R) : vec2 := Vec2 (vx a / k) (vy a / k).
Definition sdivv (k : R) (a : vec2) : vec2 := Vec2 (k / vx a) (k / vy a).
Definition vmul (a b : vec2) : vec2 := Vec2 (vx a * vx b) (vy a * vy b).

(** [col.rgb *= k]. *)
Definition scale_rgb (col : vec4) (k : R) : vec4 :=
    Vec4 (cr col * k) (cg col * k) (cb col * k) (ca col).

End Glsl.

(** ** The postprocess fragment shader [POST_FS] *)

Module PostFS.

(** The uniforms of the shader.  The sampler [uScene] is the texture bound to
      unit 0; it is passed to [main] as the function [scene] from texture
      coordinates to colours. *)
Record uniforms : Type := Uniforms {
    uResolution : vec2;
    uStrength : R;
    uRadius : R;
    uEHpx : R
  }.

(** What one invocation produces: the colour written to [gl_FragColor] and
      the texture coordinates at which [texture2D] was evaluated, in order. *)
Record frag_out : Type := FragOut {
    gl_FragColor : vec4;
    fetches : list vec2
  }.

Section Invocation.
Variable u : uniforms.
Variable scene : vec2 -> vec4.
Variable gl_FragCoord : vec2.
Variable vUV : vec2.

(** The locals of [main], one definition per declaration of the source. *)
Definition res : vec2 := uResolution u.
Definition uv : vec2 := vUV.
Definition p : vec2 := Glsl.vsub gl_FragCoord (Glsl.scalev 0.5 res).
Definition minHalf : R := Glsl.min (vx res) (vy res) * 0.5.
Definition d : R := Glsl.length p.
Definition dnorm : R := d / minHalf.
Definition r : R := uRadius u.
Definition dir : vec2 :=
      if Rgt_dec d 1e-5 then Glsl.vdivs p d else Vec2 0 0.
Definition warp : R :=
      if Rlt_dec dnorm r
      then let t := 1 - dnorm / r in
           uStrength u * t * (1 / (dnorm + 0.02))
      else 0.
Definition disp : vec2 :=
      Glsl.vmul (Glsl.vscale dir warp) (Glsl.sdivv minHalf res).
Definition uv2 : vec2 := Glsl.vadd uv disp.
Definition vig : R := 1 - Glsl.pow dnorm 2 * 0.25.

Definition main : frag_out :=
      if Rle_dec d (uEHpx u)
      then FragOut (Vec4 0 0 0 1) []
      else
        let col := scene uv2 in
        let col := Glsl.scale_rgb col (Glsl.clamp vig 0.8 1) in
        FragOut col [uv2].
End Invocation.

End PostFS.

(** ** OpenGL: constants, calls, objects and the context *)

(** The symbolic constants the program passes to OpenGL. *)
Inductive GLenum : Type :=
| GL_VERTEX_SHADER | GL_FRAGMENT_SHADER | GL_COMPILE_STATUS | GL_LINK_STATUS
| GL_TEXTURE_2D | GL_RGBA8 | GL_RGBA | GL_UNSIGNED_BYTE
| GL_TEXTURE_MIN_FILTER | GL_TEXTURE_MAG_FILTER | GL_LINEAR
| GL_RENDERBUFFER | GL_DEPTH24_STENCIL8
| GL_FRAMEBUFFER | GL_COLOR_ATTACHMENT0 | GL_DEPTH_STENCIL_ATTACHMENT
| GL_FRAMEBUFFER_COMPLETE
| GL_ARRAY_BUFFER | GL_ELEMENT_ARRAY_BUFFER | GL_STATIC_DRAW
| GL_PROJECTION | GL_MODELVIEW
| GL_DEPTH_TEST | GL_BLEND | GL_SRC_ALPHA | GL_ONE_MINUS_SRC_ALPHA
| GL_TRIANGLE_FAN | GL_TRIANGLE_STRIP | GL_TRIANGLES | GL_LINES
| GL_LIGHTING | GL_LIGHT0 | GL_POSITION | GL_DIFFUSE
| GL_FRONT_AND_BACK | GL_SPECULAR | GL_SHININESS
| GL_COLOR_BUFFER_BIT | GL_DEPTH_BUFFER_BIT
| GL_TEXTURE0 | GL_FLOAT | GL_FALSE | GL_UNSIGNED_INT.

#[global] Instance GLenum_eq_dec : EqDecision GLenum.
Proof. solve_decision. Defined.

(** The client data handed to [glBufferData]. *)
Inductive buffer_data : Type :=
| c_float_array (xs : list R)
| c_uint_array (xs : list Z).

(** One constructor per OpenGL, GLU or pygame function the program calls, with
    the arguments of the call.  A bit mask ([glClear], [set_mode]) is the list
    of its bits. *)
Inductive gl_call : Type :=
(* shaders and programs *)
| glCreateShader (shader_type : GLenum)
| glShaderSource (sid : N) (src : string)
| glCompileShader (sid : N)
| glGetShaderiv (sid : N) (pname : GLenum)
| glGetShaderInfoLog (sid : N)
| glCreateProgram
| glAttachShader (pid sid : N)
| glLinkProgram (pid : N)
| glGetProgramiv (pid : N) (pname : GLenum)
| glGetProgramInfoLog (pid : N)
| glDeleteShader (sid : N)
| glUseProgram (pid : N)
| glGetUniformLocation (pid : N) (name : string)
| glGetAttribLocation (pid : N) (name : string)
| glUniform1i (loc : Z) (v : Z)
| glUniform1f (loc : Z) (v : R)
| glUniform2f (loc : Z) (v0 v1 : R)
(* textures, renderbuffers, framebuffers *)
| glGenTextures (n : Z)
| glBindTexture (target : GLenum) (tex : N)
| glTexImage2D (target : GLenum) (level : Z) (internalformat : GLenum)
    (w h : Z) (border : Z) (format type : GLenum)
| glTexParameteri (target pname param : GLenum)
| glActiveTexture (unit : GLenum)
| glDeleteTextures (n : Z) (names : list N)
| glGenRenderbuffers (n : Z)
| glBindRenderbuffer (target : GLenum) (rbo : N)
| glRenderbufferStorage (target internalformat : GLenum) (w h : Z)
| glDeleteRenderbuffers (n : Z) (names : list N)
| glGenFramebuffers (n : Z)
| glBindFramebuffer (target : GLenum) (fbo : N)
| glFramebufferTexture2D (target attachment textarget : GLenum) (tex : N)
    (level : Z)
| glFramebufferRenderbuffer (target attachment rbtarget : GLenum) (rbo : N)
| glCheckFramebufferStatus (target : GLenum)
| glDeleteFramebuffers (n : Z) (names : list N)
(* buffers and vertex arrays *)
| glGenBuffers (n : Z)
| glBindBuffer (target : GLenum) (buf : N)
| glBufferData (target : GLenum) (size : Z) (data : buffer_data)
    (usage : GLenum)
| glDeleteBuffers (n : Z) (names : list N)
| glEnableVertexAttribArray (loc : Z)
| glDisableVertexAttribArray (loc : Z)
| glVertexAttribPointer (loc : Z) (size : Z) (type normalized : GLenum)
    (stride : Z) (offset : Z)
| glDrawElements (mode : GLenum) (count : Z) (type : GLenum) (offset : Z)
(* fixed-function pipeline *)
| glViewport (x y w h : Z)
| glClearColor (r g b a : R)
| glClear (mask : list GLenum)
| glEnable (cap : GLenum)
| glDisable (cap : GLenum)
| glBlendFunc (sfactor dfactor : GLenum)
| glMatrixMode (mode : GLenum)
| glPushMatrix
| glPopMatrix
| glLoadIdentity
| glOrtho (left right bottom top near far : R)
| glTranslatef (x y z : R)
| glRotatef (angle x y z : R)
| glLineWidth (w : R)
| glColor3f (r g b : R)
| glColor4f (r g b a : R)
| glBegin (mode : GLenum)
| glEnd
| glVertex2f (x y : R)
| glVertex3f (x y z : R)
| glLightfv (light pname : GLenum) (v0 v1 v2 v3 : R)
| glMaterialfv (face pname : GLenum) (v0 v1 v2 v3 : R)
| glMaterialf (face pname : GLenum) (v : R)
(* GLU *)
| gluPerspective (fovy aspect zNear zFar : R)
| gluLookAt (eyeX eyeY eyeZ centerX centerY centerZ upX upY upZ : R)
| gluNewQuadric
| gluSphere (radius : R) (slices stacks : Z)
| gluDeleteQuadric
(* pygame *)
| pygame_init
| pygame_display_set_caption (title : string)
| pygame_display_set_mode (w h : Z)
| pygame_display_flip
| clock_tick (fps : Z)
| pygame_quit.

(** A shader object: its type, its source, the result of the last compilation
    and the deletion flag OpenGL sets when a shader that is still attached is
    deleted. *)
Record shader_obj : Type := ShaderObj {
  sh_type : GLenum;
  sh_source : string;
  sh_compiled : bool;
  sh_delete_flag : bool
}.

Record program_obj : Type := ProgramObj {
  pr_attached : list N;
  pr_linked : bool
}.

(** A framebuffer object: the texture attached as colour attachment 0 and the
    renderbuffer attached as depth-stencil attachment. *)
Record framebuffer_obj : Type := FramebufferObj {
  fb_color : option N;
  fb_depth_stencil : option N
}.

(** The OpenGL context.  A texture or renderbuffer maps to its storage
    dimensions once storage was allocated, a buffer to its data.  State of the
    fixed-function pipeline (matrices, lighting, blending, colours) is not
    interpreted: the calls that set it are in [calls]. *)
Record gl_state : Type := GLState {
  shaders : gmap N shader_obj;
  programs : gmap N program_obj;
  textures : gmap N (option (Z * Z));
  renderbuffers : gmap N (option (Z * Z));
  framebuffers : gmap N framebuffer_obj;
  buffers : gmap N (option buffer_data);
  bound_texture : N;
  bound_renderbuffer : N;
  bound_framebuffer : N;
  bound_array_buffer : N;
  bound_element_array_buffer : N;
  current_program : N;
  calls : list gl_call
}.

Definition set_shaders (f : gmap N shader_obj -> gmap N shader_obj)
    (s : gl_state) : gl_state :=
  {| shaders := f (shaders s); programs := programs s;
     textures := textures s; renderbuffers := renderbuffers s;
     framebuffers := framebuffers s; buffers := buffers s;
     bound_texture := bound_texture s;
     bound_renderbuffer := bound_renderbuffer s;
     bound_framebuffer := bound_framebuffer s;
     bound_array_buffer := bound_array_buffer s;
     bound_element_array_buffer := bound_element_array_buffer s;
     current_program := current_program s; calls := calls s |}.

Definition set_programs (f : gmap N program_obj -> gmap N program_obj)
    (s : gl_state) : gl_state :=
  {| shaders := shaders s; programs := f (programs s);
     textures := textures s; renderbuffers := renderbuffers s;
     framebuffers := framebuffers s; buffers := buffers s;
     bound_texture := bound_texture s;
     bound_renderbuffer := bound_renderbuffer s;
     bound_framebuffer := bound_framebuffer s;
     bound_array_buffer := bound_array_buffer s;
     bound_element_array_buffer := bound_element_array_buffer s;
     current_program := current_program s; calls := calls s |}.

Definition set_textures (f : gmap N (option (Z * Z)) -> gmap N (option (Z * Z)))
    (s : gl_state) : gl_state :=
  {| shaders := shaders s; programs := programs s;
     textures := f (textures s); renderbuffers := renderbuffers s;
     framebuffers := framebuffers s; buffers := buffers s;
     bound_texture := bound_texture s;
     bound_renderbuffer := bound_renderbuffer s;
     bound_framebuffer := bound_framebuffer s;
     bound_array_buffer := bound_array_buffer s;
     bound_element_array_buffer := bound_element_array_buffer s;
     current_program := current_program s; calls := calls s |}.

Definition set_renderbuffers (f : gmap N (option (Z * Z)) -> gmap N (option (Z * Z)))
    (s : gl_state) : gl_state :=
  {| shaders := shaders s; programs := programs s; textures := textures s;
     renderbuffers := f (renderbuffers s); framebuffers := framebuffers s;
     buffers := buffers s; bound_texture := bound_texture s;
     bound_renderbuffer := bound_renderbuffer s;
     bound_framebuffer := bound_framebuffer s;
     bound_array_buffer := bound_array_buffer s;
     bound_element_array_buffer := bound_element_array_buffer s;
     current_program := current_program s; calls := calls s |}.

Definition set_framebuffers (f : gmap N framebuffer_obj -> gmap N framebuffer_obj)
    (s : gl_state) : gl_state :=
  {| shaders := shaders s; programs := programs s; textures := textures s;
     renderbuffers := renderbuffers s; framebuffers := f (framebuffers s);
     buffers := buffers s; bound_texture := bound_texture s;
     bound_renderbuffer := bound_renderbuffer s;
     bound_framebuffer := bound_framebuffer s;
     bound_array_buffer := bound_array_buffer s;
     bound_element_array_buffer := bound_element_array_buffer s;
     current_program := current_program s; calls := calls s |}.

Definition set_buffers (f : gmap N (option buffer_data) -> gmap N (option buffer_data))
    (s : gl_state) : gl_state :=
  {| shaders := shaders s; programs := programs s; textures := textures s;
     renderbuffers := renderbuffers s; framebuffers := framebuffers s;
     buffers := f (buffers s); bound_texture := bound_texture s;
     bound_renderbuffer := bound_renderbuffer s;
     bound_framebuffer := bound_framebuffer s;
     bound_array_buffer := bound_array_buffer s;
     bound_element_array_buffer := bound_element_array_buffer s;
     current_program := current_program s; calls := calls s |}.

Definition set_bound_texture (f : N -> N) (s : gl_state) : gl_state :=
  {| shaders := shaders s; programs := programs s; textures := textures s;
     renderbuffers := renderbuffers s; framebuffers := framebuffers s;
     buffers := buffers s; bound_texture := f (bound_texture s);
     bound_renderbuffer := bound_renderbuffer s;
     bound_framebuffer := bound_framebuffer s;
     bound_array_buffer := bound_array_buffer s;
     bound_element_array_buffer := bound_element_array_buffer s;
     current_program := current_program s; calls := calls s |}.

Definition set_bound_renderbuffer (f : N -> N) (s : gl_state) : gl_state :=
  {| shaders := shaders s; programs := programs s; textures := textures s;
     renderbuffers := renderbuffers s; framebuffers := framebuffers s;
     buffers := buffers s; bound_texture := bound_texture s;
     bound_renderbuffer := f (bound_renderbuffer s);
     bound_framebuffer := bound_framebuffer s;
     bound_array_buffer := bound_array_buffer s;
     bound_element_array_buffer := bound_element_array_buffer s;
     current_program := current_program s; calls := calls s |}.

Definition set_bound_framebuffer (f : N -> N) (s : gl_state) : gl_state :=
  {| shaders := shaders s; programs := programs s; textures := textures s;
     renderbuffers := renderbuffers s; framebuffers := framebuffers s;
     buffers := buffers s; bound_texture := bound_texture s;
     bound_renderbuffer := bound_renderbuffer s;
     bound_framebuffer := f (bound_framebuffer s);
     bound_array_buffer := bound_array_buffer s;
     bound_element_array_buffer := bound_element_array_buffer s;
     current_program := current_program s; calls := calls s |}.

Definition set_bound_array_buffer (f : N -> N) (s : gl_state) : gl_state :=
  {| shaders := shaders s; programs := programs s; textures := textures s;
     renderbuffers := renderbuffers s; framebuffers := framebuffers s;
     buffers := buffers s; bound_texture := bound_texture s;
     bound_renderbuffer := bound_renderbuffer s;
     bound_framebuffer := bound_framebuffer s;
     bound_array_buffer := f (bound_array_buffer s);
     bound_element_array_buffer := bound_element_array_buffer s;
     current_program := current_program s; calls := calls s |}.

Definition set_bound_element_array_buffer (f : N -> N)
    (s : gl_state) : gl_state :=
  {| shaders := shaders s; programs := programs s; textures := textures s;
     renderbuffers := renderbuffers s; framebuffers := framebuffers s;
     buffers := buffers s; bound_texture := bound_texture s;
     bound_renderbuffer := bound_renderbuffer s;
     bound_framebuffer := bound_framebuffer s;
     bound_array_buffer := bound_array_buffer s;
     bound_element_array_buffer := f (bound_element_array_buffer s);
     current_program := current_program s; calls := calls s |}.

Definition set_current_program (f : N -> N) (s : gl_state) : gl_state :=
  {| shaders := shaders s; programs := programs s; textures := textures s;
     renderbuffers := renderbuffers s; framebuffers := framebuffers s;
     buffers := buffers s; bound_texture := bound_texture s;
     bound_renderbuffer := bound_renderbuffer s;
     bound_framebuffer := bound_framebuffer s;
     bound_array_buffer := bound_array_buffer s;
     bound_element_array_buffer := bound_element_array_buffer s;
     current_program := f (current_program s); calls := calls s |}.

Definition set_calls (f : list gl_call -> list gl_call)
    (s : gl_state) : gl_state :=
  {| shaders := shaders s; programs := programs s; textures := textures s;
     renderbuffers := renderbuffers s; framebuffers := framebuffers s;
     buffers := buffers s; bound_texture := bound_texture s;
     bound_renderbuffer := bound_renderbuffer s;
     bound_framebuffer := bound_framebuffer s;
     bound_array_buffer := bound_array_buffer s;
     bound_element_array_buffer := bound_element_array_buffer s;
     current_program := current_program s; calls := f (calls s) |}.

Definition gl_empty : gl_state :=
  GLState ∅ ∅ ∅ ∅ ∅ ∅ 0%N 0%N 0%N 0%N 0%N 0%N [].

(** What the OpenGL implementation decides: whether a shader compiles and a
    program links, the info logs, whether a framebuffer with the given colour
    and depth-stencil storage is complete, and where uniforms and attributes
    are located. *)
Record driver : Type := Driver {
  compile_status : GLenum -> string -> bool;
  shader_info_log : GLenum -> string -> string;
  link_status : list shader_obj -> bool;
  program_info_log : list shader_obj -> string;
  framebuffer_complete : option (Z * Z) -> option (Z * Z) -> bool;
  uniform_location : string -> Z;
  attrib_location : string -> Z
}.

(** The name a [glGen*] or [glCreate*] call returns: unused, and not [0]. *)
Definition fresh_name (used : gset N) : N := fresh ({[ 0%N ]} ∪ used).

(** Is shader [sid] attached to some program? *)
Definition shader_attached (s : gl_state) (sid : N) : bool :=
  existsb (fun kv => bool_decide (sid ∈ pr_attached kv.2))
          (map_to_list (programs s)).

(** The shader objects attached to a program. *)
Definition attached_shaders (s : gl_state) (pid : N) : list shader_obj :=
  match programs s !! pid with
  | Some pr => omap (fun sid => shaders s !! sid) (pr_attached pr)
  | None => []
  end.

(** Storage of the attachments of a framebuffer object. *)
Definition color_storage (s : gl_state) (fb : framebuffer_obj) : option (Z * Z) :=
  t ← fb_color fb; mjoin (textures s !! t).
Definition depth_stencil_storage (s : gl_state) (fb : framebuffer_obj)
  : option (Z * Z) :=
  rb ← fb_depth_stencil fb; mjoin (renderbuffers s !! rb).

(** The name [0] detaches. *)
Definition attachment (name : N) : option N :=
  if decide (name = 0%N) then None else Some name.

Definition unbind_deleted (names : list N) (bound : N) : N :=
  if bool_decide (bound ∈ names) then 0%N else bound.

Definition delete_all {V} (names : list N) (m : gmap N V) : gmap N V :=
  foldr delete m names.

(** ** Program variables

    The module-level variables that [main] declares [global], and the local
    variables of [main]. *)
Record globals : Type := Globals {
  WIN_W : Z;
  WIN_H : Z;
  cam_dist : R;
  cam_yaw : R;
  cam_pitch : R;
  show_grid : bool;
  enable_lensing : bool;
  lens_strength : R;
  lens_radius : R;
  event_horizon_radius_px : Z
}.

Definition set_WIN_W (v : Z) (x : globals) : globals :=
  {| WIN_W := v; WIN_H := WIN_H x; cam_dist := cam_dist x;
     cam_yaw := cam_yaw x; cam_pitch := cam_pitch x;
     show_grid := show_grid x; enable_lensing := enable_lensing x;
     lens_strength := lens_strength x; lens_radius := lens_radius x;
     event_horizon_radius_px := event_horizon_radius_px x |}.

Definition set_WIN_H (v : Z) (x : globals) : globals :=
  {| WIN_W := WIN_W x; WIN_H := v; cam_dist := cam_dist x;
     cam_yaw := cam_yaw x; cam_pitch := cam_pitch x;
     show_grid := show_grid x; enable_lensing := enable_lensing x;
     lens_strength := lens_strength x; lens_radius := lens_radius x;
     event_horizon_radius_px := event_horizon_radius_px x |}.

Definition set_cam_dist (v : R) (x : globals) : globals :=
  {| WIN_W := WIN_W x; WIN_H := WIN_H x; cam_dist := v;
     cam_yaw := cam_yaw x; cam_pitch := cam_pitch x;
     show_grid := show_grid x; enable_lensing := enable_lensing x;
     lens_strength := lens_strength x; lens_radius := lens_radius x;
     event_horizon_radius_px := event_horizon_radius_px x |}.

Definition set_cam_yaw (v : R) (x : globals) : globals :=
  {| WIN_W := WIN_W x; WIN_H := WIN_H x; cam_dist := cam_dist x;
     cam_yaw := v; cam_pitch := cam_pitch x; show_grid := show_grid x;
     enable_lensing := enable_lensing x; lens_strength := lens_strength x;
     lens_radius := lens_radius x;
     event_horizon_radius_px := event_horizon_radius_px x |}.

Definition set_cam_pitch (v : R) (x : globals) : globals :=
  {| WIN_W := WIN_W x; WIN_H := WIN_H x; cam_dist := cam_dist x;
     cam_yaw := cam_yaw x; cam_pitch := v; show_grid := show_grid x;
     enable_lensing := enable_lensing x; lens_strength := lens_strength x;
     lens_radius := lens_radius x;
     event_horizon_radius_px := event_horizon_radius_px x |}.

Definition set_show_grid (v : bool) (x : globals) : globals :=
  {| WIN_W := WIN_W x; WIN_H := WIN_H x; cam_dist := cam_dist x;
     cam_yaw := cam_yaw x; cam_pitch := cam_pitch x; show_grid := v;
     enable_lensing := enable_lensing x; lens_strength := lens_strength x;
     lens_radius := lens_radius x;
     event_horizon_radius_px := event_horizon_radius_px x |}.

Definition set_enable_lensing (v : bool) (x : globals) : globals :=
  {| WIN_W := WIN_W x; WIN_H := WIN_H x; cam_dist := cam_dist x;
     cam_yaw := cam_yaw x; cam_pitch := cam_pitch x;
     show_grid := show_grid x; enable_lensing := v;
     lens_strength := lens_strength x; lens_radius := lens_radius x;
     event_horizon_radius_px := event_horizon_radius_px x |}.

Definition set_lens_strength (v : R) (x : globals) : globals :=
  {| WIN_W := WIN_W x; WIN_H := WIN_H x; cam_dist := cam_dist x;
     cam_yaw := cam_yaw x; cam_pitch := cam_pitch x;
     show_grid := show_grid x; enable_lensing := enable_lensing x;
     lens_strength := v; lens_radius := lens_radius x;
     event_horizon_radius_px := event_horizon_radius_px x |}.

Definition set_lens_radius (v : R) (x : globals) : globals :=
  {| WIN_W := WIN_W x; WIN_H := WIN_H x; cam_dist := cam_dist x;
     cam_yaw := cam_yaw x; cam_pitch := cam_pitch x;
     show_grid := show_grid x; enable_lensing := enable_lensing x;
     lens_strength := lens_strength x; lens_radius := v;
     event_horizon_radius_px := event_horizon_radius_px x |}.

Definition set_event_horizon_radius_px (v : Z) (x : globals) : globals :=
  {| WIN_W := WIN_W x; WIN_H := WIN_H x; cam_dist := cam_dist x;
     cam_yaw := cam_yaw x; cam_pitch := cam_pitch x;
     show_grid := show_grid x; enable_lensing := enable_lensing x;
     lens_strength := lens_strength x; lens_radius := lens_radius x;
     event_horizon_radius_px := v |}.

Record locals : Type := Locals {
  fbo : N;
  scene_tex : N;
  rbo : N;
  fs_vbo : N;
  fs_ebo : N;
  post_prog : N;
  dragging : bool;
  last_mx : Z;
  last_my : Z;
  running : bool
}.

Definition set_fbo (v : N) (x : locals) : locals :=
  {| fbo := v; scene_tex := scene_tex x; rbo := rbo x; fs_vbo := fs_vbo x;
     fs_ebo := fs_ebo x; post_prog := post_prog x; dragging := dragging x;
     last_mx := last_mx x; last_my := last_my x; running := running x |}.

Definition set_scene_tex (v : N) (x : locals) : locals :=
  {| fbo := fbo x; scene_tex := v; rbo := rbo x; fs_vbo := fs_vbo x;
     fs_ebo := fs_ebo x; post_prog := post_prog x; dragging := dragging x;
     last_mx := last_mx x; last_my := last_my x; running := running x |}.

Definition set_rbo (v : N) (x : locals) : locals :=
  {| fbo := fbo x; scene_tex := scene_tex x; rbo := v; fs_vbo := fs_vbo x;
     fs_ebo := fs_ebo x; post_prog := post_prog x; dragging := dragging x;
     last_mx := last_mx x; last_my := last_my x; running := running x |}.

Definition set_fs_vbo (v : N) (x : locals) : locals :=
  {| fbo := fbo x; scene_tex := scene_tex x; rbo := rbo x; fs_vbo := v;
     fs_ebo := fs_ebo x; post_prog := post_prog x; dragging := dragging x;
     last_mx := last_mx x; last_my := last_my x; running := running x |}.

Definition set_fs_ebo (v : N) (x : locals) : locals :=
  {| fbo := fbo x; scene_tex := scene_tex x; rbo := rbo x;
     fs_vbo := fs_vbo x; fs_ebo := v; post_prog := post_prog x;
     dragging := dragging x; last_mx := last_mx x; last_my := last_my x;
     running := running x |}.

Definition set_post_prog (v : N) (x : locals) : locals :=
  {| fbo := fbo x; scene_tex := scene_tex x; rbo := rbo x;
     fs_vbo := fs_vbo x; fs_ebo := fs_ebo x; post_prog := v;
     dragging := dragging x; last_mx := last_mx x; last_my := last_my x;
     running := running x |}.

Definition set_dragging (v : bool) (x : locals) : locals :=
  {| fbo := fbo x; scene_tex := scene_tex x; rbo := rbo x;
     fs_vbo := fs_vbo x; fs_ebo := fs_ebo x; post_prog := post_prog x;
     dragging := v; last_mx := last_mx x; last_my := last_my x;
     running := running x |}.

Definition set_last_mx (v : Z) (x : locals) : locals :=
  {| fbo := fbo x; scene_tex := scene_tex x; rbo := rbo x;
     fs_vbo := fs_vbo x; fs_ebo := fs_ebo x; post_prog := post_prog x;
     dragging := dragging x; last_mx := v; last_my := last_my x;
     running := running x |}.

Definition set_last_my (v : Z) (x : locals) : locals :=
  {| fbo := fbo x; scene_tex := scene_tex x; rbo := rbo x;
     fs_vbo := fs_vbo x; fs_ebo := fs_ebo x; post_prog := post_prog x;
     dragging := dragging x; last_mx := last_mx x; last_my := v;
     running := running x |}.

Definition set_running (v : bool) (x : locals) : locals :=
  {| fbo := fbo x; scene_tex := scene_tex x; rbo := rbo x;
     fs_vbo := fs_vbo x; fs_ebo := fs_ebo x; post_prog := post_prog x;
     dragging := dragging x; last_mx := last_mx x; last_my := last_my x;
     running := v |}.

(** The values the module assigns at import time. *)
Definition initial_globals : globals :=
  {| WIN_W := 1280; WIN_H := 800;
     cam_dist := 18; cam_yaw := 35; cam_pitch := -15;
     show_grid := true; enable_lensing := true;
     lens_strength := 0.16; lens_radius := 0.55;
     event_horizon_radius_px := 70 |}.

Section WithDriver.
Context (drv : driver).

(** The effect of a call on the object tables and the binding points.
    [glGen*] and [glCreate*] are always asked for one name and add it to their
    table.  Calls of the fixed-function pipeline, draws, queries and pygame
    calls leave this part of the context alone. *)
Definition gl_effect (c : gl_call) (s : gl_state) : gl_state :=
  match c with
  | glCreateShader ty =>
      set_shaders <[fresh_name (dom (shaders s)) := ShaderObj ty "" false false]> s
  | glShaderSource sid src =>
      set_shaders (alter (fun sh =>
        ShaderObj (sh_type sh) src (sh_compiled sh) (sh_delete_flag sh)) sid) s
  | glCompileShader sid =>
      set_shaders (alter (fun sh =>
        ShaderObj (sh_type sh) (sh_source sh)
                  (compile_status drv (sh_type sh) (sh_source sh))
                  (sh_delete_flag sh)) sid) s
  | glCreateProgram =>
      set_programs <[fresh_name (dom (programs s)) := ProgramObj [] false]> s
  | glAttachShader pid sid =>
      set_programs (alter (fun pr =>
        ProgramObj (pr_attached pr ++ [sid]) (pr_linked pr)) pid) s
  | glLinkProgram pid =>
      set_programs (alter (fun pr =>
        ProgramObj (pr_attached pr) (link_status drv (attached_shaders s pid)))
        pid) s
  | glDeleteShader sid =>
      if shader_attached s sid
      then set_shaders (alter (fun sh =>
             ShaderObj (sh_type sh) (sh_source sh) (sh_compiled sh) true) sid) s
      else set_shaders (delete sid) s
  | glUseProgram pid => set_current_program (fun _ => pid) s
  | glGenTextures _ =>
      set_textures <[fresh_name (dom (textures s)) := None]> s
  | glBindTexture _ tex => set_bound_texture (fun _ => tex) s
  | glTexImage2D _ _ _ w h _ _ _ =>
      set_textures (alter (fun _ => Some (w, h)) (bound_texture s)) s
  | glDeleteTextures _ names =>
      set_bound_texture (unbind_deleted names)
        (set_textures (delete_all names) s)
  | glGenRenderbuffers _ =>
      set_renderbuffers <[fresh_name (dom (renderbuffers s)) := None]> s
  | glBindRenderbuffer _ rb => set_bound_renderbuffer (fun _ => rb) s
  | glRenderbufferStorage _ _ w h =>
      set_renderbuffers (alter (fun _ => Some (w, h)) (bound_renderbuffer s)) s
  | glDeleteRenderbuffers _ names =>
      set_bound_renderbuffer (unbind_deleted names)
        (set_renderbuffers (delete_all names) s)
  | glGenFramebuffers _ =>
      set_framebuffers
        <[fresh_name (dom (framebuffers s)) := FramebufferObj None None]> s
  | glBindFramebuffer _ fb => set_bound_framebuffer (fun _ => fb) s
  | glFramebufferTexture2D _ _ _ tex _ =>
      set_framebuffers (alter (fun fb =>
        FramebufferObj (attachment tex) (fb_depth_stencil fb))
        (bound_framebuffer s)) s
  | glFramebufferRenderbuffer _ _ _ rb =>
      set_framebuffers (alter (fun fb =>
        FramebufferObj (fb_color fb) (attachment rb))
        (bound_framebuffer s)) s
  | glDeleteFramebuffers _ names =>
      set_bound_framebuffer (unbind_deleted names)
        (set_framebuffers (delete_all names) s)
  | glGenBuffers _ =>
      set_buffers <[fresh_name (dom (buffers s)) := None]> s
  | glBindBuffer target buf =>
      if decide (target = GL_ELEMENT_ARRAY_BUFFER)
      then set_bound_element_array_buffer (fun _ => buf) s
      else set_bound_array_buffer (fun _ => buf) s
  | glBufferData target _ data _ =>
      set_buffers (alter (fun _ => Some data)
        (if decide (target = GL_ELEMENT_ARRAY_BUFFER)
         then bound_element_array_buffer s else bound_array_buffer s)) s
  | glDeleteBuffers _ names =>
      set_bound_array_buffer (unbind_deleted names)
        (set_bound_element_array_buffer (unbind_deleted names)
          (set_buffers (delete_all names) s))
  | _ => s
  end.

(** Performing a call: its effect, and the call appended to the log. *)
Definition gl_do (c : gl_call) (s : gl_state) : gl_state :=
  set_calls (fun l => l ++ [c]) (gl_effect c s).

Definition gl_do_all (l : list gl_call) (s : gl_state) : gl_state :=
  fold_left (fun s c => gl_do c s) l s.

(** ** Python exceptions and the monad of the program *)

Inductive exn : Type :=
| RuntimeError (msg : string)
| ZeroDivisionError
| SystemExit (code : Z).

Inductive result (A : Type) : Type :=
| Ok (a : A)
| Raise (e : exn).
#[global] Arguments Ok {A} a.
#[global] Arguments Raise {A} e.

(** A computation reads and updates the OpenGL context and returns a value or
    raises; the context at the point of the [raise] is not kept, no handler of
    the program looks at it. *)
Definition M (A : Type) : Type := gl_state -> result (A * gl_state).

Definition ret {A} (a : A) : M A := fun s => Ok (a, s).

Definition bind {A B} (m : M A) (k : A -> M B) : M B :=
  fun s => match m s with
           | Ok (a, s') => k a s'
           | Raise e => Raise e
           end.

Definition raise {A} (e : exn) : M A := fun _ => Raise e.

Notation "x <- m ;; k" := (bind m (fun x => k))
  (at level 100, m at next level, k at level 200, right associativity).
Notation "m ;; k" := (bind m (fun _ => k))
  (at level 100, k at level 200, right associativity).

(** A call whose result the program ignores. *)
Definition cmd (c : gl_call) : M unit := fun s => Ok (tt, gl_do c s).

(** A straight-line block of such calls. *)
Definition cmds (l : list gl_call) : M unit := fun s => Ok (tt, gl_do_all l s).

(** [for x in l: body]. *)
Fixpoint for_ {A} (l : list A) (body : A -> M unit) : M unit :=
  match l with
  | [] => ret tt
  | x :: l' => body x ;; for_ l' body
  end.

(** Calls whose result the program uses.  Each performs the call and returns
    what OpenGL answers in the context the call was made in. *)
Definition do_glCreateShader (shader_type : GLenum) : M N :=
  fun s => Ok (fresh_name (dom (shaders s)), gl_do (glCreateShader shader_type) s).

(** [glGetShaderiv(sid, GL_COMPILE_STATUS)], as a truth value. *)
Definition do_glGetShaderiv (sid : N) (pname : GLenum) : M bool :=
  fun s => Ok (from_option sh_compiled false (shaders s !! sid),
               gl_do (glGetShaderiv sid pname) s).

(** [glGetShaderInfoLog(sid).decode()]. *)
Definition do_glGetShaderInfoLog (sid : N) : M string :=
  fun s => Ok (from_option (fun sh => shader_info_log drv (sh_type sh) (sh_source sh))
                           "" (shaders s !! sid),
               gl_do (glGetShaderInfoLog sid) s).

Definition do_glCreateProgram : M N :=
  fun s => Ok (fresh_name (dom (programs s)), gl_do glCreateProgram s).

(** [glGetProgramiv(pid, GL_LINK_STATUS)], as a truth value. *)
Definition do_glGetProgramiv (pid : N) (pname : GLenum) : M bool :=
  fun s => Ok (from_option pr_linked false (programs s !! pid),
               gl_do (glGetProgramiv pid pname) s).

(** [glGetProgramInfoLog(pid).decode()]. *)
Definition do_glGetProgramInfoLog (pid : N) : M string :=
  fun s => Ok (program_info_log drv (attached_shaders s pid),
               gl_do (glGetProgramInfoLog pid) s).

Definition do_glGenTextures (n : Z) : M N :=
  fun s => Ok (fresh_name (dom (textures s)), gl_do (glGenTextures n) s).

Definition do_glGenRenderbuffers (n : Z) : M N :=
  fun s => Ok (fresh_name (dom (renderbuffers s)), gl_do (glGenRenderbuffers n) s).

Definition do_glGenFramebuffers (n : Z) : M N :=
  fun s => Ok (fresh_name (dom (framebuffers s)), gl_do (glGenFramebuffers n) s).

Definition do_glGenBuffers (n : Z) : M N :=
  fun s => Ok (fresh_name (dom (buffers s)), gl_do (glGenBuffers n) s).

(** [glCheckFramebufferStatus(target) == GL_FRAMEBUFFER_COMPLETE] for the bound
    framebuffer; the default framebuffer [0] is complete. *)
Definition do_glCheckFramebufferStatus (target : GLenum) : M bool :=
  fun s => Ok (match framebuffers s !! bound_framebuffer s with
               | Some fb => framebuffer_complete drv (color_storage s fb)
                                                 (depth_stencil_storage s fb)
               | None => bool_decide (bound_framebuffer s = 0%N)
               end,
               gl_do (glCheckFramebufferStatus target) s).

Definition do_glGetUniformLocation (pid : N) (name : string) : M Z :=
  fun s => Ok (uniform_location drv name, gl_do (glGetUniformLocation pid name) s).

Definition do_glGetAttribLocation (pid : N) (name : string) : M Z :=
  fun s => Ok (attrib_location drv name, gl_do (glGetAttribLocation pid name) s).

(** Float division [x / y], which raises on a zero divisor. *)
Definition truediv (x y : R) : M R :=
  if Req_dec_T y 0 then raise ZeroDivisionError else ret (x / y).

(** ** The program: module-level constants and variables *)

Definition FOV : R := 60.
Definition NEAR : R := 0.1.
Definition FAR : R := 200.

Definition STAR_POSITIONS : list (R * R * R * (R * R * R)) :=
  [ (6.5, 2.2, -9, (1, 0.95, 0.2));
    (-7, 3, -12, (1, 0.4, 0.3));
    (10, 1, -14, (0.6, 0.8, 1));
    (-4, -1, -8, (1, 1, 1)) ].

Definition GRID_SIZE : Z := 24.
Definition GRID_STEP : R := 1.

Definition newline : string := String (ascii_of_nat 10) EmptyString.

(** ** Resource helpers *)

Definition compile_shader (src : string) (shader_type : GLenum) : M N :=
  sid <- do_glCreateShader shader_type ;;
  cmd (glShaderSource sid src) ;;
  cmd (glCompileShader sid) ;;
  ok <- do_glGetShaderiv sid GL_COMPILE_STATUS ;;
  if negb ok then
    log <- do_glGetShaderInfoLog sid ;;
    raise (RuntimeError ("Shader compile error:" +:+ newline +:+ log))
  else ret sid.

Definition link_program (vs_src fs_src : string) : M N :=
  vs <- compile_shader vs_src GL_VERTEX_SHADER ;;
  fs <- compile_shader fs_src GL_FRAGMENT_SHADER ;;
  pid <- do_glCreateProgram ;;
  cmd (glAttachShader pid vs) ;;
  cmd (glAttachShader pid fs) ;;
  cmd (glLinkProgram pid) ;;
  ok <- do_glGetProgramiv pid GL_LINK_STATUS ;;
  if negb ok then
    log <- do_glGetProgramInfoLog pid ;;
    raise (RuntimeError ("Program link error:" +:+ newline +:+ log))
  else
    cmd (glDeleteShader vs) ;;
    cmd (glDeleteShader fs) ;;
    ret pid.

(** Returns [(fbo, tex, rbo)]. *)
Definition create_fbo_tex (w h : Z) : M (N * N * N) :=
  tex <- do_glGenTextures 1 ;;
  cmd (glBindTexture GL_TEXTURE_2D tex) ;;
  cmd (glTexImage2D GL_TEXTURE_2D 0 GL_RGBA8 w h 0 GL_RGBA GL_UNSIGNED_BYTE) ;;
  cmd (glTexParameteri GL_TEXTURE_2D GL_TEXTURE_MIN_FILTER GL_LINEAR) ;;
  cmd (glTexParameteri GL_TEXTURE_2D GL_TEXTURE_MAG_FILTER GL_LINEAR) ;;
  cmd (glBindTexture GL_TEXTURE_2D 0) ;;
  rbo <- do_glGenRenderbuffers 1 ;;
  cmd (glBindRenderbuffer GL_RENDERBUFFER rbo) ;;
  cmd (glRenderbufferStorage GL_RENDERBUFFER GL_DEPTH24_STENCIL8 w h) ;;
  cmd (glBindRenderbuffer GL_RENDERBUFFER 0) ;;
  fbo <- do_glGenFramebuffers 1 ;;
  cmd (glBindFramebuffer GL_FRAMEBUFFER fbo) ;;
  cmd (glFramebufferTexture2D GL_FRAMEBUFFER GL_COLOR_ATTACHMENT0 GL_TEXTURE_2D
         tex 0) ;;
  cmd (glFramebufferRenderbuffer GL_FRAMEBUFFER GL_DEPTH_STENCIL_ATTACHMENT
         GL_RENDERBUFFER rbo) ;;
  complete <- do_glCheckFramebufferStatus GL_FRAMEBUFFER ;;
  if negb complete then raise (RuntimeError "FBO incomplete")
  else
    cmd (glBindFramebuffer GL_FRAMEBUFFER 0) ;;
    ret (fbo, tex, rbo).

(** Returns [(vbo, ebo)]. *)
Definition create_fs_quad : M (N * N) :=
  let verts := [ -1; -1; 0; 0;
                  1; -1; 1; 0;
                  1;  1; 1; 1;
                 -1;  1; 0; 1 ] in
  let idx := [0; 1; 2; 2; 3; 0]%Z in
  vbo <- do_glGenBuffers 1 ;;
  cmd (glBindBuffer GL_ARRAY_BUFFER vbo) ;;
  cmd (glBufferData GL_ARRAY_BUFFER (Z.of_nat (length verts) * 4)
         (c_float_array verts) GL_STATIC_DRAW) ;;
  cmd (glBindBuffer GL_ARRAY_BUFFER 0) ;;
  ebo <- do_glGenBuffers 1 ;;
  cmd (glBindBuffer GL_ELEMENT_ARRAY_BUFFER ebo) ;;
  cmd (glBufferData GL_ELEMENT_ARRAY_BUFFER (Z.of_nat (length idx) * 4)
         (c_uint_array idx) GL_STATIC_DRAW) ;;
  cmd (glBindBuffer GL_ELEMENT_ARRAY_BUFFER 0) ;;
  ret (vbo, ebo).

(** ** Overlay (2D) drawing *)

(** The nested helper [ring(r, a)] of [draw_black_hole_overlay]; [cx], [cy]
    are the variables it closes over. *)
Definition ring (cx cy : R) (r a : R) : M unit :=
  cmds [glColor4f 0.25 0.45 0.9 a; glBegin GL_TRIANGLE_FAN; glVertex2f cx cy] ;;
  let segments := 64%Z in
  for_ (Py.range 0 (segments + 1)) (fun i =>
    let th := 2 * PI * (IZR i / IZR segments) in
    cmd (glVertex2f (cx + cos th * r) (cy + sin th * r))) ;;
  cmd glEnd.

Definition draw_black_hole_overlay (screen_w screen_h eh_px : Z) : M unit :=
  cmds [glMatrixMode GL_PROJECTION; glPushMatrix; glLoadIdentity;
        glOrtho 0 (IZR screen_w) (IZR screen_h) 0 (-1) 1;
        glMatrixMode GL_MODELVIEW; glPushMatrix; glLoadIdentity;
        glDisable GL_DEPTH_TEST; glEnable GL_BLEND;
        glBlendFunc GL_SRC_ALPHA GL_ONE_MINUS_SRC_ALPHA] ;;
  let cx := IZR screen_w * 0.5 in
  let cy := IZR screen_h * 0.5 in
  for_ (Py.range3 5 0 (-1)) (fun i =>
    ring cx cy (IZR eh_px * (1 + 0.45 * IZR i)) (0.08 + 0.03 * IZR i)) ;;
  cmds [glColor3f 0 0 0; glBegin GL_TRIANGLE_FAN; glVertex2f cx cy] ;;
  let segments := 96%Z in
  for_ (Py.range 0 (segments + 1)) (fun i =>
    let th := 2 * PI * (IZR i / IZR segments) in
    cmd (glVertex2f (cx + cos th * IZR eh_px) (cy + sin th * IZR eh_px))) ;;
  cmds [glEnd; glDisable GL_BLEND; glEnable GL_DEPTH_TEST;
        glPopMatrix; glMatrixMode GL_PROJECTION; glPopMatrix;
        glMatrixMode GL_MODELVIEW].

(** ** Scene drawing *)

Definition set_perspective (w h : Z) : M unit :=
  cmds [glMatrixMode GL_PROJECTION; glLoadIdentity] ;;
  aspect <- truediv (IZR w) (IZR h) ;;
  cmds [gluPerspective FOV aspect NEAR FAR; glMatrixMode GL_MODELVIEW].

Definition set_camera (g : globals) : M unit :=
  cmd glLoadIdentity ;;
  let yaw_r := Py.radians (cam_yaw g) in
  let pitch_r := Py.radians (cam_pitch g) in
  let x := cam_dist g * cos pitch_r * sin yaw_r in
  let y := cam_dist g * sin pitch_r in
  let z := cam_dist g * cos pitch_r * cos yaw_r in
  cmd (gluLookAt x y z 0 0 0 0 1 0).

Definition draw_grid (g : globals) : M unit :=
  if negb (show_grid g) then ret tt
  else
    cmds [glDisable GL_LIGHTING; glLineWidth 1; glColor3f 0.25 0.5 0.9;
          glBegin GL_LINES] ;;
    let s := GRID_SIZE in
    let step := GRID_STEP in
    for_ (Py.range (- s) (s + 1)) (fun i =>
      cmds [glVertex3f (IZR i * step) 0 (IZR (- s) * step);
            glVertex3f (IZR i * step) 0 (IZR s * step);
            glVertex3f (IZR (- s) * step) 0 (IZR i * step);
            glVertex3f (IZR s * step) 0 (IZR i * step)]) ;;
    cmd glEnd.

Definition draw_sphere (radius : R) (color : R * R * R) (slices stacks : Z)
  : M unit :=
  let '(cr, cg, cb) := color in
  cmds [glColor3f cr cg cb; gluNewQuadric; gluSphere radius slices stacks;
        gluDeleteQuadric].

Definition draw_scene_objects : M unit :=
  cmds [glEnable GL_LIGHTING; glEnable GL_LIGHT0;
        glLightfv GL_LIGHT0 GL_POSITION 0 5 5 1;
        glLightfv GL_LIGHT0 GL_DIFFUSE 1 1 1 1;
        glMaterialfv GL_FRONT_AND_BACK GL_SPECULAR 0.5 0.5 0.5 1;
        glMaterialf GL_FRONT_AND_BACK GL_SHININESS 12] ;;
  for_ STAR_POSITIONS (fun '(sx, sy, sz, col) =>
    cmd glPushMatrix ;;
    cmd (glTranslatef sx sy sz) ;;
    draw_sphere 0.6 col 32 24 ;;
    cmd glPopMatrix) ;;
  cmd (glDisable GL_LIGHTING) ;;
  cmds [glPushMatrix; glRotatef 90 1 0 0; glColor4f 1 0.8 0.2 0.7;
        glEnable GL_BLEND; glBlendFunc GL_SRC_ALPHA GL_ONE_MINUS_SRC_ALPHA;
        glBegin GL_TRIANGLE_STRIP] ;;
  let segments := 128%Z in
  let '(r1, r2) := (2.5, 6.5) in
  for_ (Py.range 0 (segments + 1)) (fun i =>
    let th := 2 * PI * (IZR i / IZR segments) in
    let '(c, s) := (cos th, sin th) in
    cmds [glVertex3f (c * r1) (s * r1) 0; glVertex3f (c * r2) (s * r2) 0]) ;;
  cmds [glEnd; glDisable GL_BLEND; glPopMatrix].

(** ** Shader sources *)

Definition POST_VS : string := "
#version 120
attribute vec2 aPos;
attribute vec2 aUV;
varying vec2 vUV;
void main(){
    vUV = aUV;
    gl_Position = vec4(aPos, 0.0, 1.0);
}
".

Definition POST_FS : string := "
#version 120
uniform sampler2D uScene;
uniform vec2 uResolution;   // screen size in pixels
uniform float uStrength;    // lens strength
uniform float uRadius;      // influence radius in normalized space (0..1, where 1 ~ half-min dimension)
uniform float uEHpx;        // event horizon radius in pixels
varying vec2 vUV;

void main(){
    vec2 res = uResolution;
    vec2 uv = vUV;

    // convert to NDC-like centered coords where y up, x right
    vec2 p = (gl_FragCoord.xy - 0.5*res);
    float minHalf = min(res.x, res.y) * 0.5;

    float d = length(p);                        // pixels from center
    float dnorm = d / minHalf;                  // 0..~1 range
    // If inside the event horizon, render black
    if (d <= uEHpx){
        gl_FragColor = vec4(0.0,0.0,0.0,1.0);
        return;
    }

    // Only warp within influence radius (soft falloff)
    float r = uRadius;  // normalized
    vec2 dir = (d > 1e-5) ? (p / d) : vec2(0.0,0.0);

    float warp = 0.0;
    if (dnorm < r){
        // Bell-ish curve that grows as we approach center
        float t = 1.0 - (dnorm / r);
        // inverse-like term for bending (avoid singularities)
        warp = uStrength * t * (1.0 / (dnorm + 0.02));
    }

    vec2 disp = dir * warp * (minHalf / res);  // map back to UV space
    vec2 uv2 = uv + disp;

    // sample scene
    vec4 col = texture2D(uScene, uv2);

    // subtle vignette for drama
    float vig = 1.0 - pow(dnorm, 2.0) * 0.25;
    col.rgb *= clamp(vig, 0.8, 1.0);

    gl_FragColor = col;
}
".

(** ** Events *)

(** The keys the program tells apart; [K_OTHER] is any other key. *)
Inductive key : Type :=
| K_ESCAPE | K_q | K_r | K_g | K_l | K_PLUS | K_EQUALS | K_MINUS
| K_LEFTBRACKET | K_RIGHTBRACKET | K_OTHER.

(** A pygame event with the attributes the program reads; [OTHER_EVENT] is an
    event of any other type. *)
Inductive event : Type :=
| QUIT
| KEYDOWN (k : key)
| MOUSEBUTTONDOWN (button : Z) (pos : Z * Z)
| MOUSEBUTTONUP (button : Z) (pos : Z * Z)
| MOUSEMOTION (pos : Z * Z)
| VIDEORESIZE (w h : Z)
| OTHER_EVENT.

(** The state of the program between two statements of the main loop. *)
Definition state : Type := globals * locals.

(** ** [main]: the body of [for e in pygame.event.get()] *)

Definition handle_event (e : event) (st : state) : M state :=
  let '(g, l) := st in
  match e with
  | QUIT => ret (g, set_running false l)
  | KEYDOWN k =>
      match k with
      | K_ESCAPE | K_q => ret (g, set_running false l)
      | K_r => ret (set_cam_pitch (-15) (set_cam_yaw 35 (set_cam_dist 18 g)), l)
      | K_g => ret (set_show_grid (negb (show_grid g)) g, l)
      | K_l => ret (set_enable_lensing (negb (enable_lensing g)) g, l)
      | K_PLUS | K_EQUALS =>
          ret (set_lens_strength (Py.min 0.75 (lens_strength g + 0.02)) g, l)
      | K_MINUS =>
          ret (set_lens_strength (Py.max 0.02 (lens_strength g - 0.02)) g, l)
      | K_LEFTBRACKET =>
          ret (set_lens_radius (Py.max 0.15 (lens_radius g - 0.02)) g, l)
      | K_RIGHTBRACKET =>
          ret (set_lens_radius (Py.min 0.95 (lens_radius g + 0.02)) g, l)
      | K_OTHER => ret (g, l)
      end
  | MOUSEBUTTONDOWN button pos =>
      if decide (button = 1%Z) then
        ret (g, set_last_my pos.2 (set_last_mx pos.1 (set_dragging true l)))
      else if decide (button = 4%Z) then
        ret (set_cam_dist (Py.max 3.5 (cam_dist g - 1)) g, l)
      else if decide (button = 5%Z) then
        ret (set_cam_dist (Py.min 80 (cam_dist g + 1)) g, l)
      else ret (g, l)
  | MOUSEBUTTONUP button _ =>
      if decide (button = 1%Z) then ret (g, set_dragging false l)
      else ret (g, l)
  | MOUSEMOTION pos =>
      if dragging l then
        let '(mx, my) := pos in
        let dx := (mx - last_mx l)%Z in
        let dy := (my - last_my l)%Z in
        let l := set_last_my my (set_last_mx mx l) in
        let g := set_cam_yaw (Py.fmod (cam_yaw g + IZR dx * 0.3) 360) g in
        let g := set_cam_pitch
                   (Py.max (-85) (Py.min 85 (cam_pitch g + IZR dy * 0.3))) g in
        ret (g, l)
      else ret (g, l)
  | VIDEORESIZE w h =>
      let g := set_WIN_H h (set_WIN_W w g) in
      cmd (pygame_display_set_mode (WIN_W g) (WIN_H g)) ;;
      cmd (glViewport 0 0 (WIN_W g) (WIN_H g)) ;;
      set_perspective (WIN_W g) (WIN_H g) ;;
      cmd (glDeleteFramebuffers 1 [fbo l]) ;;
      cmd (glDeleteTextures 1 [scene_tex l]) ;;
      cmd (glDeleteRenderbuffers 1 [rbo l]) ;;
      new <- create_fbo_tex (WIN_W g) (WIN_H g) ;;
      let '(fbo', scene_tex', rbo') := new in
      ret (g, set_rbo rbo' (set_scene_tex scene_tex' (set_fbo fbo' l)))
  | OTHER_EVENT => ret (g, l)
  end.

(** [for e in pygame.event.get(): ...] over the events of one poll. *)
Fixpoint process_events (evs : list event) (st : state) : M state :=
  match evs with
  | [] => ret st
  | e :: evs' => st' <- handle_event e st ;; process_events evs' st'
  end.

(** ** [main]: the three passes of a frame *)

(** "1) render scene into FBO". *)
Definition render_scene_pass (st : state) : M unit :=
  let '(g, l) := st in
  cmd (glBindFramebuffer GL_FRAMEBUFFER (fbo l)) ;;
  cmd (glViewport 0 0 (WIN_W g) (WIN_H g)) ;;
  cmd (glClear [GL_COLOR_BUFFER_BIT; GL_DEPTH_BUFFER_BIT]) ;;
  set_perspective (WIN_W g) (WIN_H g) ;;
  set_camera g ;;
  draw_grid g ;;
  draw_scene_objects ;;
  cmd (glBindFramebuffer GL_FRAMEBUFFER 0).

(** "2) postprocess lensing to screen". *)
Definition postprocess_pass (st : state) : M unit :=
  let '(g, l) := st in
  cmds [glViewport 0 0 (WIN_W g) (WIN_H g);
        glClear [GL_COLOR_BUFFER_BIT; GL_DEPTH_BUFFER_BIT];
        glDisable GL_DEPTH_TEST;
        glUseProgram (post_prog l)] ;;
  uScene_loc <- do_glGetUniformLocation (post_prog l) "uScene" ;;
  uRes_loc <- do_glGetUniformLocation (post_prog l) "uResolution" ;;
  uStrength_loc <- do_glGetUniformLocation (post_prog l) "uStrength" ;;
  uRadius_loc <- do_glGetUniformLocation (post_prog l) "uRadius" ;;
  uEH_loc <- do_glGetUniformLocation (post_prog l) "uEHpx" ;;
  cmds [glUniform1i uScene_loc 0;
        glActiveTexture GL_TEXTURE0;
        glBindTexture GL_TEXTURE_2D (scene_tex l);
        glUniform2f uRes_loc (IZR (WIN_W g)) (IZR (WIN_H g));
        glUniform1f uStrength_loc
          (if enable_lensing g then lens_strength g else 0);
        glUniform1f uRadius_loc (lens_radius g);
        glUniform1f uEH_loc (IZR (event_horizon_radius_px g));
        glBindBuffer GL_ARRAY_BUFFER (fs_vbo l);
        glBindBuffer GL_ELEMENT_ARRAY_BUFFER (fs_ebo l)] ;;
  let stride := (4 * 4)%Z in
  aPos <- do_glGetAttribLocation (post_prog l) "aPos" ;;
  aUV <- do_glGetAttribLocation (post_prog l) "aUV" ;;
  cmds [glEnableVertexAttribArray aPos;
        glEnableVertexAttribArray aUV;
        glVertexAttribPointer aPos 2 GL_FLOAT GL_FALSE stride 0;
        glVertexAttribPointer aUV 2 GL_FLOAT GL_FALSE stride 8;
        glDrawElements GL_TRIANGLES 6 GL_UNSIGNED_INT 0;
        glDisableVertexAttribArray aPos;
        glDisableVertexAttribArray aUV;
        glBindBuffer GL_ARRAY_BUFFER 0;
        glBindBuffer GL_ELEMENT_ARRAY_BUFFER 0;
        glUseProgram 0;
        glEnable GL_DEPTH_TEST].

(** "3) draw black hole overlay (disc + glow)". *)
Definition overlay_pass (st : state) : M unit :=
  draw_black_hole_overlay (WIN_W st.1) (WIN_H st.1)
                          (event_horizon_radius_px st.1).

(** [pygame.display.flip(); clock.tick(60)]. *)
Definition present : M unit := cmds [pygame_display_flip; clock_tick 60].

(** The uniforms the postprocess pass hands to the shader. *)
Definition post_uniforms (g : globals) : PostFS.uniforms :=
  {| PostFS.uResolution := Vec2 (IZR (WIN_W g)) (IZR (WIN_H g));
     PostFS.uStrength := if enable_lensing g then lens_strength g else 0;
     PostFS.uRadius := lens_radius g;
     PostFS.uEHpx := IZR (event_horizon_radius_px g) |}.

(** ** [main]: one iteration of [while running], and the loop *)

(** [evs] is what [pygame.event.get()] returns in this iteration. *)
Definition frame (evs : list event) (st : state) : M state :=
  st <- process_events evs st ;;
  render_scene_pass st ;;
  postprocess_pass st ;;
  overlay_pass st ;;
  present ;;
  ret st.

(** The loop over the successive polls [polls]; it stops when [running] is
    false at the head of an iteration, or when the polls are used up. *)
Fixpoint main_loop (polls : list (list event)) (st : state) : M state :=
  match polls with
  | [] => ret st
  | evs :: polls' =>
      if running st.2 then st' <- frame evs st ;; main_loop polls' st'
      else ret st
  end.

(** [main] up to the loop. *)
Definition main_setup : M state :=
  let g := initial_globals in
  cmds [pygame_init; pygame_display_set_caption "Blackhole";
        pygame_display_set_mode (WIN_W g) (WIN_H g);
        glViewport 0 0 (WIN_W g) (WIN_H g);
        glEnable GL_DEPTH_TEST;
        glClearColor 0.02 0.05 0.10 1] ;;
  set_perspective (WIN_W g) (WIN_H g) ;;
  target <- create_fbo_tex (WIN_W g) (WIN_H g) ;;
  let '(fbo, scene_tex, rbo) := target in
  quad <- create_fs_quad ;;
  let '(fs_vbo, fs_ebo) := quad in
  post_prog <- link_program POST_VS POST_FS ;;
  ret (g, {| fbo := fbo; scene_tex := scene_tex; rbo := rbo;
             fs_vbo := fs_vbo; fs_ebo := fs_ebo; post_prog := post_prog;
             dragging := false; last_mx := 0; last_my := 0;
             running := true |}).

(** [main] after the loop. *)
Definition main_cleanup (st : state) : M unit :=
  let l := st.2 in
  cmds [glDeleteFramebuffers 1 [fbo l]; glDeleteTextures 1 [scene_tex l];
        glDeleteRenderbuffers 1 [rbo l]; glDeleteBuffers 1 [fs_vbo l];
        glDeleteBuffers 1 [fs_ebo l]; pygame_quit] ;;
  raise (SystemExit 0).

(** [main] on the polls [polls]: when they end the loop, the cleanup runs and
    [sys.exit(0)] raises; otherwise the state after the last poll. *)
Definition main (polls : list (list event)) : M state :=
  st <- main_setup ;;
  st <- main_loop polls st ;;
  if running st.2 then ret st else (main_cleanup st ;; ret st).

(** ** Reachable states *)

(** The states the program can be in between two statements of the loop body:
    after the setup, after handling one more event, after rendering. *)
Inductive reachable : state -> gl_state -> Prop :=
| reach_setup st s :
    main_setup gl_empty = Ok (st, s) -> reachable st s
| reach_event e st s st' s' :
    reachable st s -> handle_event e st s = Ok (st', s') -> reachable st' s'
| reach_render st s s' :
    reachable st s ->
    (render_scene_pass st ;; postprocess_pass st ;; overlay_pass st ;; present) s
      = Ok (tt, s') ->
    reachable st s'.

(** * Vocabulary of the properties *)

(** The distance of the fragment from the screen centre, and that distance in
    units of half the smaller screen dimension, written out. *)
Definition center_distance (u : PostFS.uniforms) (fc : vec2) : R :=
  sqrt ((vx fc - vx (PostFS.uResolution u) / 2) ^ 2
        + (vy fc - vy (PostFS.uResolution u) / 2) ^ 2).

Definition normalized_distance (u : PostFS.uniforms) (fc : vec2) : R :=
  center_distance u fc
  / (Rmin (vx (PostFS.uResolution u)) (vy (PostFS.uResolution u)) / 2).


(** [emits m l]: in every context [m] returns normally after performing
    exactly the calls [l], in order. *)
Definition emits (m : M unit) (l : list gl_call) : Prop :=
  forall s, m s = Ok (tt, gl_do_all l s).

(** The object tables of the context, and the one table a call may change. *)
Inductive table : Type :=
| Shaders | Programs | Textures | Renderbuffers | Framebuffers | Buffers.

Definition touches (c : gl_call) : option table :=
  match c with
  | glCreateShader _ | glShaderSource _ _ | glCompileShader _
  | glDeleteShader _ => Some Shaders
  | glCreateProgram | glAttachShader _ _ | glLinkProgram _ => Some Programs
  | glGenTextures _ | glTexImage2D _ _ _ _ _ _ _ _ | glDeleteTextures _ _ =>
      Some Textures
  | glGenRenderbuffers _ | glRenderbufferStorage _ _ _ _
  | glDeleteRenderbuffers _ _ => Some Renderbuffers
  | glGenFramebuffers _ | glFramebufferTexture2D _ _ _ _ _
  | glFramebufferRenderbuffer _ _ _ _ | glDeleteFramebuffers _ _ =>
      Some Framebuffers
  | glGenBuffers _ | glBufferData _ _ _ _ | glDeleteBuffers _ _ => Some Buffers
  | _ => None
  end.

(** Calls that leave the tables of textures, renderbuffers and framebuffers
    as they are. *)
Definition keeps_targets (c : gl_call) : bool :=
  match touches c with
  | Some Textures | Some Renderbuffers | Some Framebuffers => false
  | _ => true
  end.

(** The exceptions of [compile_shader] and [link_program] for an info log. *)
Definition compile_error (log : string) : exn :=
  RuntimeError ("Shader compile error:" +:+ newline +:+ log).

Definition link_error (log : string) : exn :=
  RuntimeError ("Program link error:" +:+ newline +:+ log).

(** The shader objects of a program built from a vertex and a fragment
    source that both compiled. *)
Definition compiled_pair (vs_src fs_src : string) : list shader_obj :=
  [ShaderObj GL_VERTEX_SHADER vs_src true false;
   ShaderObj GL_FRAGMENT_SHADER fs_src true false].

(** ** The calls of each drawing function, as a list

    These lists are what the lemmas [*_emits] below prove the corresponding
    functions perform. *)

(** The rim of a triangle fan around [(cx, cy)]: [segments + 1] vertices on the
    circle of radius [r]. *)
Definition rim_calls (cx cy r : R) (segments : Z) : list gl_call :=
  List.map (fun i =>
         let th := 2 * PI * (IZR i / IZR segments) in
         glVertex2f (cx + cos th * r) (cy + sin th * r))
      (Py.range 0 (segments + 1)).

Definition ring_calls (cx cy r a : R) : list gl_call :=
  [glColor4f 0.25 0.45 0.9 a; glBegin GL_TRIANGLE_FAN; glVertex2f cx cy]
  ++ rim_calls cx cy r 64 ++ [glEnd].

Definition overlay_calls (screen_w screen_h eh_px : Z) : list gl_call :=
  let cx := IZR screen_w * 0.5 in
  let cy := IZR screen_h * 0.5 in
  [glMatrixMode GL_PROJECTION; glPushMatrix; glLoadIdentity;
   glOrtho 0 (IZR screen_w) (IZR screen_h) 0 (-1) 1;
   glMatrixMode GL_MODELVIEW; glPushMatrix; glLoadIdentity;
   glDisable GL_DEPTH_TEST; glEnable GL_BLEND;
   glBlendFunc GL_SRC_ALPHA GL_ONE_MINUS_SRC_ALPHA]
  ++ concat (List.map (fun i =>
               ring_calls cx cy (IZR eh_px * (1 + 0.45 * IZR i))
                          (0.08 + 0.03 * IZR i))
             [5; 4; 3; 2; 1]%Z)
  ++ [glColor3f 0 0 0; glBegin GL_TRIANGLE_FAN; glVertex2f cx cy]
  ++ rim_calls cx cy (IZR eh_px) 96
  ++ [glEnd; glDisable GL_BLEND; glEnable GL_DEPTH_TEST;
      glPopMatrix; glMatrixMode GL_PROJECTION; glPopMatrix;
      glMatrixMode GL_MODELVIEW].

Definition perspective_calls (w h : Z) : list gl_call :=
  [glMatrixMode GL_PROJECTION; glLoadIdentity;
   gluPerspective 60 (IZR w / IZR h) 0.1 200; glMatrixMode GL_MODELVIEW].

(** The eye of the orbit camera: spherical to Cartesian, angles in degrees. *)
Definition eye_x (g : globals) : R :=
  cam_dist g * cos (cam_pitch g * PI / 180) * sin (cam_yaw g * PI / 180).
Definition eye_y (g : globals) : R :=
  cam_dist g * sin (cam_pitch g * PI / 180).
Definition eye_z (g : globals) : R :=
  cam_dist g * cos (cam_pitch g * PI / 180) * cos (cam_yaw g * PI / 180).

Definition camera_calls (g : globals) : list gl_call :=
  [glLoadIdentity; gluLookAt (eye_x g) (eye_y g) (eye_z g) 0 0 0 0 1 0].

Definition grid_calls (g : globals) : list gl_call :=
  if show_grid g then
    [glDisable GL_LIGHTING; glLineWidth 1; glColor3f 0.25 0.5 0.9;
     glBegin GL_LINES]
    ++ concat (List.map (fun i =>
                 [glVertex3f (IZR i * 1) 0 (IZR (-24) * 1);
                  glVertex3f (IZR i * 1) 0 (IZR 24 * 1);
                  glVertex3f (IZR (-24) * 1) 0 (IZR i * 1);
                  glVertex3f (IZR 24 * 1) 0 (IZR i * 1)])
               (Py.range (-24) 25))
    ++ [glEnd]
  else [].

Definition star_calls (star : R * R * R * (R * R * R)) : list gl_call :=
  let '(sx, sy, sz, (r, g, b)) := star in
  [glPushMatrix; glTranslatef sx sy sz;
   glColor3f r g b; gluNewQuadric; gluSphere 0.6 32 24; gluDeleteQuadric;
   glPopMatrix].

Definition scene_objects_calls : list gl_call :=
  [glEnable GL_LIGHTING; glEnable GL_LIGHT0;
   glLightfv GL_LIGHT0 GL_POSITION 0 5 5 1;
   glLightfv GL_LIGHT0 GL_DIFFUSE 1 1 1 1;
   glMaterialfv GL_FRONT_AND_BACK GL_SPECULAR 0.5 0.5 0.5 1;
   glMaterialf GL_FRONT_AND_BACK GL_SHININESS 12]
  ++ concat (List.map star_calls STAR_POSITIONS)
  ++ [glDisable GL_LIGHTING;
      glPushMatrix; glRotatef 90 1 0 0; glColor4f 1 0.8 0.2 0.7;
      glEnable GL_BLEND; glBlendFunc GL_SRC_ALPHA GL_ONE_MINUS_SRC_ALPHA;
      glBegin GL_TRIANGLE_STRIP]
  ++ concat (List.map (fun i =>
               let th := 2 * PI * (IZR i / IZR 128) in
               [glVertex3f (cos th * 2.5) (sin th * 2.5) 0;
                glVertex3f (cos th * 6.5) (sin th * 6.5) 0])
             (Py.range 0 129))
  ++ [glEnd; glDisable GL_BLEND; glPopMatrix].

(** What is drawn between binding the offscreen framebuffer and binding the
    default framebuffer again. *)
Definition scene_body_calls (g : globals) : list gl_call :=
  [glViewport 0 0 (WIN_W g) (WIN_H g);
   glClear [GL_COLOR_BUFFER_BIT; GL_DEPTH_BUFFER_BIT]]
  ++ perspective_calls (WIN_W g) (WIN_H g)
  ++ camera_calls g ++ grid_calls g ++ scene_objects_calls.

Definition scene_pass_calls (st : state) : list gl_call :=
  [glBindFramebuffer GL_FRAMEBUFFER (fbo st.2)]
  ++ scene_body_calls st.1
  ++ [glBindFramebuffer GL_FRAMEBUFFER 0].

Definition post_pass_calls (st : state) : list gl_call :=
  let '(g, l) := st in
  let uloc := uniform_location drv in
  let aloc := attrib_location drv in
  [glViewport 0 0 (WIN_W g) (WIN_H g);
   glClear [GL_COLOR_BUFFER_BIT; GL_DEPTH_BUFFER_BIT];
   glDisable GL_DEPTH_TEST;
   glUseProgram (post_prog l);
   glGetUniformLocation (post_prog l) "uScene";
   glGetUniformLocation (post_prog l) "uResolution";
   glGetUniformLocation (post_prog l) "uStrength";
   glGetUniformLocation (post_prog l) "uRadius";
   glGetUniformLocation (post_prog l) "uEHpx";
   glUniform1i (uloc "uScene") 0;
   glActiveTexture GL_TEXTURE0;
   glBindTexture GL_TEXTURE_2D (scene_tex l);
   glUniform2f (uloc "uResolution")
     (PostFS.uResolution (post_uniforms g)).(vx)
     (PostFS.uResolution (post_uniforms g)).(vy);
   glUniform1f (uloc "uStrength") (PostFS.uStrength (post_uniforms g));
   glUniform1f (uloc "uRadius") (PostFS.uRadius (post_uniforms g));
   glUniform1f (uloc "uEHpx") (PostFS.uEHpx (post_uniforms g));
   glBindBuffer GL_ARRAY_BUFFER (fs_vbo l);
   glBindBuffer GL_ELEMENT_ARRAY_BUFFER (fs_ebo l);
   glGetAttribLocation (post_prog l) "aPos";
   glGetAttribLocation (post_prog l) "aUV";
   glEnableVertexAttribArray (aloc "aPos");
   glEnableVertexAttribArray (aloc "aUV");
   glVertexAttribPointer (aloc "aPos") 2 GL_FLOAT GL_FALSE 16 0;
   glVertexAttribPointer (aloc "aUV") 2 GL_FLOAT GL_FALSE 16 8;
   glDrawElements GL_TRIANGLES 6 GL_UNSIGNED_INT 0;
   glDisableVertexAttribArray (aloc "aPos");
   glDisableVertexAttribArray (aloc "aUV");
   glBindBuffer GL_ARRAY_BUFFER 0;
   glBindBuffer GL_ELEMENT_ARRAY_BUFFER 0;
   glUseProgram 0;
   glEnable GL_DEPTH_TEST].

Definition present_calls : list gl_call := [pygame_display_flip; clock_tick 60].

(** Everything one iteration performs after its events are handled. *)
Definition render_calls (st : state) : list gl_call :=
  scene_pass_calls st ++ post_pass_calls st
  ++ overlay_calls (WIN_W st.1) (WIN_H st.1) (event_horizon_radius_px st.1)
  ++ present_calls.

(** ** Invariants of the main loop *)

(** The offscreen target has the size of the window: the scene texture and
    the depth-stencil renderbuffer have storage [WIN_W] x [WIN_H] and are the
    attachments of the framebuffer [fbo]. *)
Definition target_matches_window (st : state) (s : gl_state) : Prop :=
  textures s !! scene_tex st.2 = Some (Some (WIN_W st.1, WIN_H st.1)) /\
  renderbuffers s !! rbo st.2 = Some (Some (WIN_W st.1, WIN_H st.1)) /\
  framebuffers s !! fbo st.2
    = Some (FramebufferObj (Some (scene_tex st.2)) (Some (rbo st.2))).

Definition camera_in_bounds (g : globals) : Prop :=
  -85 <= cam_pitch g <= 85 /\ 3.5 <= cam_dist g <= 80.

Definition lens_in_bounds (g : globals) : Prop :=
  0.02 <= lens_strength g <= 0.75 /\ 0.15 <= lens_radius g <= 0.95.

(** ** Kinds of calls *)

Definition is_bind_framebuffer (c : gl_call) : bool :=
  match c with glBindFramebuffer _ _ => true | _ => false end.

Definition is_present (c : gl_call) : bool :=
  match c with pygame_display_flip => true | _ => false end.

(** Calls that write pixels or submit geometry. *)
Definition is_draw (c : gl_call) : bool :=
  match c with
  | glClear _ | glBegin _ | glEnd | glVertex2f _ _ | glVertex3f _ _ _
  | gluSphere _ _ _ | glDrawElements _ _ _ _ => true
  | _ => false
  end.

(** The calls of the handler of [VIDEORESIZE], for the names it deletes and
    the names it gets. *)
Definition resize_calls (w h : Z) (old_fbo old_tex old_rbo fb tex rb : N)
  : list gl_call :=
  [pygame_display_set_mode w h; glViewport 0 0 w h]
  ++ perspective_calls w h
  ++ [glDeleteFramebuffers 1 [old_fbo]; glDeleteTextures 1 [old_tex];
      glDeleteRenderbuffers 1 [old_rbo]]
  ++ [glGenTextures 1; glBindTexture GL_TEXTURE_2D tex;
      glTexImage2D GL_TEXTURE_2D 0 GL_RGBA8 w h 0 GL_RGBA GL_UNSIGNED_BYTE;
      glTexParameteri GL_TEXTURE_2D GL_TEXTURE_MIN_FILTER GL_LINEAR;
      glTexParameteri GL_TEXTURE_2D GL_TEXTURE_MAG_FILTER GL_LINEAR;
      glBindTexture GL_TEXTURE_2D 0;
      glGenRenderbuffers 1; glBindRenderbuffer GL_RENDERBUFFER rb;
      glRenderbufferStorage GL_RENDERBUFFER GL_DEPTH24_STENCIL8 w h;
      glBindRenderbuffer GL_RENDERBUFFER 0;
      glGenFramebuffers 1; glBindFramebuffer GL_FRAMEBUFFER fb;
      glFramebufferTexture2D GL_FRAMEBUFFER GL_COLOR_ATTACHMENT0
        GL_TEXTURE_2D tex 0;
      glFramebufferRenderbuffer GL_FRAMEBUFFER GL_DEPTH_STENCIL_ATTACHMENT
        GL_RENDERBUFFER rb;
      glCheckFramebufferStatus GL_FRAMEBUFFER;
      glBindFramebuffer GL_FRAMEBUFFER 0].

(** A call that may occur inside a pass: it keeps the render targets, does not
    rebind the framebuffer and does not present. *)
Definition inner_call (c : gl_call) : bool :=
  keeps_targets c && negb (is_bind_framebuffer c) && negb (is_present c).

(** A call that may occur while events are handled: neither a draw nor a
    present. *)
Definition event_call (c : gl_call) : bool :=
  negb (is_draw c) && negb (is_present c).

(** The vertex data of the fullscreen quad, [x, y, u, v] per vertex, and its
    index data, two triangles. *)
Definition quad_vertices : list R :=
  [ -1; -1; 0; 0;   1; -1; 1; 0;   1; 1; 1; 1;   -1; 1; 0; 1 ].

Definition quad_indices : list Z := [0; 1; 2; 2; 3; 0]%Z.

(** ** Frame conditions of event handling *)

(** Keyboard and mouse events. *)
Definition is_input_event (e : event) : bool :=
  match e with
  | KEYDOWN _ | MOUSEBUTTONDOWN _ _ | MOUSEBUTTONUP _ _ | MOUSEMOTION _ => true
  | _ => false
  end.

Definition is_resize (e : event) : bool :=
  match e with VIDEORESIZE _ _ => true | _ => false end.

(** Handling [e] changes at most the camera's yaw, pitch and distance, the
    lensing flag, the lens strength and the lens radius. *)
Definition mutates_only_camera_and_lens (e : event) (st : state) (s : gl_state)
  : Prop :=
  forall st' s',
    handle_event e st s = Ok (st', s') ->
    s' = s /\ st'.2 = st.2 /\
    WIN_W st'.1 = WIN_W st.1 /\ WIN_H st'.1 = WIN_H st.1 /\
    show_grid st'.1 = show_grid st.1 /\
    event_horizon_radius_px st'.1 = event_horizon_radius_px st.1.

(** What no keyboard or mouse event changes: the window size, the event
    horizon radius and the names of the OpenGL objects of [main]. *)
Definition same_window_and_objects (st st' : state) : Prop :=
  WIN_W st'.1 = WIN_W st.1 /\ WIN_H st'.1 = WIN_H st.1 /\
  event_horizon_radius_px st'.1 = event_horizon_radius_px st.1 /\
  fbo st'.2 = fbo st.2 /\ scene_tex st'.2 = scene_tex st.2 /\
  rbo st'.2 = rbo st.2 /\ fs_vbo st'.2 = fs_vbo st.2 /\
  fs_ebo st'.2 = fs_ebo st.2 /\ post_prog st'.2 = post_prog st.2.

(** ** The event phase of an iteration, in the words of the specification

    "Poll and process all pending input events": every event of the poll is
    handled, in the order polled, each from the state the one before it left;
    the phase ends with the last event, or with the first event whose handler
    raises.  This relation is written from that sentence and uses the
    handler of one event only; it is compared with the loop
    [process_events] of the program. *)
Inductive all_events_handled
  : list event -> state -> gl_state -> result (state * gl_state) -> Prop :=
| handled_none st s : all_events_handled [] st s (Ok (st, s))
| handled_next e evs st s st' s' r :
    handle_event e st s = Ok (st', s') ->
    all_events_handled evs st' s' r ->
    all_events_handled (e :: evs) st s r
| handled_raise e evs st s x :
    handle_event e st s = Raise x ->
    all_events_handled (e :: evs) st s (Raise x).

(** "Updating camera and toggle state": what the handler of [e] has assigned
    when it leads from [st] to [st'], variable by variable. *)
Definition event_updates (e : event) (st st' : state) : Prop :=
  match e with
  | QUIT | KEYDOWN K_ESCAPE | KEYDOWN K_q => running st'.2 = false
  | KEYDOWN K_r =>
      cam_dist st'.1 = 18 /\ cam_yaw st'.1 = 35 /\ cam_pitch st'.1 = -15
  | KEYDOWN K_g => show_grid st'.1 = negb (show_grid st.1)
  | KEYDOWN K_l => enable_lensing st'.1 = negb (enable_lensing st.1)
  | KEYDOWN K_PLUS | KEYDOWN K_EQUALS =>
      lens_strength st'.1 = Rmin 0.75 (lens_strength st.1 + 0.02)
  | KEYDOWN K_MINUS =>
      lens_strength st'.1 = Rmax 0.02 (lens_strength st.1 - 0.02)
  | KEYDOWN K_LEFTBRACKET =>
      lens_radius st'.1 = Rmax 0.15 (lens_radius st.1 - 0.02)
  | KEYDOWN K_RIGHTBRACKET =>
      lens_radius st'.1 = Rmin 0.95 (lens_radius st.1 + 0.02)
  | KEYDOWN K_OTHER | OTHER_EVENT => st' = st
  | MOUSEBUTTONDOWN button pos =>
      (button = 1%Z ->
       dragging st'.2 = true /\ last_mx st'.2 = pos.1 /\
       last_my st'.2 = pos.2) /\
      (button = 4%Z -> cam_dist st'.1 = Rmax 3.5 (cam_dist st.1 - 1)) /\
      (button = 5%Z -> cam_dist st'.1 = Rmin 80 (cam_dist st.1 + 1)) /\
      (button <> 1%Z -> button <> 4%Z -> button <> 5%Z -> st' = st)
  | MOUSEBUTTONUP button _ =>
      (button = 1%Z -> dragging st'.2 = false) /\
      (button <> 1%Z -> st' = st)
  | MOUSEMOTION pos =>
      if dragging st.2 then
        last_mx st'.2 = pos.1 /\ last_my st'.2 = pos.2 /\
        0 <= cam_yaw st'.1 < 360 /\
        (exists k : Z,
           cam_yaw st'.1
           = cam_yaw st.1 + IZR (pos.1 - last_mx st.2) * 0.3 - 360 * IZR k) /\
        cam_pitch st'.1
        = Rmax (-85) (Rmin 85 (cam_pitch st.1 + IZR (pos.2 - last_my st.2) * 0.3))
      else st' = st
  | VIDEORESIZE w h => WIN_W st'.1 = w /\ WIN_H st'.1 = h
  end.

(** The iteration as the specification describes it, without exception: all
    events of the poll are handled, and then the scene pass, the postprocess
    pass, the overlay and the flip are performed, in this order. *)
Definition iteration_performs_all_phases (evs : list event) (st : state)
    (s : gl_state) : Prop :=
  exists st1 s1 s',
    all_events_handled evs st s (Ok (st1, s1)) /\
    frame evs st s = Ok (st1, s') /\
    calls s' = calls s1 ++ scene_pass_calls st1 ++ post_pass_calls st1
               ++ overlay_calls (WIN_W st1.1) (WIN_H st1.1)
                    (event_horizon_radius_px st1.1)
               ++ present_calls.

(** ** Vocabulary of the further properties *)

(** The events that end the loop: closing the window, ESC and Q. *)
Definition is_quit (e : event) : bool :=
  match e with
  | QUIT | KEYDOWN K_ESCAPE | KEYDOWN K_q => true
  | _ => false
  end.

(** How often a log presents a frame. *)
Definition presents (l : list gl_call) : nat :=
  length (List.filter is_present l).

(** The context holds the objects of [main] and nothing else: one scene
    texture and one depth-stencil renderbuffer of the window size, one
    framebuffer with these two attached, the two buffers of the quad and one
    linked program. *)
Definition context_holds_only (st : state) (s : gl_state) : Prop :=
  textures s = {[ scene_tex st.2 := Some (WIN_W st.1, WIN_H st.1) ]} /\
  renderbuffers s = {[ rbo st.2 := Some (WIN_W st.1, WIN_H st.1) ]} /\
  framebuffers s
    = {[ fbo st.2 := FramebufferObj (Some (scene_tex st.2)) (Some (rbo st.2)) ]} /\
  buffers s = <[ fs_ebo st.2 := Some (c_uint_array quad_indices) ]>
                {[ fs_vbo st.2 := Some (c_float_array quad_vertices) ]} /\
  fs_vbo st.2 <> fs_ebo st.2 /\
  exists vs fs, programs s = {[ post_prog st.2 := ProgramObj [vs; fs] true ]}.

(** The binding point a call changes, as a function on the name bound. *)
Definition rebind_framebuffer (c : gl_call) (bound : N) : N :=
  match c with
  | glBindFramebuffer _ fb => fb
  | glDeleteFramebuffers _ names => unbind_deleted names bound
  | _ => bound
  end.

Definition rebind_texture (c : gl_call) (bound : N) : N :=
  match c with
  | glBindTexture _ tex => tex
  | glDeleteTextures _ names => unbind_deleted names bound
  | _ => bound
  end.

Definition rebind_renderbuffer (c : gl_call) (bound : N) : N :=
  match c with
  | glBindRenderbuffer _ rb => rb
  | glDeleteRenderbuffers _ names => unbind_deleted names bound
  | _ => bound
  end.

Definition rebind_array_buffer (c : gl_call) (bound : N) : N :=
  match c with
  | glBindBuffer target buf =>
      if decide (target = GL_ELEMENT_ARRAY_BUFFER) then bound else buf
  | glDeleteBuffers _ names => unbind_deleted names bound
  | _ => bound
  end.

Definition rebind_element_array_buffer (c : gl_call) (bound : N) : N :=
  match c with
  | glBindBuffer target buf =>
      if decide (target = GL_ELEMENT_ARRAY_BUFFER) then buf else bound
  | glDeleteBuffers _ names => unbind_deleted names bound
  | _ => bound
  end.

Definition rebind_program (c : gl_call) (current : N) : N :=
  match c with glUseProgram pid => pid | _ => current end.

(** The name bound after a list of calls. *)
Definition bound_after (rebind : gl_call -> N -> N) (l : list gl_call)
    (bound : N) : N :=
  fold_left (fun b c => rebind c b) l bound.

(** Calls that change no binding point. *)
Definition keeps_bindings (c : gl_call) : bool :=
  match c with
  | glBindFramebuffer _ _ | glDeleteFramebuffers _ _
  | glBindTexture _ _ | glDeleteTextures _ _
  | glBindRenderbuffer _ _ | glDeleteRenderbuffers _ _
  | glBindBuffer _ _ | glDeleteBuffers _ _ | glUseProgram _ => false
  | _ => true
  end.

(** The calls of the cleanup at the end of [main], before [sys.exit(0)]. *)
Definition cleanup_calls (st : state) : list gl_call :=
  [glDeleteFramebuffers 1 [fbo st.2]; glDeleteTextures 1 [scene_tex st.2];
   glDeleteRenderbuffers 1 [rbo st.2]; glDeleteBuffers 1 [fs_vbo st.2];
   glDeleteBuffers 1 [fs_ebo st.2]; pygame_quit].

(** The indexed draw of the fullscreen quad. *)
Definition is_quad_draw (c : gl_call) : bool :=
  match c with glDrawElements _ _ _ _ => true | _ => false end.

(** The calls of an iteration's render part that come before the draw of the
    quad: the scene pass and the set-up of the postprocess pass. *)
Definition calls_before_quad_draw (st : state) : list gl_call :=
  scene_pass_calls st ++ firstn 24 (post_pass_calls st).

Definition calls_after_quad_draw (st : state) : list gl_call :=
  skipn 25 (post_pass_calls st)
  ++ overlay_calls (WIN_W st.1) (WIN_H st.1) (event_horizon_radius_px st.1)
  ++ present_calls.

(** A vertex call stays within distance [r] of [(cx, cy)]; any other call
    does trivially. *)
Definition vertex_within (cx cy r : R) (c : gl_call) : Prop :=
  match c with
  | glVertex2f x y => (x - cx) * (x - cx) + (y - cy) * (y - cy) <= r * r
  | _ => True
  end.

(** A vertex call lies on the circle of radius [r] around [(cx, cy)]. *)
Definition vertex_on_circle (cx cy r : R) (c : gl_call) : Prop :=
  match c with
  | glVertex2f x y => (x - cx) * (x - cx) + (y - cy) * (y - cy) = r * r
  | _ => False
  end.

Definition is_motion (e : event) : bool :=
  match e with MOUSEMOTION _ => true | _ => false end.

(** The exceptions the setup of [main] can raise, and those an iteration
    can. *)
Definition setup_error (e : exn) : Prop :=
  e = RuntimeError "FBO incomplete" \/
  (exists log, e = compile_error log) \/ (exists log, e = link_error log).

Definition resize_error (e : exn) : Prop :=
  e = ZeroDivisionError \/ e = RuntimeError "FBO incomplete".

(** Running a checker over a call list: [step] gives the checker's next
    state, or [None] when the call is not allowed in the current one. *)
Fixpoint run_calls {S : Type} (step : gl_call -> S -> option S)
    (l : list gl_call) (x : S) : option S :=
  match l with
  | [] => Some x
  | c :: l' =>
      match step c x with
      | Some x' => run_calls step l' x'
      | None => None
      end
  end.

(** The matrix stacks: the current matrix mode and the number of matrices
    pushed on the projection stack and on the modelview stack.  A pop of a
    stack nothing was pushed on is not allowed. *)
Definition matrix_step (c : gl_call) (m : GLenum * nat * nat)
  : option (GLenum * nat * nat) :=
  let '(mode, p, v) := m in
  match c with
  | glMatrixMode mode' => Some (mode', p, v)
  | glPushMatrix =>
      match mode with
      | GL_PROJECTION => Some (mode, S p, v)
      | _ => Some (mode, p, S v)
      end
  | glPopMatrix =>
      match mode with
      | GL_PROJECTION =>
          match p with S p' => Some (mode, p', v) | O => None end
      | _ => match v with S v' => Some (mode, p, v') | O => None end
      end
  | _ => Some m
  end.

(** Immediate mode: whether a primitive is open.  [glBegin] opens one when
    none is open, [glEnd] closes the open one, vertices are allowed only in
    an open primitive and every other call only outside. *)
Definition immediate_step (c : gl_call) (inside : bool) : option bool :=
  match c with
  | glBegin _ => if inside then None else Some true
  | glEnd => if inside then Some false else None
  | glVertex2f _ _ | glVertex3f _ _ _ => if inside then Some true else None
  | _ => if inside then None else Some false
  end.
(** * Properties *)

(** ** Numeric built-ins *)

Lemma py_min_Rmin a b : Py.min a b = Rmin a b.
Proof.
  unfold Py.min, Rmin.
  destruct (Rlt_dec b a), (Rle_dec a b); lra.
Qed.

Lemma py_max_Rmax a b : Py.max a b = Rmax a b.
Proof.
  unfold Py.max, Rmax.
  destruct (Rgt_dec b a), (Rle_dec a b); lra.
Qed.

Lemma glsl_min_Rmin x y : Glsl.min x y = Rmin x y.
Proof.
  unfold Glsl.min, Rmin.
  destruct (Rlt_dec y x), (Rle_dec x y); lra.
Qed.

Lemma glsl_max_Rmax x y : Glsl.max x y = Rmax x y.
Proof.
  unfold Glsl.max, Rmax.
  destruct (Rlt_dec x y), (Rle_dec x y); lra.
Qed.

(** A clamp between ordered bounds lands between them. *)
Lemma glsl_clamp_bounds x lo hi : lo <= hi -> lo <= Glsl.clamp x lo hi <= hi.
Proof.
  intros Hle. unfold Glsl.clamp, Glsl.min, Glsl.max.
  destruct (Rlt_dec x lo); destruct (Rlt_dec hi _); lra.
Qed.

Lemma py_clamp_bounds x lo hi :
  lo <= hi -> lo <= Py.max lo (Py.min hi x) <= hi.
Proof.
  intros Hle. unfold Py.max, Py.min.
  destruct (Rlt_dec x hi); destruct (Rgt_dec _ lo); lra.
Qed.

(** On a non-negative base [pow(x, 2.0)] is the square. *)
Lemma glsl_pow_2 x : 0 <= x -> Glsl.pow x 2 = x * x.
Proof.
  intros Hx. unfold Glsl.pow.
  destruct (Req_dec_T x 0) as [-> | Hne]; [lra |].
  replace 2 with (INR 2) by (simpl; lra).
  rewrite Rpower_pow by lra. simpl. lra.
Qed.

(** Python's [%] on floats with a positive divisor lands in [[0, y)]. *)
Lemma fmod_range x y : 0 < y -> 0 <= Py.fmod x y < y.
Proof.
  intros Hy. unfold Py.fmod.
  destruct (base_Int_part (x / y)) as [Hlo Hhi].
  assert (Hx : x = x / y * y) by (field; lra).
  split.
  - assert (y * IZR (Int_part (x / y)) <= x / y * y) by nra. lra.
  - assert (x / y * y < y * IZR (Int_part (x / y)) + y) by nra. lra.
Qed.

(** ** The fragment shader *)

Lemma d_center_distance u fc : PostFS.d u fc = center_distance u fc.
Proof.
  unfold PostFS.d, center_distance, Glsl.length, PostFS.p, PostFS.res.
  simpl. f_equal. lra.
Qed.

Lemma dnorm_normalized_distance u fc :
  PostFS.dnorm u fc = normalized_distance u fc.
Proof.
  unfold PostFS.dnorm, normalized_distance, PostFS.minHalf, PostFS.res.
  rewrite d_center_distance, glsl_min_Rmin. unfold Rdiv. f_equal. f_equal. lra.
Qed.

Lemma center_distance_nonneg u fc : 0 <= center_distance u fc.
Proof. apply sqrt_pos. Qed.

Lemma disp_zero_of_warp_zero u fc :
  PostFS.warp u fc = 0 -> PostFS.disp u fc = Vec2 0 0.
Proof.
  intros Hw. unfold PostFS.disp, Glsl.vmul, Glsl.vscale. rewrite Hw.
  simpl. f_equal; lra.
Qed.

Lemma uv2_of_disp_zero u fc vUV :
  PostFS.disp u fc = Vec2 0 0 -> PostFS.uv2 u fc vUV = vUV.
Proof.
  intros Hd. unfold PostFS.uv2, PostFS.uv, Glsl.vadd. rewrite Hd.
  destruct vUV as [x y]. simpl. f_equal; lra.
Qed.

Lemma main_outside u scene fc vUV :
  PostFS.d u fc > PostFS.uEHpx u ->
  PostFS.main u scene fc vUV =
    PostFS.FragOut
      (Glsl.scale_rgb (scene (PostFS.uv2 u fc vUV))
                      (Glsl.clamp (PostFS.vig u fc) 0.8 1))
      [PostFS.uv2 u fc vUV].
Proof.
  intros Hd. unfold PostFS.main.
  destruct (Rle_dec _ _); [lra | reflexivity].
Qed.

Lemma main_inside u scene fc vUV :
  PostFS.d u fc <= PostFS.uEHpx u ->
  PostFS.main u scene fc vUV = PostFS.FragOut (Vec4 0 0 0 1) [].
Proof.
  intros Hd. unfold PostFS.main.
  destruct (Rle_dec _ _); [reflexivity | lra].
Qed.

Lemma normalized_distance_nonneg u fc :
  0 < Rmin (vx (PostFS.uResolution u)) (vy (PostFS.uResolution u)) ->
  0 <= normalized_distance u fc.
Proof.
  intros Hmin. unfold normalized_distance.
  apply Rmult_le_pos; [apply center_distance_nonneg |].
  apply Rlt_le, Rinv_0_lt_compat. lra.
Qed.

(** The vignette factor in a window of positive size. *)
Lemma vignette_clamp_value u fc :
  0 < Rmin (vx (PostFS.uResolution u)) (vy (PostFS.uResolution u)) ->
  Glsl.clamp (1 - Glsl.pow (normalized_distance u fc) 2 * 0.25) 0.8 1
  = Rmax 0.8 (1 - normalized_distance u fc * normalized_distance u fc / 4).
Proof.
  intros Hmin.
  pose proof (normalized_distance_nonneg u fc Hmin) as Hdn.
  set (dn := normalized_distance u fc) in *.
  rewrite glsl_pow_2 by exact Hdn.
  unfold Glsl.clamp. rewrite glsl_min_Rmin, glsl_max_Rmax.
  assert (0 <= dn * dn) by nra.
  unfold Rmin, Rmax.
  repeat destruct (Rle_dec _ _); lra.
Qed.

(** C1. Inside the lens radius the warp magnitude is
    [strength * (1 - dnorm / r) / (dnorm + 0.02)], with [dnorm] the distance
    from the screen centre over half the smaller screen dimension; from the
    radius on it is [0], the displacement is the zero vector and a fragment
    outside the event horizon samples the scene at its own coordinate. *)
Theorem warp_inside_radius_else_zero (u : PostFS.uniforms) (fc : vec2) :
  let dn := normalized_distance u fc in
  let r := PostFS.uRadius u in
  (dn < r ->
   PostFS.warp u fc = PostFS.uStrength u * (1 - dn / r) / (dn + 0.02)) /\
  (dn >= r ->
   PostFS.warp u fc = 0 /\
   PostFS.disp u fc = Vec2 0 0 /\
   forall scene vUV,
     center_distance u fc > PostFS.uEHpx u ->
     PostFS.fetches (PostFS.main u scene fc vUV) = [vUV]).
Proof.
  intros dn r. subst dn r. rewrite <- dnorm_normalized_distance.
  split; intros Hdn.
  - unfold PostFS.warp, PostFS.r.
    destruct (Rlt_dec _ _); [| lra]. unfold Rdiv. lra.
  - assert (Hw : PostFS.warp u fc = 0).
    { unfold PostFS.warp, PostFS.r. destruct (Rlt_dec _ _); [lra | reflexivity]. }
    split; [exact Hw |]. split; [now apply disp_zero_of_warp_zero |].
    intros scene vUV Hd. rewrite <- d_center_distance in Hd.
    rewrite main_outside by exact Hd. simpl.
    now rewrite uv2_of_disp_zero by now apply disp_zero_of_warp_zero.
Qed.

(** C2. At pixel distance at most [uEHpx] from the centre the shader writes
    [(0,0,0,1)] and fetches no texel; strength, radius and scene have no
    influence on the result. *)
Theorem event_horizon_is_black (u : PostFS.uniforms) (fc vUV : vec2)
    (scene : vec2 -> vec4) :
  center_distance u fc <= PostFS.uEHpx u ->
  PostFS.main u scene fc vUV = PostFS.FragOut (Vec4 0 0 0 1) [] /\
  forall strength' radius' scene',
    PostFS.main (PostFS.Uniforms (PostFS.uResolution u) strength' radius'
                                 (PostFS.uEHpx u)) scene' fc vUV
    = PostFS.main u scene fc vUV.
Proof.
  intros Hd. rewrite <- d_center_distance in Hd.
  split; [now apply main_inside |].
  intros strength' radius' scene'.
  rewrite (main_inside u) by exact Hd.
  apply main_inside. rewrite d_center_distance in *. exact Hd.
Qed.

Lemma warp_zero_strength u fc : PostFS.uStrength u = 0 -> PostFS.warp u fc = 0.
Proof.
  intros Hs. unfold PostFS.warp. rewrite Hs.
  destruct (Rlt_dec _ _); lra.
Qed.

(** ** The call log and straight-line blocks *)

Lemma calls_gl_effect c s : calls (gl_effect c s) = calls s.
Proof.
  destruct c; simpl; try reflexivity;
    repeat match goal with
           | |- context [if ?b then _ else _] => destruct b
           end; reflexivity.
Qed.

Lemma calls_gl_do c s : calls (gl_do c s) = calls s ++ [c].
Proof. unfold gl_do. simpl. now rewrite calls_gl_effect. Qed.

Lemma gl_do_all_app l1 l2 s :
  gl_do_all (l1 ++ l2) s = gl_do_all l2 (gl_do_all l1 s).
Proof. apply fold_left_app. Qed.

Lemma calls_gl_do_all l s : calls (gl_do_all l s) = calls s ++ l.
Proof.
  revert s. induction l as [| c l IH]; intros s; simpl.
  - now rewrite app_nil_r.
  - rewrite IH, calls_gl_do, <- app_assoc. reflexivity.
Qed.

Lemma emits_ret : emits (ret tt) [].
Proof. intros s. reflexivity. Qed.

Lemma emits_cmd c : emits (cmd c) [c].
Proof. intros s. reflexivity. Qed.

Lemma emits_cmds l : emits (cmds l) l.
Proof. intros s. reflexivity. Qed.

Lemma emits_bind (m : M unit) (k : unit -> M unit) l1 l2 :
  emits m l1 -> emits (k tt) l2 -> emits (bind m k) (l1 ++ l2).
Proof.
  intros Hm Hk s. unfold bind. rewrite Hm, Hk, gl_do_all_app. reflexivity.
Qed.

Lemma emits_for {A} (xs : list A) (body : A -> M unit) (F : A -> list gl_call) :
  (forall x, emits (body x) (F x)) ->
  emits (for_ xs body) (concat (List.map F xs)).
Proof.
  intros Hbody. induction xs as [| x xs IH]; simpl.
  - apply emits_ret.
  - apply emits_bind; [apply Hbody | exact IH].
Qed.

Lemma emits_uniform_location pid name (k : Z -> M unit) l :
  emits (k (uniform_location drv name)) l ->
  emits (bind (do_glGetUniformLocation pid name) k)
        (glGetUniformLocation pid name :: l).
Proof. intros Hk s. unfold bind. simpl. now rewrite Hk. Qed.

Lemma emits_attrib_location pid name (k : Z -> M unit) l :
  emits (k (attrib_location drv name)) l ->
  emits (bind (do_glGetAttribLocation pid name) k)
        (glGetAttribLocation pid name :: l).
Proof. intros Hk s. unfold bind. simpl. now rewrite Hk. Qed.

Lemma emits_truediv x y (k : R -> M unit) l :
  y <> 0 -> emits (k (x / y)) l -> emits (bind (truediv x y) k) l.
Proof.
  intros Hy Hk s. unfold bind, truediv.
  destruct (Req_dec_T y 0); [contradiction |]. simpl. apply Hk.
Qed.

(** ** Stepping through a computation *)

Lemma bind_ret {A B} (a : A) (k : A -> M B) s : bind (ret a) k s = k a s.
Proof. reflexivity. Qed.

Lemma bind_ok {A B} (m : M A) (k : A -> M B) s a s' :
  m s = Ok (a, s') -> bind m k s = k a s'.
Proof. intros H. unfold bind. now rewrite H. Qed.

Lemma bind_raise {A B} (m : M A) (k : A -> M B) s e :
  m s = Raise e -> bind m k s = Raise e.
Proof. intros H. unfold bind. now rewrite H. Qed.

Lemma bind_ret_eq {A} (a : A) s : ret a s = Ok (a, s).
Proof. reflexivity. Qed.

Lemma bind_cmd {B} c (k : unit -> M B) s : bind (cmd c) k s = k tt (gl_do c s).
Proof. reflexivity. Qed.

Lemma bind_cmds {B} l (k : unit -> M B) s :
  bind (cmds l) k s = k tt (gl_do_all l s).
Proof. reflexivity. Qed.

Lemma bind_assoc {A B C} (m : M A) (k : A -> M B) (k' : B -> M C) s :
  bind (bind m k) k' s = bind m (fun a => bind (k a) k') s.
Proof. unfold bind. destruct (m s) as [[a s'] | e]; reflexivity. Qed.

Lemma bind_emits {B} (m : M unit) l (k : unit -> M B) s :
  emits m l -> bind m k s = k tt (gl_do_all l s).
Proof. intros Hm. unfold bind. now rewrite Hm. Qed.

Lemma bind_glCreateShader {B} ty (k : N -> M B) s :
  bind (do_glCreateShader ty) k s
  = k (fresh_name (dom (shaders s))) (gl_do (glCreateShader ty) s).
Proof. reflexivity. Qed.

Lemma bind_glCreateProgram {B} (k : N -> M B) s :
  bind do_glCreateProgram k s
  = k (fresh_name (dom (programs s))) (gl_do glCreateProgram s).
Proof. reflexivity. Qed.

Lemma bind_glGetProgramiv {B} pid pname (k : bool -> M B) s :
  bind (do_glGetProgramiv pid pname) k s
  = k (from_option pr_linked false (programs s !! pid))
      (gl_do (glGetProgramiv pid pname) s).
Proof. reflexivity. Qed.

Lemma bind_glGetProgramInfoLog {B} pid (k : string -> M B) s :
  bind (do_glGetProgramInfoLog pid) k s
  = k (program_info_log drv (attached_shaders s pid))
      (gl_do (glGetProgramInfoLog pid) s).
Proof. reflexivity. Qed.

Lemma bind_glGenBuffers {B} n (k : N -> M B) s :
  bind (do_glGenBuffers n) k s
  = k (fresh_name (dom (buffers s))) (gl_do (glGenBuffers n) s).
Proof. reflexivity. Qed.

(** ** The table a call touches *)

Ltac case_ifs :=
  repeat match goal with
         | |- context [if ?b then _ else _] => destruct b
         end.

Lemma shaders_gl_do c s :
  touches c <> Some Shaders -> shaders (gl_do c s) = shaders s.
Proof. destruct c; simpl; intros H; try congruence; case_ifs; reflexivity. Qed.

Lemma programs_gl_do c s :
  touches c <> Some Programs -> programs (gl_do c s) = programs s.
Proof. destruct c; simpl; intros H; try congruence; case_ifs; reflexivity. Qed.

Lemma textures_gl_do c s :
  touches c <> Some Textures -> textures (gl_do c s) = textures s.
Proof. destruct c; simpl; intros H; try congruence; case_ifs; reflexivity. Qed.

Lemma renderbuffers_gl_do c s :
  touches c <> Some Renderbuffers ->
  renderbuffers (gl_do c s) = renderbuffers s.
Proof. destruct c; simpl; intros H; try congruence; case_ifs; reflexivity. Qed.

Lemma framebuffers_gl_do c s :
  touches c <> Some Framebuffers -> framebuffers (gl_do c s) = framebuffers s.
Proof. destruct c; simpl; intros H; try congruence; case_ifs; reflexivity. Qed.

Lemma buffers_gl_do c s :
  touches c <> Some Buffers -> buffers (gl_do c s) = buffers s.
Proof. destruct c; simpl; intros H; try congruence; case_ifs; reflexivity. Qed.

(** ** Calls that keep the render targets *)

Lemma keeps_targets_gl_do c s :
  keeps_targets c = true ->
  textures (gl_do c s) = textures s /\
  renderbuffers (gl_do c s) = renderbuffers s /\
  framebuffers (gl_do c s) = framebuffers s.
Proof.
  unfold keeps_targets. intros H.
  rewrite textures_gl_do, renderbuffers_gl_do, framebuffers_gl_do;
    [auto | | |]; intros E; rewrite E in H; discriminate.
Qed.

Lemma keeps_targets_gl_do_all l s :
  Forall (fun c => keeps_targets c = true) l ->
  textures (gl_do_all l s) = textures s /\
  renderbuffers (gl_do_all l s) = renderbuffers s /\
  framebuffers (gl_do_all l s) = framebuffers s.
Proof.
  intros Hl. revert s. induction Hl as [| c l Hc _ IH]; intros s; simpl.
  - auto.
  - destruct (IH (gl_do c s)) as (-> & -> & ->).
    now apply keeps_targets_gl_do.
Qed.

(** ** Fresh names *)

Lemma fresh_name_nonzero used : fresh_name used <> 0%N.
Proof.
  unfold fresh_name. intros H.
  apply (is_fresh ({[0%N]} ∪ used)). rewrite H. set_solver.
Qed.

Lemma fresh_name_unused used : fresh_name used ∉ used.
Proof.
  unfold fresh_name. intros H.
  apply (is_fresh ({[0%N]} ∪ used)). set_solver.
Qed.

Lemma fresh_name_lookup {V} (m : gmap N V) : m !! fresh_name (dom m) = None.
Proof. apply not_elem_of_dom, fresh_name_unused. Qed.

(** ** Loops of single calls *)

Lemma emits_eq (m : M unit) l l' : emits m l -> l = l' -> emits m l'.
Proof. now intros H <-. Qed.

Lemma concat_map_singleton {A B} (f : A -> B) (xs : list A) :
  concat (List.map (fun x => [f x]) xs) = List.map f xs.
Proof. induction xs as [| x xs IH]; simpl; [reflexivity | now rewrite IH]. Qed.

Lemma emits_for_cmd {A} (xs : list A) (f : A -> gl_call) :
  emits (for_ xs (fun x => cmd (f x))) (List.map f xs).
Proof.
  eapply emits_eq.
  - apply (emits_for xs _ (fun x => [f x])). intros x. apply emits_cmd.
  - apply concat_map_singleton.
Qed.

Lemma emits_for_cmds {A} (xs : list A) (F : A -> list gl_call) :
  emits (for_ xs (fun x => cmds (F x))) (concat (List.map F xs)).
Proof. apply emits_for. intros x. apply emits_cmds. Qed.

(** ** The offscreen target *)

(** [create_fbo_tex] either raises "FBO incomplete" or returns the names of a
    framebuffer whose colour attachment is a [w] x [h] texture and whose
    depth-stencil attachment is a [w] x [h] renderbuffer. *)
Lemma create_fbo_tex_spec w h s :
  let tex := fresh_name (dom (textures s)) in
  let rb := fresh_name (dom (renderbuffers s)) in
  let fb := fresh_name (dom (framebuffers s)) in
  (framebuffer_complete drv (Some (w, h)) (Some (w, h)) = false /\
   create_fbo_tex w h s = Raise (RuntimeError "FBO incomplete")) \/
  framebuffer_complete drv (Some (w, h)) (Some (w, h)) = true /\
  exists s',
    create_fbo_tex w h s = Ok ((fb, tex, rb), s') /\
    textures s' = <[tex := Some (w, h)]> (textures s) /\
    renderbuffers s' = <[rb := Some (w, h)]> (renderbuffers s) /\
    framebuffers s' =
      <[fb := FramebufferObj (Some tex) (Some rb)]> (framebuffers s) /\
    shaders s' = shaders s /\ programs s' = programs s /\
    buffers s' = buffers s /\
    calls s' = calls s ++
      [glGenTextures 1; glBindTexture GL_TEXTURE_2D tex;
       glTexImage2D GL_TEXTURE_2D 0 GL_RGBA8 w h 0 GL_RGBA GL_UNSIGNED_BYTE;
       glTexParameteri GL_TEXTURE_2D GL_TEXTURE_MIN_FILTER GL_LINEAR;
       glTexParameteri GL_TEXTURE_2D GL_TEXTURE_MAG_FILTER GL_LINEAR;
       glBindTexture GL_TEXTURE_2D 0;
       glGenRenderbuffers 1; glBindRenderbuffer GL_RENDERBUFFER rb;
       glRenderbufferStorage GL_RENDERBUFFER GL_DEPTH24_STENCIL8 w h;
       glBindRenderbuffer GL_RENDERBUFFER 0;
       glGenFramebuffers 1; glBindFramebuffer GL_FRAMEBUFFER fb;
       glFramebufferTexture2D GL_FRAMEBUFFER GL_COLOR_ATTACHMENT0
         GL_TEXTURE_2D tex 0;
       glFramebufferRenderbuffer GL_FRAMEBUFFER GL_DEPTH_STENCIL_ATTACHMENT
         GL_RENDERBUFFER rb;
       glCheckFramebufferStatus GL_FRAMEBUFFER;
       glBindFramebuffer GL_FRAMEBUFFER 0].
Proof.
  intros tex rb fb.
  assert (Htex : attachment tex = Some tex).
  { unfold attachment. destruct (decide _) as [E | _]; [| reflexivity].
    now apply fresh_name_nonzero in E. }
  assert (Hrb : attachment rb = Some rb).
  { unfold attachment. destruct (decide _) as [E | _]; [| reflexivity].
    now apply fresh_name_nonzero in E. }
  unfold create_fbo_tex, bind, cmd, do_glGenTextures, do_glGenRenderbuffers,
    do_glGenFramebuffers, do_glCheckFramebufferStatus, gl_do.
  cbn. fold tex rb fb.
  rewrite !lookup_alter_eq, lookup_insert_eq. cbn.
  unfold color_storage, depth_stencil_storage. cbn.
  rewrite Htex, Hrb. cbn.
  rewrite !lookup_alter_eq, !lookup_insert_eq. cbn.
  destruct (framebuffer_complete drv (Some (w, h)) (Some (w, h))); cbn.
  - right. split; [reflexivity |]. eexists. split; [reflexivity |]. cbn.
    rewrite !alter_insert_eq. cbn.
    repeat split; try reflexivity.
    now rewrite <- !app_assoc.
  - left. split; reflexivity.
Qed.

(** ** Shaders and programs *)

Lemma compile_shader_fails src ty s :
  compile_status drv ty src = false ->
  compile_shader src ty s = Raise (compile_error (shader_info_log drv ty src)).
Proof.
  intros Hc.
  unfold compile_shader, bind, cmd, do_glCreateShader, do_glGetShaderiv,
    do_glGetShaderInfoLog, gl_do.
  cbn. rewrite !lookup_alter_eq, lookup_insert_eq. cbn.
  rewrite Hc. cbn.
  rewrite !lookup_alter_eq, lookup_insert_eq. cbn. reflexivity.
Qed.

Lemma compile_shader_succeeds src ty s :
  compile_status drv ty src = true ->
  let sid := fresh_name (dom (shaders s)) in
  exists s',
    compile_shader src ty s = Ok (sid, s') /\
    shaders s' = <[sid := ShaderObj ty src true false]> (shaders s) /\
    programs s' = programs s /\
    textures s' = textures s /\
    renderbuffers s' = renderbuffers s /\
    framebuffers s' = framebuffers s /\
    buffers s' = buffers s /\
    calls s' = calls s ++
      [glCreateShader ty; glShaderSource sid src; glCompileShader sid;
       glGetShaderiv sid GL_COMPILE_STATUS].
Proof.
  intros Hc sid.
  unfold compile_shader, bind, cmd, do_glCreateShader, do_glGetShaderiv,
    do_glGetShaderInfoLog, gl_do.
  cbn. fold sid. rewrite !lookup_alter_eq, lookup_insert_eq. cbn.
  rewrite Hc. cbn.
  eexists. split; [reflexivity |]. cbn.
  rewrite !alter_insert_eq. cbn. rewrite Hc.
  repeat split; try reflexivity.
  now rewrite <- !app_assoc.
Qed.

Lemma shader_attached_intro s pid pr sid :
  programs s !! pid = Some pr -> sid ∈ pr_attached pr ->
  shader_attached s sid = true.
Proof.
  intros Hp Hin. unfold shader_attached. apply existsb_exists.
  exists (pid, pr). split.
  - apply list_elem_of_In, elem_of_map_to_list. exact Hp.
  - simpl. now apply bool_decide_eq_true.
Qed.

Lemma gl_do_glDeleteShader_attached s pid pr sid :
  programs s !! pid = Some pr -> sid ∈ pr_attached pr ->
  gl_do (glDeleteShader sid) s =
    set_calls (fun l => l ++ [glDeleteShader sid])
      (set_shaders (alter (fun sh =>
         ShaderObj (sh_type sh) (sh_source sh) (sh_compiled sh) true) sid) s).
Proof.
  intros Hp Hin. unfold gl_do. simpl.
  now rewrite (shader_attached_intro s pid pr sid Hp Hin).
Qed.

Lemma glDeleteShader_attached_tables s pid pr sid :
  programs s !! pid = Some pr -> sid ∈ pr_attached pr ->
  let s' := gl_do (glDeleteShader sid) s in
  shaders s' = alter (fun sh =>
                 ShaderObj (sh_type sh) (sh_source sh) (sh_compiled sh) true)
                 sid (shaders s) /\
  programs s' = programs s /\ textures s' = textures s /\
  renderbuffers s' = renderbuffers s /\ framebuffers s' = framebuffers s /\
  buffers s' = buffers s.
Proof.
  intros Hp Hin s'. unfold s'.
  rewrite (gl_do_glDeleteShader_attached s pid pr sid Hp Hin).
  repeat split; reflexivity.
Qed.

(** Projections of the context through calls that do not touch the table. *)
Ltac untouched :=
  repeat first
    [ rewrite shaders_gl_do by discriminate
    | rewrite programs_gl_do by discriminate
    | rewrite textures_gl_do by discriminate
    | rewrite renderbuffers_gl_do by discriminate
    | rewrite framebuffers_gl_do by discriminate
    | rewrite buffers_gl_do by discriminate ].

Lemma programs_glCreateProgram s :
  programs (gl_do glCreateProgram s)
  = <[fresh_name (dom (programs s)) := ProgramObj [] false]> (programs s).
Proof. reflexivity. Qed.

Lemma programs_glAttachShader pid sid s :
  programs (gl_do (glAttachShader pid sid) s)
  = alter (fun pr => ProgramObj (pr_attached pr ++ [sid]) (pr_linked pr)) pid
          (programs s).
Proof. reflexivity. Qed.

Lemma programs_glLinkProgram pid s :
  programs (gl_do (glLinkProgram pid) s)
  = alter (fun pr => ProgramObj (pr_attached pr)
                       (link_status drv (attached_shaders s pid))) pid
          (programs s).
Proof. reflexivity. Qed.

(** The program table after creating a program, attaching two compiled
    shaders and linking. *)
Lemma programs_after_link s vs fs vobj fobj :
  shaders s !! vs = Some vobj -> shaders s !! fs = Some fobj ->
  let pid := fresh_name (dom (programs s)) in
  let s' := gl_do (glLinkProgram pid)
              (gl_do (glAttachShader pid fs)
                 (gl_do (glAttachShader pid vs) (gl_do glCreateProgram s))) in
  programs s' =
    <[pid := ProgramObj [vs; fs] (link_status drv [vobj; fobj])]> (programs s) /\
  shaders s' = shaders s /\
  attached_shaders s' pid = [vobj; fobj].
Proof.
  intros Hvs Hfs pid s'.
  set (sc := gl_do (glAttachShader pid fs)
               (gl_do (glAttachShader pid vs) (gl_do glCreateProgram s))) in *.
  assert (Hpc : programs sc = <[pid := ProgramObj [vs; fs] false]> (programs s)).
  { unfold sc. rewrite !programs_glAttachShader, programs_glCreateProgram.
    fold pid. rewrite !alter_insert_eq. reflexivity. }
  assert (Hsc : shaders sc = shaders s).
  { unfold sc. now untouched. }
  assert (Hatt : attached_shaders sc pid = [vobj; fobj]).
  { unfold attached_shaders. rewrite Hpc, lookup_insert_eq, Hsc.
    cbn [pr_attached omap list_omap]. now rewrite Hvs, Hfs. }
  assert (Hp : programs s' =
    <[pid := ProgramObj [vs; fs] (link_status drv [vobj; fobj])]> (programs s)).
  { unfold s'. rewrite programs_glLinkProgram, Hatt, Hpc, alter_insert_eq.
    reflexivity. }
  assert (Hs : shaders s' = shaders s).
  { unfold s'. untouched. exact Hsc. }
  split; [exact Hp |]. split; [exact Hs |].
  unfold attached_shaders. rewrite Hp, lookup_insert_eq, Hs.
  cbn [pr_attached omap list_omap]. now rewrite Hvs, Hfs.
Qed.

(** What [link_program] does once both shaders compiled: the link status
    decides between the link error and a linked program. *)
Lemma link_program_linking vs_src fs_src s :
  compile_status drv GL_VERTEX_SHADER vs_src = true ->
  compile_status drv GL_FRAGMENT_SHADER fs_src = true ->
  let pid := fresh_name (dom (programs s)) in
  (link_status drv (compiled_pair vs_src fs_src) = false /\
   link_program vs_src fs_src s =
     Raise (link_error (program_info_log drv (compiled_pair vs_src fs_src))))
  \/
  link_status drv (compiled_pair vs_src fs_src) = true /\
  exists vs fs s',
    link_program vs_src fs_src s = Ok (pid, s') /\
    programs s' = <[pid := ProgramObj [vs; fs] true]> (programs s) /\
    shaders s' !! vs = Some (ShaderObj GL_VERTEX_SHADER vs_src true true) /\
    shaders s' !! fs = Some (ShaderObj GL_FRAGMENT_SHADER fs_src true true) /\
    textures s' = textures s /\
    renderbuffers s' = renderbuffers s /\
    framebuffers s' = framebuffers s /\
    buffers s' = buffers s.
Proof.
  intros Hvs Hfs pid.
  destruct (compile_shader_succeeds vs_src GL_VERTEX_SHADER s Hvs)
    as (s1 & Hrun1 & Hsh1 & Hpr1 & Htx1 & Hrb1 & Hfb1 & Hbf1 & _).
  destruct (compile_shader_succeeds fs_src GL_FRAGMENT_SHADER s1 Hfs)
    as (s2 & Hrun2 & Hsh2 & Hpr2 & Htx2 & Hrb2 & Hfb2 & Hbf2 & _).
  set (vs := fresh_name (dom (shaders s))) in *.
  set (fs := fresh_name (dom (shaders s1))) in *.
  assert (Hne : vs <> fs).
  { intros E. apply (fresh_name_unused (dom (shaders s1))). fold fs.
    rewrite <- E, Hsh1. set_solver. }
  assert (Hlvs : shaders s2 !! vs
                 = Some (ShaderObj GL_VERTEX_SHADER vs_src true false)).
  { rewrite Hsh2, lookup_insert_ne by congruence.
    rewrite Hsh1. apply lookup_insert_eq. }
  assert (Hlfs : shaders s2 !! fs
                 = Some (ShaderObj GL_FRAGMENT_SHADER fs_src true false)).
  { rewrite Hsh2. apply lookup_insert_eq. }
  assert (Hpid : fresh_name (dom (programs s2)) = pid).
  { unfold pid. now rewrite Hpr2, Hpr1. }
  destruct (programs_after_link s2 vs fs _ _ Hlvs Hlfs) as (Hp3 & Hs3 & Ha3).
  rewrite Hpid in Hp3, Hs3, Ha3.
  fold (compiled_pair vs_src fs_src) in Hp3, Ha3.
  remember (link_program vs_src fs_src s) as run eqn:Hrun.
  unfold link_program in Hrun. unfold bind at 1 in Hrun. rewrite Hrun1 in Hrun.
  unfold bind at 1 in Hrun. rewrite Hrun2 in Hrun.
  rewrite bind_glCreateProgram, Hpid, !bind_cmd, bind_glGetProgramiv in Hrun.
  set (s3 := gl_do (glLinkProgram pid) _) in *.
  assert (Htx3 : textures s3 = textures s2) by (unfold s3; now untouched).
  assert (Hrb3 : renderbuffers s3 = renderbuffers s2)
    by (unfold s3; now untouched).
  assert (Hfb3 : framebuffers s3 = framebuffers s2)
    by (unfold s3; now untouched).
  assert (Hbf3 : buffers s3 = buffers s2) by (unfold s3; now untouched).
  clearbody s3.
  rewrite Hp3, lookup_insert_eq in Hrun. simpl from_option in Hrun.
  set (s4 := gl_do (glGetProgramiv pid GL_LINK_STATUS) s3) in *.
  assert (Hp4 : programs s4 = programs s3) by (unfold s4; now untouched).
  assert (Hs4 : shaders s4 = shaders s3) by (unfold s4; now untouched).
  assert (Ha4 : attached_shaders s4 pid = attached_shaders s3 pid).
  { unfold attached_shaders. now rewrite Hp4, Hs4. }
  assert (Htx4 : textures s4 = textures s3) by (unfold s4; now untouched).
  assert (Hrb4 : renderbuffers s4 = renderbuffers s3)
    by (unfold s4; now untouched).
  assert (Hfb4 : framebuffers s4 = framebuffers s3)
    by (unfold s4; now untouched).
  assert (Hbf4 : buffers s4 = buffers s3) by (unfold s4; now untouched).
  clearbody s4.
  destruct (link_status drv (compiled_pair vs_src fs_src)) eqn:Hlink;
    cbn [from_option pr_linked negb] in Hrun;
    [right; split; [reflexivity |] | left; split; [reflexivity |]].
  - rewrite !bind_cmd in Hrun.
    destruct (glDeleteShader_attached_tables s4 pid (ProgramObj [vs; fs] true) vs)
      as (Hs5 & Hp5 & Htx5 & Hrb5 & Hfb5 & Hbf5);
      [rewrite Hp4, Hp3; apply lookup_insert_eq | cbn [pr_attached]; set_solver |].
    set (s5 := gl_do (glDeleteShader vs) s4) in *. clearbody s5.
    destruct (glDeleteShader_attached_tables s5 pid (ProgramObj [vs; fs] true) fs)
      as (Hs6 & Hp6 & Htx6 & Hrb6 & Hfb6 & Hbf6);
      [rewrite Hp5, Hp4, Hp3; apply lookup_insert_eq
      | cbn [pr_attached]; set_solver |].
    set (s6 := gl_do (glDeleteShader fs) s5) in *. clearbody s6.
    exists vs, fs, s6. split; [exact Hrun |].
    rewrite Hp6, Hp5, Hp4, Hp3, Hs6, Hs5, Hs4, Hs3, Htx6, Htx5, Htx4, Htx3,
      Hrb6, Hrb5, Hrb4, Hrb3, Hfb6, Hfb5, Hfb4, Hfb3, Hbf6, Hbf5, Hbf4, Hbf3.
    rewrite Hpr2, Hpr1, Htx2, Htx1, Hrb2, Hrb1, Hfb2, Hfb1, Hbf2, Hbf1.
    repeat split; try reflexivity.
    + rewrite lookup_alter_ne by congruence.
      rewrite lookup_alter_eq, Hlvs. reflexivity.
    + rewrite lookup_alter_eq, lookup_alter_ne by congruence.
      rewrite Hlfs. reflexivity.
  - rewrite bind_glGetProgramInfoLog, Ha4, Ha3 in Hrun. exact Hrun.
Qed.

Lemma link_program_vs_fails vs_src fs_src s :
  compile_status drv GL_VERTEX_SHADER vs_src = false ->
  link_program vs_src fs_src s =
    Raise (compile_error (shader_info_log drv GL_VERTEX_SHADER vs_src)).
Proof.
  intros Hvs. unfold link_program. unfold bind at 1.
  now rewrite compile_shader_fails.
Qed.

Lemma link_program_fs_fails vs_src fs_src s :
  compile_status drv GL_VERTEX_SHADER vs_src = true ->
  compile_status drv GL_FRAGMENT_SHADER fs_src = false ->
  link_program vs_src fs_src s =
    Raise (compile_error (shader_info_log drv GL_FRAGMENT_SHADER fs_src)).
Proof.
  intros Hvs Hfs.
  destruct (compile_shader_succeeds vs_src GL_VERTEX_SHADER s Hvs)
    as (s1 & Hrun1 & _).
  unfold link_program. unfold bind at 1. rewrite Hrun1.
  unfold bind at 1. now rewrite compile_shader_fails.
Qed.

(** ** What the drawing functions emit *)

Lemma ring_emits cx cy r a : emits (ring cx cy r a) (ring_calls cx cy r a).
Proof.
  unfold ring, ring_calls, rim_calls.
  apply emits_bind; [apply emits_cmds |].
  apply emits_bind; [apply emits_for_cmd | apply emits_cmd].
Qed.

Lemma draw_black_hole_overlay_emits w h eh :
  emits (draw_black_hole_overlay w h eh) (overlay_calls w h eh).
Proof.
  unfold draw_black_hole_overlay, overlay_calls, rim_calls.
  apply emits_bind; [apply emits_cmds |].
  apply emits_bind.
  { change [5; 4; 3; 2; 1]%Z with (Py.range3 5 0 (-1)).
    apply (emits_for _ _ (fun i => ring_calls _ _ _ _)).
    intros i. apply ring_emits. }
  apply emits_bind; [apply emits_cmds |].
  apply emits_bind; [apply emits_for_cmd | apply emits_cmds].
Qed.

Lemma IZR_nonzero (z : Z) : z <> 0%Z -> IZR z <> 0.
Proof. intros H E. apply H. now apply eq_IZR_R0. Qed.

Lemma set_perspective_emits w h :
  h <> 0%Z -> emits (set_perspective w h) (perspective_calls w h).
Proof.
  intros Hh. unfold set_perspective, perspective_calls.
  apply (emits_bind _ _ [_; _] [_; _]); [apply emits_cmds |].
  apply emits_truediv; [now apply IZR_nonzero |].
  apply emits_cmds.
Qed.

(** With a zero height the aspect ratio raises [ZeroDivisionError]. *)
Lemma set_perspective_zero_height w s :
  set_perspective w 0 s = Raise ZeroDivisionError.
Proof.
  unfold set_perspective. rewrite bind_cmds. unfold bind, truediv.
  destruct (Req_dec_T (IZR 0) 0) as [_ | H]; [reflexivity | now elim H].
Qed.

Lemma radians_degrees deg : Py.radians deg = deg * PI / 180.
Proof. unfold Py.radians. lra. Qed.

Lemma set_camera_emits g : emits (set_camera g) (camera_calls g).
Proof.
  unfold set_camera, camera_calls, eye_x, eye_y, eye_z.
  rewrite <- !radians_degrees.
  apply (emits_bind _ _ [_] [_]); apply emits_cmd.
Qed.

Lemma draw_grid_emits g : emits (draw_grid g) (grid_calls g).
Proof.
  unfold draw_grid, grid_calls.
  destruct (show_grid g); simpl negb; cbv iota; [| apply emits_ret].
  apply emits_bind; [apply emits_cmds |].
  apply emits_bind; [| apply emits_cmd].
  apply (emits_for_cmds (Py.range (-24) 25)).
Qed.

Lemma draw_sphere_emits radius r g b slices stacks :
  emits (draw_sphere radius (r, g, b) slices stacks)
        [glColor3f r g b; gluNewQuadric; gluSphere radius slices stacks;
         gluDeleteQuadric].
Proof. unfold draw_sphere. apply emits_cmds. Qed.

Lemma draw_scene_objects_emits : emits draw_scene_objects scene_objects_calls.
Proof.
  unfold draw_scene_objects, scene_objects_calls.
  apply emits_bind; [apply emits_cmds |].
  apply emits_bind.
  { apply (emits_for _ _ star_calls).
    intros [[[sx sy] sz] [[r g] b]]. unfold star_calls.
    apply (emits_bind _ _ [_]); [apply emits_cmd |].
    apply (emits_bind _ _ [_]); [apply emits_cmd |].
    apply (emits_bind _ _ [_; _; _; _] [_]);
      [apply draw_sphere_emits | apply emits_cmd]. }
  apply (emits_bind _ _ [_]); [apply emits_cmd |].
  apply (emits_bind _ _ [_; _; _; _; _; _]); [apply emits_cmds |].
  apply emits_bind; [| apply emits_cmds].
  apply (emits_for_cmds (Py.range 0 129)).
Qed.

Lemma render_scene_pass_emits st :
  WIN_H st.1 <> 0%Z -> emits (render_scene_pass st) (scene_pass_calls st).
Proof.
  destruct st as [g l]. intros Hh.
  unfold render_scene_pass, scene_pass_calls, scene_body_calls.
  cbn [fst snd] in *.
  eapply emits_eq.
  - apply emits_bind; [apply emits_cmd |].
    apply emits_bind; [apply emits_cmd |].
    apply emits_bind; [apply emits_cmd |].
    apply emits_bind; [now apply set_perspective_emits |].
    apply emits_bind; [apply set_camera_emits |].
    apply emits_bind; [apply draw_grid_emits |].
    apply emits_bind; [apply draw_scene_objects_emits | apply emits_cmd].
  - cbn [app]. rewrite <- !app_assoc. reflexivity.
Qed.

Lemma render_scene_pass_zero_height st s :
  WIN_H st.1 = 0%Z -> render_scene_pass st s = Raise ZeroDivisionError.
Proof.
  destruct st as [g l]. simpl. intros Hh.
  unfold render_scene_pass. rewrite !bind_cmd. unfold bind at 1.
  now rewrite Hh, set_perspective_zero_height.
Qed.

Lemma postprocess_pass_emits st :
  emits (postprocess_pass st) (post_pass_calls st).
Proof.
  destruct st as [g l]. unfold postprocess_pass, post_pass_calls.
  apply (emits_bind _ _ [_; _; _; _]); [apply emits_cmds |].
  do 5 apply emits_uniform_location.
  apply (emits_bind _ _ [_; _; _; _; _; _; _; _; _]); [apply emits_cmds |].
  do 2 apply emits_attrib_location.
  apply emits_cmds.
Qed.

Lemma overlay_pass_emits st :
  emits (overlay_pass st)
        (overlay_calls (WIN_W st.1) (WIN_H st.1) (event_horizon_radius_px st.1)).
Proof. unfold overlay_pass. apply draw_black_hole_overlay_emits. Qed.

Lemma present_emits : emits present present_calls.
Proof. unfold present, present_calls. apply emits_cmds. Qed.

(** ** Kinds of calls in the call lists *)

Lemma Forall_concat_map {A} (P : gl_call -> Prop) (F : A -> list gl_call) xs :
  (forall x, Forall P (F x)) -> Forall P (concat (List.map F xs)).
Proof.
  intros HF. induction xs as [| x xs IH]; simpl; [constructor |].
  apply Forall_app. split; [apply HF | exact IH].
Qed.

Lemma Forall_map_intro {A} (P : gl_call -> Prop) (f : A -> gl_call) xs :
  (forall x, P (f x)) -> Forall P (List.map f xs).
Proof. intros Hf. induction xs; simpl; constructor; auto. Qed.

Ltac all_calls :=
  repeat match goal with
         | |- Forall _ (_ ++ _) => apply Forall_app; split
         | |- Forall _ (concat (List.map _ _)) =>
             apply Forall_concat_map; intros
         | |- Forall _ (List.map _ _) => apply Forall_map_intro; intros
         | |- Forall _ (_ :: _) => apply Forall_cons; split
         | |- Forall _ [] => apply Forall_nil
         end;
  try reflexivity.

Lemma overlay_calls_inner w h eh :
  Forall (fun c => inner_call c = true) (overlay_calls w h eh).
Proof. unfold overlay_calls, ring_calls, rim_calls. all_calls. Qed.

Lemma scene_body_calls_inner g :
  Forall (fun c => inner_call c = true) (scene_body_calls g).
Proof.
  unfold scene_body_calls, perspective_calls, camera_calls, grid_calls,
    scene_objects_calls.
  destruct (show_grid g); all_calls.
  all: destruct x as [[[sx sy] sz] [[r g0] b]]; unfold star_calls; all_calls.
Qed.

Lemma post_pass_calls_inner st :
  Forall (fun c => inner_call c = true) (post_pass_calls st).
Proof. destruct st as [g l]. unfold post_pass_calls. all_calls. Qed.

Lemma inner_call_keeps_targets l :
  Forall (fun c => inner_call c = true) l ->
  Forall (fun c => keeps_targets c = true) l.
Proof.
  induction 1 as [| c l H _ IH]; constructor; [| exact IH].
  unfold inner_call in H.
  apply andb_true_iff in H as [H _]. now apply andb_true_iff in H as [H _].
Qed.

Lemma render_calls_keep_targets st :
  Forall (fun c => keeps_targets c = true) (render_calls st).
Proof.
  unfold render_calls, scene_pass_calls, present_calls.
  all_calls; apply inner_call_keeps_targets.
  - apply scene_body_calls_inner.
  - apply post_pass_calls_inner.
  - apply overlay_calls_inner.
Qed.

Lemma resize_calls_event w h old_fbo old_tex old_rbo fb tex rb :
  Forall (fun c => event_call c = true)
         (resize_calls w h old_fbo old_tex old_rbo fb tex rb).
Proof. unfold resize_calls, perspective_calls. all_calls. Qed.

(** ** The render part of an iteration *)

Lemma render_emits st :
  WIN_H st.1 <> 0%Z ->
  emits (render_scene_pass st ;; postprocess_pass st ;; overlay_pass st ;;
         present)
        (render_calls st).
Proof.
  intros Hh. unfold render_calls.
  apply emits_bind; [now apply render_scene_pass_emits |].
  apply emits_bind; [apply postprocess_pass_emits |].
  apply emits_bind; [apply overlay_pass_emits | apply present_emits].
Qed.

(** ** Event handling *)

Lemma perspective_calls_keep_targets w h :
  Forall (fun c => keeps_targets c = true) (perspective_calls w h).
Proof. unfold perspective_calls. all_calls. Qed.

Lemma textures_glDeleteTextures n names s :
  textures (gl_do (glDeleteTextures n names) s)
  = delete_all names (textures s).
Proof. reflexivity. Qed.

Lemma renderbuffers_glDeleteRenderbuffers n names s :
  renderbuffers (gl_do (glDeleteRenderbuffers n names) s)
  = delete_all names (renderbuffers s).
Proof. reflexivity. Qed.

Lemma framebuffers_glDeleteFramebuffers n names s :
  framebuffers (gl_do (glDeleteFramebuffers n names) s)
  = delete_all names (framebuffers s).
Proof. reflexivity. Qed.

(** The handler of [VIDEORESIZE]: a zero height raises in
    [set_perspective]; otherwise the old target is deleted, and the new one is
    created with the new size or "FBO incomplete" is raised. *)
Lemma handle_resize_spec w h g l s :
  h <> 0%Z ->
  let tex := fresh_name (dom (delete (scene_tex l) (textures s))) in
  let rb := fresh_name (dom (delete (rbo l) (renderbuffers s))) in
  let fb := fresh_name (dom (delete (fbo l) (framebuffers s))) in
  (framebuffer_complete drv (Some (w, h)) (Some (w, h)) = false /\
   handle_event (VIDEORESIZE w h) (g, l) s
     = Raise (RuntimeError "FBO incomplete")) \/
  framebuffer_complete drv (Some (w, h)) (Some (w, h)) = true /\
  exists s',
    handle_event (VIDEORESIZE w h) (g, l) s
      = Ok ((set_WIN_H h (set_WIN_W w g),
             set_rbo rb (set_scene_tex tex (set_fbo fb l))), s') /\
    textures s' = <[tex := Some (w, h)]> (delete (scene_tex l) (textures s)) /\
    renderbuffers s'
      = <[rb := Some (w, h)]> (delete (rbo l) (renderbuffers s)) /\
    framebuffers s'
      = <[fb := FramebufferObj (Some tex) (Some rb)]>
          (delete (fbo l) (framebuffers s)) /\
    calls s' = calls s
               ++ resize_calls w h (fbo l) (scene_tex l) (rbo l) fb tex rb.
Proof.
  intros Hh tex rb fb.
  remember (handle_event (VIDEORESIZE w h) (g, l) s) as run eqn:Hrun.
  unfold handle_event in Hrun. cbn [WIN_W WIN_H set_WIN_W set_WIN_H] in Hrun.
  rewrite !bind_cmd in Hrun.
  rewrite (bind_emits _ _ _ _ (set_perspective_emits w h Hh)) in Hrun.
  rewrite !bind_cmd in Hrun.
  set (s0 := gl_do_all (perspective_calls w h) _) in Hrun.
  set (sd := gl_do (glDeleteRenderbuffers 1 [rbo l]) _) in Hrun.
  assert (Ht : textures sd = delete (scene_tex l) (textures s)).
  { unfold sd. untouched. rewrite textures_glDeleteTextures. untouched.
    unfold s0.
    destruct (keeps_targets_gl_do_all (perspective_calls w h)
                (gl_do (glViewport 0 0 w h) (gl_do (pygame_display_set_mode w h) s))
                (perspective_calls_keep_targets w h)) as (-> & _ & _).
    now untouched. }
  assert (Hr : renderbuffers sd = delete (rbo l) (renderbuffers s)).
  { unfold sd. rewrite renderbuffers_glDeleteRenderbuffers. untouched.
    unfold s0.
    destruct (keeps_targets_gl_do_all (perspective_calls w h)
                (gl_do (glViewport 0 0 w h) (gl_do (pygame_display_set_mode w h) s))
                (perspective_calls_keep_targets w h)) as (_ & -> & _).
    now untouched. }
  assert (Hf : framebuffers sd = delete (fbo l) (framebuffers s)).
  { unfold sd. untouched. rewrite framebuffers_glDeleteFramebuffers.
    unfold s0.
    destruct (keeps_targets_gl_do_all (perspective_calls w h)
                (gl_do (glViewport 0 0 w h) (gl_do (pygame_display_set_mode w h) s))
                (perspective_calls_keep_targets w h)) as (_ & _ & ->).
    now untouched. }
  assert (Hc : calls sd = calls s ++
                 [pygame_display_set_mode w h; glViewport 0 0 w h]
                 ++ perspective_calls w h
                 ++ [glDeleteFramebuffers 1 [fbo l];
                     glDeleteTextures 1 [scene_tex l];
                     glDeleteRenderbuffers 1 [rbo l]]).
  { unfold sd, s0. rewrite !calls_gl_do, calls_gl_do_all, !calls_gl_do.
    rewrite <- !app_assoc. reflexivity. }
  clearbody sd. clear s0.
  destruct (create_fbo_tex_spec w h sd)
    as [[Hfc Hraise] | (Hfc & s' & Hok & Ht' & Hr' & Hf' & _ & _ & _ & Hc')].
  - left. split; [exact Hfc |].
    rewrite (bind_raise _ _ _ _ Hraise) in Hrun. exact Hrun.
  - right. split; [exact Hfc |]. exists s'.
    rewrite (bind_ok _ _ _ _ _ Hok) in Hrun.
    rewrite Ht, Hr, Hf in Hrun. rewrite Ht in Ht'. rewrite Hr in Hr'.
    rewrite Ht, Hr, Hf in Hf'. rewrite Ht, Hr, Hf, Hc in Hc'.
    split; [exact Hrun |].
    split; [exact Ht' |]. split; [exact Hr' |]. split; [exact Hf' |].
    rewrite Hc'. unfold resize_calls. rewrite <- !app_assoc. reflexivity.
Qed.

Lemma handle_resize_zero_height w g l s :
  handle_event (VIDEORESIZE w 0) (g, l) s = Raise ZeroDivisionError.
Proof.
  unfold handle_event. cbn [WIN_W WIN_H set_WIN_W set_WIN_H].
  rewrite !bind_cmd. unfold bind at 1.
  now rewrite set_perspective_zero_height.
Qed.

(** ** The fullscreen quad *)

Lemma buffers_glGenBuffers n s :
  buffers (gl_do (glGenBuffers n) s)
  = <[fresh_name (dom (buffers s)) := None]> (buffers s).
Proof. reflexivity. Qed.

Lemma buffers_glBufferData_array size data usage buf s :
  buffers (gl_do (glBufferData GL_ARRAY_BUFFER size data usage)
                 (gl_do (glBindBuffer GL_ARRAY_BUFFER buf) s))
  = alter (fun _ => Some data) buf (buffers s).
Proof. reflexivity. Qed.

Lemma buffers_glBufferData_element size data usage buf s :
  buffers (gl_do (glBufferData GL_ELEMENT_ARRAY_BUFFER size data usage)
                 (gl_do (glBindBuffer GL_ELEMENT_ARRAY_BUFFER buf) s))
  = alter (fun _ => Some data) buf (buffers s).
Proof. reflexivity. Qed.

(** [create_fs_quad] never raises; it returns two distinct, non-zero buffer
    names, the first holding the 16 floats of the quad, the second its 6
    indices, and touches no other table. *)
Lemma create_fs_quad_spec s :
  let vbo := fresh_name (dom (buffers s)) in
  let ebo := fresh_name (dom (<[vbo := Some (c_float_array quad_vertices)]>
                               (buffers s))) in
  exists s',
    create_fs_quad s = Ok ((vbo, ebo), s') /\
    buffers s' = <[ebo := Some (c_uint_array quad_indices)]>
                   (<[vbo := Some (c_float_array quad_vertices)]> (buffers s)) /\
    vbo <> ebo /\
    shaders s' = shaders s /\ programs s' = programs s /\
    textures s' = textures s /\ renderbuffers s' = renderbuffers s /\
    framebuffers s' = framebuffers s /\
    calls s' = calls s ++
      [glGenBuffers 1; glBindBuffer GL_ARRAY_BUFFER vbo;
       glBufferData GL_ARRAY_BUFFER 64 (c_float_array quad_vertices)
         GL_STATIC_DRAW;
       glBindBuffer GL_ARRAY_BUFFER 0;
       glGenBuffers 1; glBindBuffer GL_ELEMENT_ARRAY_BUFFER ebo;
       glBufferData GL_ELEMENT_ARRAY_BUFFER 24 (c_uint_array quad_indices)
         GL_STATIC_DRAW;
       glBindBuffer GL_ELEMENT_ARRAY_BUFFER 0].
Proof.
  intros vbo ebo.
  remember (create_fs_quad s) as run eqn:Hrun.
  unfold create_fs_quad in Hrun. cbv zeta in Hrun.
  fold quad_vertices quad_indices in Hrun.
  change (Z.of_nat (length quad_vertices) * 4)%Z with 64%Z in Hrun.
  change (Z.of_nat (length quad_indices) * 4)%Z with 24%Z in Hrun.
  rewrite bind_glGenBuffers, !bind_cmd in Hrun. fold vbo in Hrun.
  set (s1 := gl_do (glBindBuffer GL_ARRAY_BUFFER 0) _) in Hrun.
  assert (Hb1 : buffers s1
                = <[vbo := Some (c_float_array quad_vertices)]> (buffers s)).
  { unfold s1. untouched. rewrite buffers_glBufferData_array.
    rewrite buffers_glGenBuffers. fold vbo. now rewrite alter_insert_eq. }
  assert (Hc1 : calls s1 = calls s ++
            [glGenBuffers 1; glBindBuffer GL_ARRAY_BUFFER vbo;
             glBufferData GL_ARRAY_BUFFER 64 (c_float_array quad_vertices)
               GL_STATIC_DRAW;
             glBindBuffer GL_ARRAY_BUFFER 0]).
  { unfold s1. rewrite !calls_gl_do, <- !app_assoc. reflexivity. }
  assert (Hrest1 : shaders s1 = shaders s /\ programs s1 = programs s /\
                   textures s1 = textures s /\
                   renderbuffers s1 = renderbuffers s /\
                   framebuffers s1 = framebuffers s).
  { unfold s1. untouched. now repeat split. }
  clearbody s1.
  rewrite bind_glGenBuffers, !bind_cmd, bind_ret_eq in Hrun.
  rewrite Hb1 in Hrun. fold ebo in Hrun.
  set (s2 := gl_do (glBindBuffer GL_ELEMENT_ARRAY_BUFFER 0) _) in Hrun.
  exists s2. split; [exact Hrun |].
  destruct Hrest1 as (Hs & Hp & Ht & Hr & Hf).
  assert (Hne : vbo <> ebo).
  { intros E. apply (fresh_name_unused
                       (dom (<[vbo := Some (c_float_array quad_vertices)]>
                               (buffers s)))).
    fold ebo. rewrite <- E. set_solver. }
  split.
  { unfold s2. untouched. rewrite buffers_glBufferData_element.
    rewrite buffers_glGenBuffers, Hb1. fold ebo. now rewrite alter_insert_eq. }
  split; [exact Hne |].
  unfold s2. untouched. rewrite Hs, Hp, Ht, Hr, Hf.
  repeat split; try reflexivity.
  rewrite !calls_gl_do, Hc1, <- !app_assoc. reflexivity.
Qed.

(** ** [link_program] and the render targets *)

(** When [link_program] returns, the shaders compiled and the program linked;
    the name is not [0], names a linked program with the two shaders
    attached, and the render targets are as before. *)
Lemma link_program_returns vs_src fs_src s pid s' :
  link_program vs_src fs_src s = Ok (pid, s') ->
  compile_status drv GL_VERTEX_SHADER vs_src = true /\
  compile_status drv GL_FRAGMENT_SHADER fs_src = true /\
  link_status drv (compiled_pair vs_src fs_src) = true /\
  pid <> 0%N /\
  (exists vs fs, programs s' !! pid = Some (ProgramObj [vs; fs] true)) /\
  textures s' = textures s /\
  renderbuffers s' = renderbuffers s /\
  framebuffers s' = framebuffers s.
Proof.
  intros Hrun.
  destruct (compile_status drv GL_VERTEX_SHADER vs_src) eqn:Hvs;
    [| rewrite link_program_vs_fails in Hrun by exact Hvs; discriminate].
  destruct (compile_status drv GL_FRAGMENT_SHADER fs_src) eqn:Hfs;
    [| rewrite link_program_fs_fails in Hrun by assumption; discriminate].
  destruct (link_program_linking vs_src fs_src s Hvs Hfs)
    as [[_ Hraise] | (Hlink & vs & fs & s'' & Hok & Hp & _ & _ & Ht & Hr & Hf & _)].
  - rewrite Hraise in Hrun. discriminate.
  - rewrite Hok in Hrun. injection Hrun as <- <-.
    repeat split; try assumption.
    + apply fresh_name_nonzero.
    + exists vs, fs. rewrite Hp. apply lookup_insert_eq.
Qed.

(** ** The setup of [main] *)

Lemma initial_height_nonzero : WIN_H initial_globals <> 0%Z.
Proof. discriminate. Qed.

(** When the setup returns, the globals have their initial values, the loop
    variables theirs, and the offscreen target has the size of the window. *)
Lemma main_setup_spec s st s' :
  main_setup s = Ok (st, s') ->
  st.1 = initial_globals /\
  dragging st.2 = false /\ running st.2 = true /\
  last_mx st.2 = 0%Z /\ last_my st.2 = 0%Z /\
  target_matches_window st s'.
Proof.
  intros Hrun. unfold main_setup in Hrun. cbv zeta in Hrun.
  rewrite bind_cmds in Hrun.
  rewrite (bind_emits _ _ _ _
             (set_perspective_emits _ _ initial_height_nonzero)) in Hrun.
  set (s0 := gl_do_all (perspective_calls _ _) _) in Hrun. clearbody s0.
  destruct (create_fbo_tex_spec (WIN_W initial_globals) (WIN_H initial_globals) s0)
    as [[_ Hraise] | (_ & s1 & Hok & Ht1 & Hr1 & Hf1 & _)].
  { rewrite (bind_raise _ _ _ _ Hraise) in Hrun. discriminate. }
  rewrite (bind_ok _ _ _ _ _ Hok) in Hrun. cbv beta iota in Hrun.
  destruct (create_fs_quad_spec s1)
    as (s2 & Hq & _ & _ & _ & _ & Ht2 & Hr2 & Hf2 & _).
  rewrite (bind_ok _ _ _ _ _ Hq) in Hrun. cbv beta iota in Hrun.
  destruct (link_program POST_VS POST_FS s2) as [[pid s3] | e] eqn:Hlink;
    [| rewrite (bind_raise _ _ _ _ Hlink) in Hrun; discriminate].
  rewrite (bind_ok _ _ _ _ _ Hlink) in Hrun.
  apply link_program_returns in Hlink
    as (_ & _ & _ & _ & _ & Ht3 & Hr3 & Hf3).
  rewrite bind_ret_eq in Hrun. injection Hrun as <- <-.
  cbn [fst snd dragging running last_mx last_my].
  repeat split.
  - cbn [fst snd scene_tex]. rewrite Ht3, Ht2, Ht1. apply lookup_insert_eq.
  - cbn [fst snd rbo]. rewrite Hr3, Hr2, Hr1. apply lookup_insert_eq.
  - cbn [fst snd fbo scene_tex rbo]. rewrite Hf3, Hf2, Hf1.
    apply lookup_insert_eq.
Qed.

(** The setup raises a [RuntimeError] when a shader of the program does not
    compile or the program does not link, and so does [main]. *)
Lemma main_setup_raises_on_shader_failure s :
  compile_status drv GL_VERTEX_SHADER POST_VS = false \/
  compile_status drv GL_FRAGMENT_SHADER POST_FS = false \/
  link_status drv (compiled_pair POST_VS POST_FS) = false ->
  exists msg, main_setup s = Raise (RuntimeError msg).
Proof.
  intros Hfail. unfold main_setup. cbv zeta.
  rewrite bind_cmds.
  rewrite (bind_emits _ _ _ _
             (set_perspective_emits _ _ initial_height_nonzero)).
  set (s0 := gl_do_all (perspective_calls _ _) _). clearbody s0.
  destruct (create_fbo_tex_spec (WIN_W initial_globals) (WIN_H initial_globals) s0)
    as [[_ Hraise] | (_ & s1 & Hok & _)].
  { rewrite (bind_raise _ _ _ _ Hraise). now eexists. }
  rewrite (bind_ok _ _ _ _ _ Hok). cbv beta iota.
  destruct (create_fs_quad_spec s1) as (s2 & Hq & _).
  rewrite (bind_ok _ _ _ _ _ Hq). cbv beta iota.
  destruct (compile_status drv GL_VERTEX_SHADER POST_VS) eqn:Hvs.
  2: { rewrite (bind_raise _ _ _ _ (link_program_vs_fails _ _ s2 Hvs)).
       now eexists. }
  destruct (compile_status drv GL_FRAGMENT_SHADER POST_FS) eqn:Hfs.
  2: { rewrite (bind_raise _ _ _ _ (link_program_fs_fails _ _ s2 Hvs Hfs)).
       now eexists. }
  destruct (link_program_linking POST_VS POST_FS s2 Hvs Hfs)
    as [[_ Hr] | [Hl _]].
  - rewrite (bind_raise _ _ _ _ Hr). now eexists.
  - destruct Hfail as [H | [H | H]]; congruence.
Qed.

Lemma main_raises_on_shader_failure polls s :
  compile_status drv GL_VERTEX_SHADER POST_VS = false \/
  compile_status drv GL_FRAGMENT_SHADER POST_FS = false \/
  link_status drv (compiled_pair POST_VS POST_FS) = false ->
  exists msg, main polls s = Raise (RuntimeError msg).
Proof.
  intros Hfail.
  destruct (main_setup_raises_on_shader_failure s Hfail) as (msg & Hr).
  exists msg. unfold main. now rewrite (bind_raise _ _ _ _ Hr).
Qed.

(** The setup returns when the implementation accepts the target of the
    initial window size and both shaders, and links the program. *)
Lemma main_setup_returns s :
  framebuffer_complete drv (Some (1280, 800)%Z) (Some (1280, 800)%Z) = true ->
  compile_status drv GL_VERTEX_SHADER POST_VS = true ->
  compile_status drv GL_FRAGMENT_SHADER POST_FS = true ->
  link_status drv (compiled_pair POST_VS POST_FS) = true ->
  exists st s', main_setup s = Ok (st, s').
Proof.
  intros Hfb Hvs Hfs Hl. unfold main_setup. cbv zeta.
  rewrite bind_cmds.
  rewrite (bind_emits _ _ _ _
             (set_perspective_emits _ _ initial_height_nonzero)).
  set (s0 := gl_do_all (perspective_calls _ _) _). clearbody s0.
  destruct (create_fbo_tex_spec (WIN_W initial_globals) (WIN_H initial_globals) s0)
    as [[Hno _] | (_ & s1 & Hok & _)].
  { cbn [WIN_W WIN_H initial_globals] in Hno. congruence. }
  rewrite (bind_ok _ _ _ _ _ Hok). cbv beta iota.
  destruct (create_fs_quad_spec s1) as (s2 & Hq & _).
  rewrite (bind_ok _ _ _ _ _ Hq). cbv beta iota.
  destruct (link_program_linking POST_VS POST_FS s2 Hvs Hfs)
    as [[Hno _] | (_ & vs & fs & s3 & Hrun & _)]; [congruence |].
  rewrite (bind_ok _ _ _ _ _ Hrun). rewrite bind_ret_eq. now eexists _, _.
Qed.

(** ** What event handling keeps *)

Lemma handle_event_not_resize e st s :
  is_resize e = false ->
  exists st', handle_event e st s = Ok (st', s) /\
              same_window_and_objects st st'.
Proof.
  intros He. destruct st as [g l]. unfold same_window_and_objects.
  destruct e as [| k | button pos | button pos | [mx my] | w h |];
    try discriminate He; simpl.
  - eexists; (split; [reflexivity |]); simpl; repeat split.
  - destruct k; eexists; (split; [reflexivity |]); simpl; repeat split.
  - repeat destruct (decide _); eexists; (split; [reflexivity |]);
      simpl; repeat split.
  - destruct (decide _); eexists; (split; [reflexivity |]); simpl; repeat split.
  - destruct (dragging l); eexists; (split; [reflexivity |]);
      simpl; repeat split.
  - eexists; (split; [reflexivity |]); simpl; repeat split.
Qed.

Lemma input_event_not_resize e : is_input_event e = true -> is_resize e = false.
Proof. destruct e; simpl; congruence. Qed.

(** A handled [VIDEORESIZE] has a non-zero height, sets the window size and
    leaves a target of that size. *)
Lemma handle_resize_returns w h st s st' s' :
  handle_event (VIDEORESIZE w h) st s = Ok (st', s') ->
  h <> 0%Z /\
  st'.1 = set_WIN_H h (set_WIN_W w st.1) /\
  target_matches_window st' s' /\
  exists fb tex rb,
    st'.2 = set_rbo rb (set_scene_tex tex (set_fbo fb st.2)) /\
    textures s' = <[tex := Some (w, h)]> (delete (scene_tex st.2) (textures s)) /\
    renderbuffers s'
      = <[rb := Some (w, h)]> (delete (rbo st.2) (renderbuffers s)) /\
    framebuffers s'
      = <[fb := FramebufferObj (Some tex) (Some rb)]>
          (delete (fbo st.2) (framebuffers s)) /\
    calls s' = calls s
               ++ resize_calls w h (fbo st.2) (scene_tex st.2) (rbo st.2)
                    fb tex rb.
Proof.
  destruct st as [g l]. intros Hrun.
  destruct (decide (h = 0%Z)) as [-> | Hh];
    [rewrite handle_resize_zero_height in Hrun; discriminate |].
  split; [exact Hh |].
  destruct (handle_resize_spec w h g l s Hh)
    as [[_ Hraise] | (_ & s'' & Hok & Ht & Hr & Hf & Hc)].
  { rewrite Hraise in Hrun. discriminate. }
  rewrite Hok in Hrun. injection Hrun as <- <-.
  split; [reflexivity |]. split.
  - unfold target_matches_window. cbn [fst snd].
    cbn [scene_tex rbo fbo set_rbo set_scene_tex set_fbo
         WIN_W WIN_H set_WIN_W set_WIN_H].
    rewrite Ht, Hr, Hf. repeat split; apply lookup_insert_eq.
  - eexists _, _, _. split; [reflexivity |].
    cbn [snd]. split; [exact Ht |]. split; [exact Hr |].
    split; [exact Hf | exact Hc].
Qed.

Lemma handle_event_bounds e st s st' s' :
  handle_event e st s = Ok (st', s') ->
  camera_in_bounds st.1 /\ lens_in_bounds st.1 ->
  camera_in_bounds st'.1 /\ lens_in_bounds st'.1.
Proof.
  intros Hrun Hinv.
  destruct e as [| k | button pos | button pos | [mx my] | w h |].
  6: { apply handle_resize_returns in Hrun as (_ & -> & _).
       destruct st as [g l]. exact Hinv. }
  all: destruct st as [g l]; simpl in Hrun.
  all: unfold camera_in_bounds, lens_in_bounds in *; cbn [fst] in *.
  - injection Hrun as <- <-. exact Hinv.
  - destruct k; injection Hrun as <- <-; cbn; try exact Hinv.
    + lra.
    + unfold Py.min. destruct (Rlt_dec _ _); lra.
    + unfold Py.min. destruct (Rlt_dec _ _); lra.
    + unfold Py.max. destruct (Rgt_dec _ _); lra.
    + unfold Py.max. destruct (Rgt_dec _ _); lra.
    + unfold Py.min. destruct (Rlt_dec _ _); lra.
  - repeat destruct (decide _); injection Hrun as <- <-; cbn;
      try exact Hinv.
    + unfold Py.max. destruct (Rgt_dec _ _); lra.
    + unfold Py.min. destruct (Rlt_dec _ _); lra.
  - destruct (decide _); injection Hrun as <- <-; exact Hinv.
  - destruct (dragging l); injection Hrun as <- <-; cbn; [| exact Hinv].
    pose proof (py_clamp_bounds (cam_pitch g + IZR (my - last_my l) * 0.3)
                  (-85) 85) as Hc.
    lra.
  - injection Hrun as <- <-. exact Hinv.
Qed.

Lemma initial_bounds :
  camera_in_bounds initial_globals /\ lens_in_bounds initial_globals.
Proof. unfold camera_in_bounds, lens_in_bounds. simpl. lra. Qed.

Lemma reachable_bounds st s :
  reachable st s -> camera_in_bounds st.1 /\ lens_in_bounds st.1.
Proof.
  induction 1 as [st s Hsetup | e st s st' s' _ IH Hev | st s s' _ IH _].
  - apply main_setup_spec in Hsetup as (-> & _). apply initial_bounds.
  - exact (handle_event_bounds e st s st' s' Hev IH).
  - exact IH.
Qed.

(** ** The window and its target along the loop *)

Lemma render_run st s s' :
  WIN_H st.1 <> 0%Z ->
  (render_scene_pass st ;; postprocess_pass st ;; overlay_pass st ;; present) s
    = Ok (tt, s') ->
  s' = gl_do_all (render_calls st) s.
Proof.
  intros Hh Hrun. rewrite (render_emits st Hh) in Hrun. now injection Hrun.
Qed.

Lemma reachable_target st s :
  reachable st s -> WIN_H st.1 <> 0%Z /\ target_matches_window st s.
Proof.
  induction 1 as [st s Hsetup | e st s st' s' _ IH Hev | st s s' _ IH Hr].
  - apply main_setup_spec in Hsetup as (Hg & _ & _ & _ & _ & Ht).
    split; [rewrite Hg; apply initial_height_nonzero | exact Ht].
  - destruct (is_resize e) eqn:He.
    + destruct e; try discriminate He.
      apply handle_resize_returns in Hev as (Hh & Hg & Ht & _).
      split; [| exact Ht]. rewrite Hg. exact Hh.
    + destruct (handle_event_not_resize e st s He)
        as (st'' & Hok & Hw & Hhh & _ & Hf & Htx & Hrb & _).
      rewrite Hok in Hev. injection Hev as <- <-.
      destruct IH as (Hh & Ht & Hr & Hfb). unfold target_matches_window.
      rewrite Hf, Htx, Hrb, Hw, Hhh. auto.
  - destruct IH as (Hh & Ht). split; [exact Hh |].
    apply (render_run st s s' Hh) in Hr. subst s'.
    destruct (keeps_targets_gl_do_all (render_calls st) s
                (render_calls_keep_targets st)) as (Et & Er & Ef).
    unfold target_matches_window. rewrite Et, Er, Ef. exact Ht.
Qed.

(** ** The calls of event handling, and the iteration as a whole *)

Lemma handle_event_calls e st s st' s' :
  handle_event e st s = Ok (st', s') ->
  exists l, calls s' = calls s ++ l /\ Forall (fun c => event_call c = true) l.
Proof.
  intros Hev. destruct (is_resize e) eqn:He.
  - destruct e; try discriminate He.
    apply handle_resize_returns in Hev
      as (_ & _ & _ & fb & tex & rb & _ & _ & _ & _ & Hc).
    eexists. split; [exact Hc | apply resize_calls_event].
  - destruct (handle_event_not_resize e st s He) as (st'' & Hok & _).
    rewrite Hok in Hev. injection Hev as <- <-.
    exists []. split; [now rewrite app_nil_r | constructor].
Qed.

Lemma process_events_calls evs st s st' s' :
  process_events evs st s = Ok (st', s') ->
  exists l, calls s' = calls s ++ l /\ Forall (fun c => event_call c = true) l.
Proof.
  revert st s. induction evs as [| e evs IH]; intros st s Hrun.
  - injection Hrun as <- <-. exists []. split; [now rewrite app_nil_r | constructor].
  - cbn [process_events] in Hrun.
    destruct (handle_event e st s) as [[st1 s1] | ex] eqn:Hev;
      [| rewrite (bind_raise _ _ _ _ Hev) in Hrun; discriminate].
    rewrite (bind_ok _ _ _ _ _ Hev) in Hrun.
    apply handle_event_calls in Hev as (l1 & Hc1 & Hl1).
    apply IH in Hrun as (l2 & Hc2 & Hl2).
    exists (l1 ++ l2). split.
    + now rewrite Hc2, Hc1, app_assoc.
    + apply Forall_app. now split.
Qed.

Lemma process_events_reachable evs st s st' s' :
  reachable st s -> process_events evs st s = Ok (st', s') -> reachable st' s'.
Proof.
  revert st s. induction evs as [| e evs IH]; intros st s Hreach Hrun.
  - now injection Hrun as <- <-.
  - cbn [process_events] in Hrun.
    destruct (handle_event e st s) as [[st1 s1] | ex] eqn:Hev;
      [| rewrite (bind_raise _ _ _ _ Hev) in Hrun; discriminate].
    rewrite (bind_ok _ _ _ _ _ Hev) in Hrun.
    apply (IH st1 s1); [| exact Hrun].
    exact (reach_event e st s st1 s1 Hreach Hev).
Qed.

(** [frame] is the handling of the events followed by the render part. *)
Lemma frame_after_events evs st s st1 s1 :
  process_events evs st s = Ok (st1, s1) ->
  WIN_H st1.1 <> 0%Z ->
  frame evs st s = Ok (st1, gl_do_all (render_calls st1) s1).
Proof.
  intros Hev Hh. unfold frame. rewrite (bind_ok _ _ _ _ _ Hev).
  unfold render_calls. rewrite !gl_do_all_app.
  rewrite (bind_emits _ _ _ _ (render_scene_pass_emits st1 Hh)).
  rewrite (bind_emits _ _ _ _ (postprocess_pass_emits st1)).
  rewrite (bind_emits _ _ _ _ (overlay_pass_emits st1)).
  rewrite (bind_emits _ _ _ _ present_emits).
  reflexivity.
Qed.

Lemma frame_raises evs st s e :
  process_events evs st s = Raise e -> frame evs st s = Raise e.
Proof. intros Hev. unfold frame. now rewrite (bind_raise _ _ _ _ Hev). Qed.

(** A completed iteration leads from a reachable state to a reachable one. *)
Lemma frame_reachable evs st s st' s' :
  reachable st s -> frame evs st s = Ok (st', s') -> reachable st' s'.
Proof.
  intros Hreach Hrun.
  destruct (process_events evs st s) as [[st1 s1] | ex] eqn:Hev;
    [| rewrite (frame_raises _ _ _ _ Hev) in Hrun; discriminate].
  pose proof (process_events_reachable _ _ _ _ _ Hreach Hev) as Hr1.
  destruct (reachable_target _ _ Hr1) as (Hh & _).
  rewrite (frame_after_events _ _ _ _ _ Hev Hh) in Hrun.
  injection Hrun as <- <-.
  apply (reach_render st1 s1); [exact Hr1 |].
  apply (render_emits st1 Hh).
Qed.

Lemma main_loop_reachable polls st s st' s' :
  reachable st s -> main_loop polls st s = Ok (st', s') -> reachable st' s'.
Proof.
  revert st s. induction polls as [| evs polls IH]; intros st s Hreach Hrun.
  - now injection Hrun as <- <-.
  - cbn [main_loop] in Hrun. destruct (running st.2).
    + destruct (frame evs st s) as [[st1 s1] | ex] eqn:Hf;
        [| rewrite (bind_raise _ _ _ _ Hf) in Hrun; discriminate].
      rewrite (bind_ok _ _ _ _ _ Hf) in Hrun.
      apply (IH st1 s1); [| exact Hrun].
      exact (frame_reachable _ _ _ _ _ Hreach Hf).
    + now injection Hrun as <- <-.
Qed.

(** ** The event phase: the loop of the program handles all events *)

(** [process_events] refines [all_events_handled]: its result is the one the
    relation gives, and the relation gives no other. *)
Lemma process_events_handles_all evs st s :
  all_events_handled evs st s (process_events evs st s).
Proof.
  revert st s. induction evs as [| e evs IH]; intros st s.
  - constructor.
  - cbn [process_events].
    destruct (handle_event e st s) as [[st1 s1] | x] eqn:He.
    + rewrite (bind_ok _ _ _ _ _ He).
      exact (handled_next e evs st s st1 s1 _ He (IH st1 s1)).
    + rewrite (bind_raise _ _ _ _ He). now constructor.
Qed.

Lemma all_events_handled_process evs st s r :
  all_events_handled evs st s r -> process_events evs st s = r.
Proof.
  induction 1 as [st s | e evs st s st' s' r He _ IH | e evs st s x He].
  - reflexivity.
  - cbn [process_events]. now rewrite (bind_ok _ _ _ _ _ He).
  - cbn [process_events]. now rewrite (bind_raise _ _ _ _ He).
Qed.

(** What the handler of one event assigns. *)
Lemma handle_event_updates e st s st' s' :
  handle_event e st s = Ok (st', s') -> event_updates e st st'.
Proof.
  intros Hrun. destruct (is_resize e) eqn:He.
  - destruct e; try discriminate He.
    destruct (handle_resize_returns _ _ _ _ _ _ Hrun) as (_ & Hg & _).
    unfold event_updates. rewrite Hg. now split.
  - destruct st as [g l].
    destruct e as [| k | button pos | button pos | [mx my] | |];
      try discriminate He.
    + injection Hrun as <- _. reflexivity.
    + destruct k; injection Hrun as <- _; cbn; try reflexivity;
        try (now repeat split);
        first [apply py_min_Rmin | apply py_max_Rmax].
    + unfold handle_event in Hrun. unfold event_updates.
      destruct (decide (button = 1%Z)) as [-> | H1].
      { injection Hrun as <- _. cbn. repeat split; try reflexivity;
          intros; congruence. }
      destruct (decide (button = 4%Z)) as [-> | H4].
      { injection Hrun as <- _. cbn. repeat split; try congruence.
        intros _. apply py_max_Rmax. }
      destruct (decide (button = 5%Z)) as [-> | H5].
      { injection Hrun as <- _. cbn. repeat split; try congruence.
        intros _. apply py_min_Rmin. }
      injection Hrun as <- _. repeat split; congruence.
    + unfold handle_event in Hrun. unfold event_updates.
      destruct (decide (button = 1%Z)) as [-> | H1];
        injection Hrun as <- _; split; try congruence; reflexivity.
    + unfold handle_event in Hrun. unfold event_updates. cbn [fst snd].
      destruct (dragging l); injection Hrun as <- _; [| reflexivity].
      cbn. split; [reflexivity |]. split; [reflexivity |].
      split; [apply fmod_range; lra |]. split.
      * exists (Int_part ((cam_yaw g + IZR (mx - last_mx l) * 0.3) / 360)).
        unfold Py.fmod. ring.
      * now rewrite py_max_Rmax, py_min_Rmin.
    + injection Hrun as <- _. reflexivity.
Qed.

(** ** The claims about the camera and the lens parameters *)

(** C3. In every state reachable from the setup (pitch [-15], distance [18])
    by events and frames the pitch lies in [[-85, 85]] and the distance in
    [[3.5, 80]]; wheel up sets the distance to [max(3.5, d - 1)], wheel down
    to [min(80, d + 1)], a drag motion sets the pitch to
    [max(-85, min(85, pitch + dy * 0.3))], and key R restores [18] and
    [-15]. *)
Theorem camera_stays_in_bounds (st : state) (s : gl_state) :
  reachable st s ->
  (-85 <= cam_pitch st.1 <= 85 /\ 3.5 <= cam_dist st.1 <= 80) /\
  (cam_pitch initial_globals = -15 /\ cam_dist initial_globals = 18) /\
  (forall pos st' s',
     handle_event (MOUSEBUTTONDOWN 4 pos) st s = Ok (st', s') ->
     cam_dist st'.1 = Rmax 3.5 (cam_dist st.1 - 1)) /\
  (forall pos st' s',
     handle_event (MOUSEBUTTONDOWN 5 pos) st s = Ok (st', s') ->
     cam_dist st'.1 = Rmin 80 (cam_dist st.1 + 1)) /\
  (forall mx my st' s',
     dragging st.2 = true ->
     handle_event (MOUSEMOTION (mx, my)) st s = Ok (st', s') ->
     cam_pitch st'.1
     = Rmax (-85) (Rmin 85 (cam_pitch st.1 + IZR (my - last_my st.2) * 0.3))) /\
  (forall st' s',
     handle_event (KEYDOWN K_r) st s = Ok (st', s') ->
     cam_dist st'.1 = 18 /\ cam_pitch st'.1 = -15).
Proof.
  intros Hreach. split; [exact (proj1 (reachable_bounds st s Hreach)) |].
  split; [split; reflexivity |].
  destruct st as [g l]. cbn [fst snd].
  repeat split.
  - intros pos st' s' H. simpl in H. injection H as <- <-.
    cbn. apply py_max_Rmax.
  - intros pos st' s' H. simpl in H. injection H as <- <-.
    cbn. apply py_min_Rmin.
  - intros mx my st' s' Hd H. simpl in H. rewrite Hd in H.
    injection H as <- <-. cbn. now rewrite py_max_Rmax, py_min_Rmin.
  - simpl in H. now injection H as <- <-.
  - simpl in H. now injection H as <- <-.
Qed.

(** C4. In every state reachable from the setup (strength [0.16], radius
    [0.55]) the lens strength lies in [[0.02, 0.75]] and the lens radius in
    [[0.15, 0.95]]; '+' (or '=') sets the strength to [min(0.75, s + 0.02)],
    '-' to [max(0.02, s - 0.02)], '[' sets the radius to
    [max(0.15, r - 0.02)] and ']' to [min(0.95, r + 0.02)]. *)
Theorem lens_stays_in_bounds (st : state) (s : gl_state) :
  reachable st s ->
  (0.02 <= lens_strength st.1 <= 0.75 /\ 0.15 <= lens_radius st.1 <= 0.95) /\
  (lens_strength initial_globals = 0.16 /\ lens_radius initial_globals = 0.55) /\
  (forall k st' s',
     k = K_PLUS \/ k = K_EQUALS ->
     handle_event (KEYDOWN k) st s = Ok (st', s') ->
     lens_strength st'.1 = Rmin 0.75 (lens_strength st.1 + 0.02)) /\
  (forall st' s',
     handle_event (KEYDOWN K_MINUS) st s = Ok (st', s') ->
     lens_strength st'.1 = Rmax 0.02 (lens_strength st.1 - 0.02)) /\
  (forall st' s',
     handle_event (KEYDOWN K_LEFTBRACKET) st s = Ok (st', s') ->
     lens_radius st'.1 = Rmax 0.15 (lens_radius st.1 - 0.02)) /\
  (forall st' s',
     handle_event (KEYDOWN K_RIGHTBRACKET) st s = Ok (st', s') ->
     lens_radius st'.1 = Rmin 0.95 (lens_radius st.1 + 0.02)).
Proof.
  intros Hreach. split; [exact (proj2 (reachable_bounds st s Hreach)) |].
  split; [split; reflexivity |].
  destruct st as [g l]. cbn [fst snd].
  repeat split.
  - intros k st' s' [-> | ->] H; simpl in H; injection H as <- <-;
      cbn; apply py_min_Rmin.
  - intros st' s' H. simpl in H. injection H as <- <-. cbn. apply py_max_Rmax.
  - intros st' s' H. simpl in H. injection H as <- <-. cbn. apply py_max_Rmax.
  - intros st' s' H. simpl in H. injection H as <- <-. cbn. apply py_min_Rmin.
Qed.

(** C5. [set_camera] loads the identity and looks from
    [(d cos p sin y, d sin p, d cos p cos y)], with [p] and [y] the pitch and
    yaw in radians and [d] the distance, at [(0,0,0)] with up vector
    [(0,1,0)]; that eye lies on the sphere of radius [d] around the target. *)
Theorem set_camera_orbit (g : globals) (s : gl_state) :
  let yaw_r := cam_yaw g * PI / 180 in
  let pitch_r := cam_pitch g * PI / 180 in
  let x := cam_dist g * cos pitch_r * sin yaw_r in
  let y := cam_dist g * sin pitch_r in
  let z := cam_dist g * cos pitch_r * cos yaw_r in
  set_camera g s
  = Ok (tt, gl_do_all [glLoadIdentity; gluLookAt x y z 0 0 0 0 1 0] s) /\
  x * x + y * y + z * z = cam_dist g * cam_dist g.
Proof.
  intros yaw_r pitch_r x y z. split.
  - apply (set_camera_emits g).
  - subst x y z.
    pose proof (sin2_cos2 yaw_r) as Hy. pose proof (sin2_cos2 pitch_r) as Hp.
    unfold Rsqr in *.
    replace (cam_dist g * cos pitch_r * sin yaw_r
             * (cam_dist g * cos pitch_r * sin yaw_r)
             + cam_dist g * sin pitch_r * (cam_dist g * sin pitch_r)
             + cam_dist g * cos pitch_r * cos yaw_r
               * (cam_dist g * cos pitch_r * cos yaw_r))
      with (cam_dist g * cam_dist g
            * (cos pitch_r * cos pitch_r
               * (sin yaw_r * sin yaw_r + cos yaw_r * cos yaw_r)
               + sin pitch_r * sin pitch_r)) by ring.
    rewrite Hy. replace (cos pitch_r * cos pitch_r * 1 + sin pitch_r * sin pitch_r)
      with (sin pitch_r * sin pitch_r + cos pitch_r * cos pitch_r) by ring.
    rewrite Hp. ring.
Qed.

(** ** The claims about the offscreen target, the shaders and the frame *)

(** C6. In every reachable state the scene texture and the depth-stencil
    renderbuffer have the size of the window and are attached to [fbo]; a
    handled [VIDEORESIZE] sets the window size, deletes the previous
    framebuffer, texture and renderbuffer and only then creates the new ones,
    of the new size. *)
Theorem offscreen_target_follows_window (st : state) (s : gl_state)
    (w h : Z) (st' : state) (s' : gl_state) :
  reachable st s ->
  handle_event (VIDEORESIZE w h) st s = Ok (st', s') ->
  target_matches_window st s /\
  WIN_W st'.1 = w /\ WIN_H st'.1 = h /\
  target_matches_window st' s' /\
  textures s' = <[scene_tex st'.2 := Some (w, h)]>
                  (delete (scene_tex st.2) (textures s)) /\
  renderbuffers s' = <[rbo st'.2 := Some (w, h)]>
                       (delete (rbo st.2) (renderbuffers s)) /\
  framebuffers s' = <[fbo st'.2 := FramebufferObj (Some (scene_tex st'.2))
                                                  (Some (rbo st'.2))]>
                      (delete (fbo st.2) (framebuffers s)) /\
  calls s' = calls s
             ++ [pygame_display_set_mode w h; glViewport 0 0 w h]
             ++ perspective_calls w h
             ++ [glDeleteFramebuffers 1 [fbo st.2];
                 glDeleteTextures 1 [scene_tex st.2];
                 glDeleteRenderbuffers 1 [rbo st.2]]
             ++ [glGenTextures 1; glBindTexture GL_TEXTURE_2D (scene_tex st'.2);
                 glTexImage2D GL_TEXTURE_2D 0 GL_RGBA8 w h 0 GL_RGBA
                   GL_UNSIGNED_BYTE;
                 glTexParameteri GL_TEXTURE_2D GL_TEXTURE_MIN_FILTER GL_LINEAR;
                 glTexParameteri GL_TEXTURE_2D GL_TEXTURE_MAG_FILTER GL_LINEAR;
                 glBindTexture GL_TEXTURE_2D 0;
                 glGenRenderbuffers 1;
                 glBindRenderbuffer GL_RENDERBUFFER (rbo st'.2);
                 glRenderbufferStorage GL_RENDERBUFFER GL_DEPTH24_STENCIL8 w h;
                 glBindRenderbuffer GL_RENDERBUFFER 0;
                 glGenFramebuffers 1;
                 glBindFramebuffer GL_FRAMEBUFFER (fbo st'.2);
                 glFramebufferTexture2D GL_FRAMEBUFFER GL_COLOR_ATTACHMENT0
                   GL_TEXTURE_2D (scene_tex st'.2) 0;
                 glFramebufferRenderbuffer GL_FRAMEBUFFER
                   GL_DEPTH_STENCIL_ATTACHMENT GL_RENDERBUFFER (rbo st'.2);
                 glCheckFramebufferStatus GL_FRAMEBUFFER;
                 glBindFramebuffer GL_FRAMEBUFFER 0].
Proof.
  intros Hreach Hev.
  split; [exact (proj2 (reachable_target st s Hreach)) |].
  apply handle_resize_returns in Hev
    as (_ & Hg & Ht & fb & tex & rb & Hl & Htx & Hrb & Hfb & Hc).
  destruct st as [g l], st' as [g' l']. cbn [fst snd] in *. subst g' l'.
  cbn [WIN_W WIN_H set_WIN_W set_WIN_H scene_tex rbo fbo
       set_rbo set_scene_tex set_fbo].
  split; [reflexivity |]. split; [reflexivity |].
  split; [exact Ht |]. now repeat split.
Qed.

(** C7. A failed compilation makes [compile_shader], and so [link_program],
    raise [RuntimeError] with "Shader compile error:", a newline and the info
    log; a failed link makes [link_program] raise [RuntimeError] with
    "Program link error:", a newline and the info log; in each case [main]
    raises before its first frame.  When compilation and linking succeed
    nothing is raised, and the name returned is not [0] and names a compiled
    shader, respectively a linked program. *)
Theorem shader_failures_raise :
  (forall src ty s,
     compile_status drv ty src = false ->
     compile_shader src ty s
     = Raise (RuntimeError ("Shader compile error:" +:+ newline
                            +:+ shader_info_log drv ty src))) /\
  (forall vs_src fs_src s,
     compile_status drv GL_VERTEX_SHADER vs_src = false ->
     link_program vs_src fs_src s
     = Raise (RuntimeError ("Shader compile error:" +:+ newline
                            +:+ shader_info_log drv GL_VERTEX_SHADER vs_src))) /\
  (forall vs_src fs_src s,
     compile_status drv GL_VERTEX_SHADER vs_src = true ->
     compile_status drv GL_FRAGMENT_SHADER fs_src = false ->
     link_program vs_src fs_src s
     = Raise (RuntimeError ("Shader compile error:" +:+ newline
                            +:+ shader_info_log drv GL_FRAGMENT_SHADER fs_src))) /\
  (forall vs_src fs_src s,
     compile_status drv GL_VERTEX_SHADER vs_src = true ->
     compile_status drv GL_FRAGMENT_SHADER fs_src = true ->
     link_status drv (compiled_pair vs_src fs_src) = false ->
     link_program vs_src fs_src s
     = Raise (RuntimeError ("Program link error:" +:+ newline
                +:+ program_info_log drv (compiled_pair vs_src fs_src)))) /\
  (forall polls s,
     compile_status drv GL_VERTEX_SHADER POST_VS = false \/
     compile_status drv GL_FRAGMENT_SHADER POST_FS = false \/
     link_status drv (compiled_pair POST_VS POST_FS) = false ->
     exists msg, main polls s = Raise (RuntimeError msg)) /\
  (forall src ty s,
     compile_status drv ty src = true ->
     exists sid s',
       compile_shader src ty s = Ok (sid, s') /\ sid <> 0%N /\
       shaders s' !! sid = Some (ShaderObj ty src true false)) /\
  (forall vs_src fs_src s,
     compile_status drv GL_VERTEX_SHADER vs_src = true ->
     compile_status drv GL_FRAGMENT_SHADER fs_src = true ->
     link_status drv (compiled_pair vs_src fs_src) = true ->
     exists pid s' vs fs,
       link_program vs_src fs_src s = Ok (pid, s') /\ pid <> 0%N /\
       programs s' !! pid = Some (ProgramObj [vs; fs] true)).
Proof.
  split; [exact compile_shader_fails |].
  split; [exact link_program_vs_fails |].
  split; [exact link_program_fs_fails |].
  split.
  { intros vs_src fs_src s Hvs Hfs Hl.
    destruct (link_program_linking vs_src fs_src s Hvs Hfs)
      as [[_ Hr] | [Hl' _]]; [exact Hr | congruence]. }
  split; [exact main_raises_on_shader_failure |].
  split.
  { intros src ty s Hc.
    destruct (compile_shader_succeeds src ty s Hc) as (s' & Hrun & Hsh & _).
    eexists _, s'. split; [exact Hrun |].
    split; [apply fresh_name_nonzero |].
    rewrite Hsh. apply lookup_insert_eq. }
  intros vs_src fs_src s Hvs Hfs Hl.
  destruct (link_program_linking vs_src fs_src s Hvs Hfs)
    as [[Hl' _] | (_ & vs & fs & s' & Hrun & Hp & _)]; [congruence |].
  exists (fresh_name (dom (programs s))), s', vs, fs.
  split; [exact Hrun |]. split; [apply fresh_name_nonzero |].
  rewrite Hp. apply lookup_insert_eq.
Qed.

Ltac in_list := repeat first [left; reflexivity | right].

(** C8, as amended.  The event phase handles every event of the poll, in
    the order polled, each from the state the one before it left
    ([all_events_handled]), and a handled event has updated the camera, the
    toggles and the other variables as [event_updates] says.  From a reachable
    state, an iteration in which no handler raises then performs its phases
    in this order: the handling of the events, which draws and presents
    nothing, then binding [fbo], drawing the scene and binding the default
    framebuffer, then the postprocess program on the scene texture, then the
    overlay, then the flip and the tick: exactly these calls, none of the
    passes rebinding the framebuffer or presenting.  An iteration in which
    the handler of an event raises ends there, with that exception: the
    events after it are not handled and nothing is rendered or presented. *)
Theorem frame_phases_in_order (evs : list event) (st : state) (s : gl_state) :
  reachable st s ->
  (exists r, all_events_handled evs st s r) /\
  (forall e st0 s0 st' s',
     handle_event e st0 s0 = Ok (st', s') -> event_updates e st0 st') /\
  (forall x,
     all_events_handled evs st s (Raise x) -> frame evs st s = Raise x) /\
  (forall st1 s1,
     all_events_handled evs st s (Ok (st1, s1)) ->
     exists event_calls s',
       frame evs st s = Ok (st1, s') /\
       calls s1 = calls s ++ event_calls /\
       Forall (fun c => event_call c = true) event_calls /\
       calls s' = calls s ++ event_calls
                  ++ ([glBindFramebuffer GL_FRAMEBUFFER (fbo st1.2)]
                      ++ scene_body_calls st1.1
                      ++ [glBindFramebuffer GL_FRAMEBUFFER 0])
                  ++ post_pass_calls st1
                  ++ overlay_calls (WIN_W st1.1) (WIN_H st1.1)
                       (event_horizon_radius_px st1.1)
                  ++ [pygame_display_flip; clock_tick 60] /\
       Forall (fun c => inner_call c = true) (scene_body_calls st1.1) /\
       Forall (fun c => inner_call c = true) (post_pass_calls st1) /\
       Forall (fun c => inner_call c = true)
              (overlay_calls (WIN_W st1.1) (WIN_H st1.1)
                 (event_horizon_radius_px st1.1)) /\
       In (glClear [GL_COLOR_BUFFER_BIT; GL_DEPTH_BUFFER_BIT])
          (scene_body_calls st1.1) /\
       In (glUseProgram (post_prog st1.2)) (post_pass_calls st1) /\
       In (glBindTexture GL_TEXTURE_2D (scene_tex st1.2)) (post_pass_calls st1) /\
       In (glDrawElements GL_TRIANGLES 6 GL_UNSIGNED_INT 0)
          (post_pass_calls st1) /\
       In (glBegin GL_TRIANGLE_FAN)
          (overlay_calls (WIN_W st1.1) (WIN_H st1.1)
             (event_horizon_radius_px st1.1))).
Proof.
  intros Hreach.
  split; [eexists; apply process_events_handles_all |].
  split; [exact handle_event_updates |].
  split.
  { intros x Hx. apply frame_raises. now apply all_events_handled_process. }
  intros st1 s1 Hall.
  pose proof (all_events_handled_process _ _ _ _ Hall) as Hev.
  pose proof (process_events_reachable _ _ _ _ _ Hreach Hev) as Hr1.
  destruct (reachable_target _ _ Hr1) as (Hh & _).
  destruct (process_events_calls _ _ _ _ _ Hev) as (l & Hc & Hl).
  exists l, (gl_do_all (render_calls st1) s1).
  split; [now apply frame_after_events |].
  split; [exact Hc |]. split; [exact Hl |].
  split.
  { rewrite calls_gl_do_all, Hc. unfold render_calls, scene_pass_calls,
      present_calls. now rewrite <- !app_assoc. }
  split; [apply scene_body_calls_inner |].
  split; [apply post_pass_calls_inner |].
  split; [apply overlay_calls_inner |].
  destruct st1 as [g1 l1]. cbn [fst snd].
  split; [unfold scene_body_calls; cbn [app]; in_list |].
  unfold post_pass_calls.
  split; [in_list |]. split; [in_list |]. split; [in_list |].
  unfold overlay_calls. apply in_or_app. right. apply in_or_app. left.
  cbn [List.map concat]. unfold ring_calls at 1. cbn [app]. in_list.
Qed.

(** C9, as amended. Handling a keyboard or mouse event never raises and makes
    no call; it leaves the window size, the event horizon radius and the
    names of the framebuffer, scene texture, renderbuffer, quad buffers and
    postprocess program as they are.  (It may change the camera, the grid and
    lensing flags, the lens parameters and the loop variables [running],
    [dragging], [last_mx], [last_my].) *)
Theorem input_events_keep_window_and_objects (e : event) (st : state)
    (s : gl_state) :
  is_input_event e = true ->
  exists st',
    handle_event e st s = Ok (st', s) /\
    WIN_W st'.1 = WIN_W st.1 /\ WIN_H st'.1 = WIN_H st.1 /\
    event_horizon_radius_px st'.1 = event_horizon_radius_px st.1 /\
    fbo st'.2 = fbo st.2 /\ scene_tex st'.2 = scene_tex st.2 /\
    rbo st'.2 = rbo st.2 /\ fs_vbo st'.2 = fs_vbo st.2 /\
    fs_ebo st'.2 = fs_ebo st.2 /\ post_prog st'.2 = post_prog st.2.
Proof.
  intros He.
  exact (handle_event_not_resize e st s (input_event_not_resize e He)).
Qed.

(** C10. With lensing off the strength uniform handed to the shader is [0]:
    the postprocess pass performs [glUniform1f] of [0] at the location of
    [uStrength]; a fragment outside the event horizon then has a zero
    displacement, the scene is sampled once, at its own coordinate, and the
    colour written is that sample with red, green and blue multiplied by the
    vignette factor and alpha kept; the factor lies in [[0.8, 1]] and, in a
    window of positive size, is [max(0.8, 1 - dnorm^2 / 4)]; a fragment at
    distance at most the event horizon radius is black. *)
Theorem lensing_off_samples_in_place (g : globals) :
  enable_lensing g = false ->
  let u := post_uniforms g in
  PostFS.uStrength u = 0 /\
  (forall l s,
     postprocess_pass (g, l) s = Ok (tt, gl_do_all (post_pass_calls (g, l)) s) /\
     In (glUniform1f (uniform_location drv "uStrength") 0)
        (post_pass_calls (g, l))) /\
  (forall fc vUV scene,
     center_distance u fc > PostFS.uEHpx u ->
     let k := Glsl.clamp (1 - Glsl.pow (normalized_distance u fc) 2 * 0.25)
                         0.8 1 in
     PostFS.disp u fc = Vec2 0 0 /\
     0.8 <= k <= 1 /\
     (0 < Rmin (vx (PostFS.uResolution u)) (vy (PostFS.uResolution u)) ->
      k = Rmax 0.8 (1 - normalized_distance u fc * normalized_distance u fc
                        / 4)) /\
     PostFS.main u scene fc vUV
     = PostFS.FragOut
         (Vec4 (cr (scene vUV) * k) (cg (scene vUV) * k) (cb (scene vUV) * k)
               (ca (scene vUV)))
         [vUV]) /\
  (forall fc vUV scene,
     center_distance u fc <= PostFS.uEHpx u ->
     PostFS.main u scene fc vUV = PostFS.FragOut (Vec4 0 0 0 1) []).
Proof.
  intros Hoff u.
  assert (Hs : PostFS.uStrength u = 0).
  { unfold u, post_uniforms. cbn [PostFS.uStrength]. now rewrite Hoff. }
  split; [exact Hs |]. split; [| split].
  - intros l s. split; [apply postprocess_pass_emits |].
    unfold post_pass_calls. fold u. rewrite Hs. in_list.
  - intros fc vUV scene Hd k.
    assert (Hdisp : PostFS.disp u fc = Vec2 0 0)
      by (apply disp_zero_of_warp_zero, warp_zero_strength, Hs).
    split; [exact Hdisp |]. split; [apply glsl_clamp_bounds; lra |].
    split; [intros Hmin; now apply vignette_clamp_value |].
    rewrite <- d_center_distance in Hd.
    rewrite (main_outside u scene fc vUV Hd).
    rewrite (uv2_of_disp_zero u fc vUV Hdisp).
    unfold PostFS.vig. rewrite dnorm_normalized_distance. reflexivity.
  - intros fc vUV scene Hd. apply main_inside.
    now rewrite d_center_distance.
Qed.

(** * Further properties *)

(** ** The shader: size, direction and shape of the displacement *)

(** The two factors of the warp inside the radius. *)
Lemma warp_factors dn r :
  0 <= dn -> dn < r ->
  0 <= 1 - dn / r <= 1 /\ 0 < 1 / (dn + 0.02) <= 50.
Proof.
  intros Hdn Hlt. assert (Hr : 0 < r) by lra. split.
  - assert (0 <= dn / r < 1); [| lra]. split.
    + apply Rmult_le_pos; [lra | apply Rlt_le, Rinv_0_lt_compat, Hr].
    + apply (Rmult_lt_reg_r r); [exact Hr |].
      unfold Rdiv. rewrite Rmult_assoc, Rinv_l by lra. lra.
  - split.
    + apply Rdiv_lt_0_compat; lra.
    + apply (Rmult_le_reg_r (dn + 0.02)); [lra |].
      unfold Rdiv. rewrite Rmult_assoc, Rinv_l by lra. lra.
Qed.

(** X1. For a non-negative strength and a window of positive size the warp
    magnitude is never negative and never exceeds [strength / 0.02], that is
    50 times the strength: the [+ 0.02] keeps it bounded at the centre. *)
Theorem warp_bounded (u : PostFS.uniforms) (fc : vec2) :
  0 < Rmin (vx (PostFS.uResolution u)) (vy (PostFS.uResolution u)) ->
  0 <= PostFS.uStrength u ->
  0 <= PostFS.warp u fc <= 50 * PostFS.uStrength u.
Proof.
  intros Hmin Hs.
  pose proof (normalized_distance_nonneg u fc Hmin) as Hdn.
  rewrite <- dnorm_normalized_distance in Hdn.
  unfold PostFS.warp, PostFS.r.
  destruct (Rlt_dec _ _) as [Hlt | _]; [| lra].
  set (dn := PostFS.dnorm u fc) in *. set (r := PostFS.uRadius u) in *.
  destruct (warp_factors dn r Hdn Hlt) as (Ht & Hi).
  cbv zeta. split.
  - apply Rmult_le_pos; [apply Rmult_le_pos |]; lra.
  - assert (PostFS.uStrength u * (1 - dn / r) <= PostFS.uStrength u) by nra.
    assert (0 <= PostFS.uStrength u * (1 - dn / r)) by nra.
    nra.
Qed.

(** X2. Further from the centre the warp is not stronger: of two fragments
    the one with the larger normalized distance has the smaller or equal
    warp (for a non-negative strength); beyond the radius both are 0. *)
Theorem warp_decreases_with_distance (u : PostFS.uniforms) (fc1 fc2 : vec2) :
  0 < Rmin (vx (PostFS.uResolution u)) (vy (PostFS.uResolution u)) ->
  0 <= PostFS.uStrength u ->
  normalized_distance u fc1 <= normalized_distance u fc2 ->
  PostFS.warp u fc2 <= PostFS.warp u fc1.
Proof.
  intros Hmin Hs Hle.
  pose proof (normalized_distance_nonneg u fc1 Hmin) as H1.
  rewrite <- !dnorm_normalized_distance in *.
  unfold PostFS.warp. unfold PostFS.r.
  set (d1 := PostFS.dnorm u fc1) in *. set (d2 := PostFS.dnorm u fc2) in *.
  set (r := PostFS.uRadius u) in *. set (k := PostFS.uStrength u) in *.
  destruct (Rlt_dec d2 r) as [H2 | H2].
  2: { destruct (Rlt_dec d1 r) as [H1' | _]; [| lra].
       destruct (warp_factors d1 r H1 H1') as (Ht & Hi).
       cbv zeta. apply Rmult_le_pos; [apply Rmult_le_pos |]; lra. }
  destruct (Rlt_dec d1 r) as [_ | Hn]; [| lra].
  cbv zeta. assert (Hr : 0 < r) by lra.
  assert (Ht : 0 <= 1 - d2 / r <= 1 - d1 / r).
  { assert (d1 / r <= d2 / r /\ d2 / r < 1); [| lra]. split.
    - apply Rmult_le_compat_r; [apply Rlt_le, Rinv_0_lt_compat, Hr | exact Hle].
    - apply (Rmult_lt_reg_r r); [exact Hr |].
      unfold Rdiv. rewrite Rmult_assoc, Rinv_l by lra. lra. }
  assert (Hi : 0 < 1 / (d2 + 0.02) <= 1 / (d1 + 0.02)).
  { split; [apply Rdiv_lt_0_compat; lra |].
    unfold Rdiv. rewrite !Rmult_1_l. apply Rinv_le_contravar; lra. }
  assert (0 <= k * (1 - d2 / r) <= k * (1 - d1 / r)) by nra.
  nra.
Qed.

(** X3. The warp depends on the distance from the centre only: two
    fragments at the same distance from the centre of the window have the
    same warp, whatever their direction; in particular a fragment and its
    mirror image through the centre, which are at the same distance. *)
Theorem warp_depends_on_distance_only (u : PostFS.uniforms) (fc fc' : vec2) :
  (center_distance u fc = center_distance u fc' ->
   PostFS.warp u fc = PostFS.warp u fc') /\
  (let mirror := Vec2 (vx (PostFS.uResolution u) - vx fc)
                      (vy (PostFS.uResolution u) - vy fc) in
   center_distance u mirror = center_distance u fc /\
   PostFS.warp u mirror = PostFS.warp u fc).
Proof.
  assert (Hsame : forall a b,
            center_distance u a = center_distance u b ->
            PostFS.warp u a = PostFS.warp u b).
  { intros a b Hd. unfold PostFS.warp. rewrite !dnorm_normalized_distance.
    unfold normalized_distance. now rewrite Hd. }
  split; [apply Hsame |].
  intros mirror.
  assert (Hd : center_distance u mirror = center_distance u fc).
  { unfold center_distance, mirror. cbn [vx vy]. apply f_equal. simpl. nra. }
  split; [exact Hd | now apply Hsame].
Qed.

Lemma center_distance_square u fc :
  center_distance u fc * center_distance u fc
  = (vx fc - vx (PostFS.uResolution u) / 2) ^ 2
    + (vy fc - vy (PostFS.uResolution u) / 2) ^ 2.
Proof.
  unfold center_distance. apply sqrt_sqrt.
  apply Rplus_le_le_0_compat; apply pow2_ge_0.
Qed.

(** X4. The displacement is radial.  Measured in pixels (its components times
    the resolution) it is the vector from the centre to the fragment scaled by
    [warp * minHalf / d], so its length is [|warp| * minHalf] pixels. *)
Theorem displacement_is_radial (u : PostFS.uniforms) (fc : vec2) :
  let w := vx (PostFS.uResolution u) in
  let h := vy (PostFS.uResolution u) in
  let d := center_distance u fc in
  let m := PostFS.warp u fc * (Rmin w h / 2) in
  w <> 0 -> h <> 0 -> d > 1e-5 ->
  vx (PostFS.disp u fc) * w = m / d * (vx fc - w / 2) /\
  vy (PostFS.disp u fc) * h = m / d * (vy fc - h / 2) /\
  sqrt ((vx (PostFS.disp u fc) * w) ^ 2 + (vy (PostFS.disp u fc) * h) ^ 2)
  = Rabs m.
Proof.
  intros w h d m Hw Hh Hd.
  assert (Hx : vx (PostFS.disp u fc) * w = m / d * (vx fc - w / 2)).
  { unfold PostFS.disp, PostFS.dir. rewrite d_center_distance. fold d.
    destruct (Rgt_dec d 1e-5); [| contradiction].
    unfold PostFS.minHalf, PostFS.p, PostFS.res. rewrite glsl_min_Rmin.
    cbn [vx vy Glsl.vmul Glsl.vscale Glsl.vdivs Glsl.sdivv Glsl.vsub
         Glsl.scalev].
    fold w h. unfold m. replace 0.5 with (/ 2) by lra. field. split; lra. }
  assert (Hy : vy (PostFS.disp u fc) * h = m / d * (vy fc - h / 2)).
  { unfold PostFS.disp, PostFS.dir. rewrite d_center_distance. fold d.
    destruct (Rgt_dec d 1e-5); [| contradiction].
    unfold PostFS.minHalf, PostFS.p, PostFS.res. rewrite glsl_min_Rmin.
    cbn [vx vy Glsl.vmul Glsl.vscale Glsl.vdivs Glsl.sdivv Glsl.vsub
         Glsl.scalev].
    fold w h. unfold m. replace 0.5 with (/ 2) by lra. field. split; lra. }
  split; [exact Hx |]. split; [exact Hy |].
  rewrite Hx, Hy. rewrite <- sqrt_Rsqr_abs. apply f_equal.
  pose proof (center_distance_square u fc) as Hsq. fold d w h in Hsq.
  unfold Rsqr.
  replace ((m / d * (vx fc - w / 2)) ^ 2 + (m / d * (vy fc - h / 2)) ^ 2)
    with (m / d * (m / d) * ((vx fc - w / 2) ^ 2 + (vy fc - h / 2) ^ 2))
    by ring.
  rewrite <- Hsq. field. lra.
Qed.

(** X5. In a window of positive size the vignette factor is
    [max(0.8, 1 - dnorm^2 / 4)]: [1] at the centre, never above [1], and
    exactly [0.8] from [dnorm^2 = 0.8] on. *)
Theorem vignette_factor (u : PostFS.uniforms) (fc : vec2) :
  0 < Rmin (vx (PostFS.uResolution u)) (vy (PostFS.uResolution u)) ->
  let dn := normalized_distance u fc in
  Glsl.clamp (PostFS.vig u fc) 0.8 1 = Rmax 0.8 (1 - dn * dn / 4) /\
  (0.8 <= dn * dn -> Glsl.clamp (PostFS.vig u fc) 0.8 1 = 0.8).
Proof.
  intros Hmin dn.
  pose proof (normalized_distance_nonneg u fc Hmin) as Hdn. fold dn in Hdn.
  assert (Hv : PostFS.vig u fc = 1 - dn * dn / 4).
  { unfold PostFS.vig. rewrite dnorm_normalized_distance. fold dn.
    rewrite glsl_pow_2 by exact Hdn. lra. }
  assert (Hc : Glsl.clamp (PostFS.vig u fc) 0.8 1 = Rmax 0.8 (1 - dn * dn / 4)).
  { rewrite Hv. unfold Glsl.clamp. rewrite glsl_min_Rmin, glsl_max_Rmax.
    assert (0 <= dn * dn) by nra.
    unfold Rmin, Rmax.
    repeat destruct (Rle_dec _ _); lra. }
  split; [exact Hc |].
  intros Hfar. rewrite Hc. unfold Rmax. destruct (Rle_dec _ _); lra.
Qed.

(** ** The camera and the constants along the loop *)

(** Invariants of the globals: what holds initially and is kept by every
    handled event holds in every reachable state. *)
Lemma reachable_globals_invariant (P : globals -> Prop) :
  P initial_globals ->
  (forall e st s st' s',
     handle_event e st s = Ok (st', s') -> P st.1 -> P st'.1) ->
  forall st s, reachable st s -> P st.1.
Proof.
  intros Hinit Hstep st s Hreach.
  induction Hreach as [st s Hsetup | e st s st' s' _ IH Hev | st s s' _ IH _].
  - apply main_setup_spec in Hsetup as (-> & _). exact Hinit.
  - exact (Hstep e st s st' s' Hev IH).
  - exact IH.
Qed.

(** X6. In every reachable state the yaw lies in [[0, 360]]: a drag reduces
    it modulo 360, the setup and key R set it to 35. *)
Theorem yaw_stays_in_range (st : state) (s : gl_state) :
  reachable st s -> 0 <= cam_yaw st.1 <= 360.
Proof.
  apply (reachable_globals_invariant (fun g => 0 <= cam_yaw g <= 360)).
  - simpl. lra.
  - intros e [g l] s0 st' s' Hev Hg. cbn [fst] in Hg.
    destruct (is_resize e) eqn:He.
    + destruct e; try discriminate He.
      apply handle_resize_returns in Hev as (_ & -> & _). exact Hg.
    + destruct e as [| k | button pos | button pos | [mx my] | w h |];
        try discriminate He; simpl in Hev.
      * now injection Hev as <- <-.
      * destruct k; injection Hev as <- <-; cbn; lra.
      * repeat destruct (decide _); injection Hev as <- <-; exact Hg.
      * destruct (decide _); injection Hev as <- <-; exact Hg.
      * destruct (dragging l); injection Hev as <- <-; cbn; [| exact Hg].
        pose proof (fmod_range (cam_yaw g + IZR (mx - last_mx l) * 0.3) 360).
        lra.
      * now injection Hev as <- <-.
Qed.

(** X7. The pitch clamp keeps the camera off the vertical axis: in every
    reachable state the cosine of the pitch is positive and the eye has a
    non-zero horizontal distance from the target, so the view direction is
    never parallel to the up vector [(0,1,0)] of [gluLookAt]. *)
Theorem camera_never_at_pole (st : state) (s : gl_state) :
  reachable st s ->
  0 < cos (cam_pitch st.1 * PI / 180) /\
  0 < eye_x st.1 * eye_x st.1 + eye_z st.1 * eye_z st.1.
Proof.
  intros Hreach.
  destruct (reachable_bounds st s Hreach) as ((Hp & Hd) & _).
  pose proof PI_RGT_0 as Hpi.
  assert (Hc : 0 < cos (cam_pitch st.1 * PI / 180)).
  { apply cos_gt_0; nra. }
  split; [exact Hc |].
  unfold eye_x, eye_z.
  set (p := cam_pitch st.1 * PI / 180) in *.
  set (y := cam_yaw st.1 * PI / 180).
  pose proof (sin2_cos2 y) as Hy. unfold Rsqr in Hy.
  replace (cam_dist st.1 * cos p * sin y * (cam_dist st.1 * cos p * sin y)
           + cam_dist st.1 * cos p * cos y * (cam_dist st.1 * cos p * cos y))
    with (cam_dist st.1 * cos p * (cam_dist st.1 * cos p)
          * (sin y * sin y + cos y * cos y)) by ring.
  rewrite Hy, Rmult_1_r.
  assert (0 < cam_dist st.1 * cos p) by (apply Rmult_lt_0_compat; lra).
  nra.
Qed.

(** X8. No event changes the event horizon radius: in every reachable state
    it is 70, which is both the [uEHpx] uniform of the shader and the radius
    of the black disc of the overlay. *)
Theorem event_horizon_radius_constant (st : state) (s : gl_state) :
  reachable st s ->
  event_horizon_radius_px st.1 = 70%Z /\
  PostFS.uEHpx (post_uniforms st.1) = 70 /\
  overlay_pass st
  = draw_black_hole_overlay (WIN_W st.1) (WIN_H st.1) 70.
Proof.
  intros Hreach.
  assert (He : event_horizon_radius_px st.1 = 70%Z).
  { revert st s Hreach.
    apply (reachable_globals_invariant
             (fun g => event_horizon_radius_px g = 70%Z)); [reflexivity |].
    intros e st s st' s' Hev Hg.
    destruct (is_resize e) eqn:Hr.
    - destruct e; try discriminate Hr.
      apply handle_resize_returns in Hev as (_ & -> & _). exact Hg.
    - destruct (handle_event_not_resize e st s Hr) as (st'' & Hok & _ & _ & E & _).
      rewrite Hok in Hev. injection Hev as <- <-. now rewrite E. }
  split; [exact He |]. split.
  - unfold post_uniforms. cbn [PostFS.uEHpx]. now rewrite He.
  - unfold overlay_pass. now rewrite He.
Qed.

(** ** The loop: returning, raising, quitting *)

Lemma process_events_app evs1 evs2 st s :
  process_events (evs1 ++ evs2) st s
  = bind (process_events evs1 st) (process_events evs2) s.
Proof.
  revert st s. induction evs1 as [| e evs1 IH]; intros st s.
  - reflexivity.
  - cbn [app process_events]. rewrite bind_assoc.
    destruct (handle_event e st s) as [[st1 s1] | ex] eqn:Hev.
    + rewrite !(bind_ok _ _ _ _ _ Hev). apply IH.
    + now rewrite !(bind_raise _ _ _ _ Hev).
Qed.

Lemma process_events_no_resize evs st s :
  Forall (fun e => is_resize e = false) evs ->
  exists st', process_events evs st s = Ok (st', s) /\
              same_window_and_objects st st'.
Proof.
  intros Hevs. revert st. induction Hevs as [| e evs He _ IH]; intros st.
  - exists st. split; [reflexivity |]. unfold same_window_and_objects. tauto.
  - destruct (handle_event_not_resize e st s He) as (st1 & Hok & H1).
    destruct (IH st1) as (st' & Hrun & H2).
    exists st'. split.
    + cbn [process_events]. now rewrite (bind_ok _ _ _ _ _ Hok).
    + unfold same_window_and_objects in *.
      destruct H1 as (? & ? & ? & ? & ? & ? & ? & ? & ?).
      destruct H2 as (? & ? & ? & ? & ? & ? & ? & ? & ?).
      repeat split; congruence.
Qed.

Lemma handle_event_running e st s st' s' :
  handle_event e st s = Ok (st', s') ->
  running st'.2 = running st.2 && negb (is_quit e).
Proof.
  intros Hev. destruct (is_resize e) eqn:He.
  - destruct e; try discriminate He.
    apply handle_resize_returns in Hev as (_ & _ & _ & fb & tex & rb & -> & _).
    destruct st as [g l]. cbn. now rewrite andb_true_r.
  - destruct st as [g l].
    destruct e as [| k | button pos | button pos | [mx my] | w h |];
      try discriminate He; simpl in Hev.
    + injection Hev as <- <-. cbn. now rewrite andb_false_r.
    + destruct k; injection Hev as <- <-; cbn;
        rewrite ?andb_false_r, ?andb_true_r; reflexivity.
    + repeat destruct (decide _); injection Hev as <- <-; cbn;
        now rewrite andb_true_r.
    + destruct (decide _); injection Hev as <- <-; cbn; now rewrite andb_true_r.
    + destruct (dragging l); injection Hev as <- <-; cbn;
        now rewrite andb_true_r.
    + injection Hev as <- <-. cbn. now rewrite andb_true_r.
Qed.

Lemma process_events_running evs st s st' s' :
  process_events evs st s = Ok (st', s') ->
  running st'.2 = running st.2 && negb (existsb is_quit evs).
Proof.
  revert st s. induction evs as [| e evs IH]; intros st s Hrun.
  - injection Hrun as <- <-. cbn. now rewrite andb_true_r.
  - cbn [process_events] in Hrun.
    destruct (handle_event e st s) as [[st1 s1] | ex] eqn:Hev;
      [| rewrite (bind_raise _ _ _ _ Hev) in Hrun; discriminate].
    rewrite (bind_ok _ _ _ _ _ Hev) in Hrun.
    rewrite (IH _ _ Hrun), (handle_event_running _ _ _ _ _ Hev).
    cbn [existsb]. rewrite negb_orb. now rewrite andb_assoc.
Qed.

(** What a completed iteration comes from. *)
Lemma frame_returns_inv evs st s st' s' :
  reachable st s ->
  frame evs st s = Ok (st', s') ->
  exists s1, process_events evs st s = Ok (st', s1) /\
             WIN_H st'.1 <> 0%Z /\
             s' = gl_do_all (render_calls st') s1.
Proof.
  intros Hreach Hrun.
  destruct (process_events evs st s) as [[st1 s1] | ex] eqn:Hev;
    [| rewrite (frame_raises _ _ _ _ Hev) in Hrun; discriminate].
  pose proof (process_events_reachable _ _ _ _ _ Hreach Hev) as Hr1.
  destruct (reachable_target _ _ Hr1) as (Hh & _).
  rewrite (frame_after_events _ _ _ _ _ Hev Hh) in Hrun.
  injection Hrun as <- <-. exists s1.
  split; [reflexivity |]. split; [exact Hh | reflexivity].
Qed.

(** X9. From a reachable state an iteration whose poll has no [VIDEORESIZE]
    never raises: it returns, with the window size unchanged, after exactly
    the calls of the render part. *)
Theorem iteration_without_resize_returns (evs : list event) (st : state)
    (s : gl_state) :
  reachable st s ->
  Forall (fun e => is_resize e = false) evs ->
  exists st',
    frame evs st s = Ok (st', gl_do_all (render_calls st') s) /\
    WIN_W st'.1 = WIN_W st.1 /\ WIN_H st'.1 = WIN_H st.1 /\
    calls (gl_do_all (render_calls st') s) = calls s ++ render_calls st'.
Proof.
  intros Hreach Hevs.
  destruct (process_events_no_resize evs st s Hevs) as (st' & Hev & Hw & Hh & _).
  exists st'. split.
  - apply (frame_after_events _ _ _ _ _ Hev). rewrite Hh.
    exact (proj1 (reachable_target st s Hreach)).
  - split; [exact Hw |]. split; [exact Hh |]. apply calls_gl_do_all.
Qed.

(** X10. A [VIDEORESIZE] to height 0 makes the iteration, and with it the
    loop, raise [ZeroDivisionError]: the handler computes the aspect ratio
    [w / h] before anything else is rendered. *)
Theorem zero_height_resize_raises (evs1 evs2 : list event) (w : Z)
    (polls : list (list event)) (st st1 : state) (s s1 : gl_state) :
  running st.2 = true ->
  process_events evs1 st s = Ok (st1, s1) ->
  handle_event (VIDEORESIZE w 0) st1 s1 = Raise ZeroDivisionError /\
  frame (evs1 ++ VIDEORESIZE w 0 :: evs2) st s = Raise ZeroDivisionError /\
  main_loop ((evs1 ++ VIDEORESIZE w 0 :: evs2) :: polls) st s
  = Raise ZeroDivisionError.
Proof.
  intros Hrunning Hev.
  assert (Hh : handle_event (VIDEORESIZE w 0) st1 s1 = Raise ZeroDivisionError).
  { destruct st1 as [g l]. apply handle_resize_zero_height. }
  assert (Hf : frame (evs1 ++ VIDEORESIZE w 0 :: evs2) st s
               = Raise ZeroDivisionError).
  { apply frame_raises. rewrite process_events_app.
    rewrite (bind_ok _ _ _ _ _ Hev). cbn [process_events].
    now rewrite (bind_raise _ _ _ _ Hh). }
  split; [exact Hh |]. split; [exact Hf |].
  cbn [main_loop]. rewrite Hrunning. now rewrite (bind_raise _ _ _ _ Hf).
Qed.

(** X11. Once [running] is false no event sets it again, and a quit event
    (QUIT, ESC, Q) makes it false: the iteration that polls it still renders
    its frame, and it is the last iteration of the loop. *)
Theorem quit_ends_loop (evs : list event) (polls : list (list event))
    (st st' : state) (s s' : gl_state) :
  reachable st s ->
  running st.2 = true ->
  existsb is_quit evs = true ->
  frame evs st s = Ok (st', s') ->
  running st'.2 = false /\
  (exists s1, s' = gl_do_all (render_calls st') s1) /\
  main_loop (evs :: polls) st s = Ok (st', s').
Proof.
  intros Hreach Hrunning Hquit Hframe.
  destruct (frame_returns_inv _ _ _ _ _ Hreach Hframe) as (s1 & Hev & _ & Hs').
  assert (Hstop : running st'.2 = false).
  { rewrite (process_events_running _ _ _ _ _ Hev), Hquit.
    now rewrite andb_false_r. }
  split; [exact Hstop |]. split; [now exists s1 |].
  cbn [main_loop]. rewrite Hrunning, (bind_ok _ _ _ _ _ Hframe).
  destruct polls; cbn [main_loop]; [reflexivity | now rewrite Hstop].
Qed.

Lemma frame_keeps_running evs st s :
  reachable st s -> running st.2 = true ->
  Forall (fun e => is_resize e = false) evs -> existsb is_quit evs = false ->
  exists st' s',
    frame evs st s = Ok (st', s') /\ reachable st' s' /\ running st'.2 = true.
Proof.
  intros Hreach Hrunning Hevs Hnoquit.
  destruct (process_events_no_resize evs st s Hevs) as (st' & Hev & _ & Hh & _).
  assert (Hf : frame evs st s = Ok (st', gl_do_all (render_calls st') s)).
  { apply (frame_after_events _ _ _ _ _ Hev). rewrite Hh.
    exact (proj1 (reachable_target st s Hreach)). }
  exists st', (gl_do_all (render_calls st') s).
  split; [exact Hf |]. split; [exact (frame_reachable _ _ _ _ _ Hreach Hf) |].
  now rewrite (process_events_running _ _ _ _ _ Hev), Hrunning, Hnoquit.
Qed.

Lemma main_loop_keeps_running polls rest st s :
  reachable st s -> running st.2 = true ->
  Forall (fun evs => Forall (fun e => is_resize e = false) evs /\
                     existsb is_quit evs = false) polls ->
  exists st' s',
    main_loop (polls ++ rest) st s = main_loop rest st' s' /\
    reachable st' s' /\ running st'.2 = true.
Proof.
  intros Hreach Hrunning Hpolls. revert st s Hreach Hrunning.
  induction Hpolls as [| evs polls [Hevs Hnoquit] _ IH];
    intros st s Hreach Hrunning.
  - now exists st, s.
  - destruct (frame_keeps_running evs st s Hreach Hrunning Hevs Hnoquit)
      as (st1 & s1 & Hf & Hr1 & Hrun1).
    destruct (IH st1 s1 Hr1 Hrun1) as (st' & s' & Hloop & Hr' & Hrun').
    exists st', s'. split; [| now split].
    cbn [app main_loop]. rewrite Hrunning, (bind_ok _ _ _ _ _ Hf). exact Hloop.
Qed.

Lemma main_cleanup_exits st s : main_cleanup st s = Raise (SystemExit 0).
Proof. unfold main_cleanup. cbv zeta. now rewrite bind_cmds. Qed.

(** X12. When the setup returns, the polls before the quit contain neither a
    quit event nor a [VIDEORESIZE], and the poll with the quit event contains
    no [VIDEORESIZE], then [main] ends by raising [SystemExit(0)], whatever
    polls would follow. *)
Theorem quit_exits_with_status_0 (polls1 polls2 : list (list event))
    (evs : list event) (st : state) (s1 : gl_state) :
  main_setup gl_empty = Ok (st, s1) ->
  Forall (fun evs => Forall (fun e => is_resize e = false) evs /\
                     existsb is_quit evs = false) polls1 ->
  Forall (fun e => is_resize e = false) evs ->
  existsb is_quit evs = true ->
  main (polls1 ++ evs :: polls2) gl_empty = Raise (SystemExit 0).
Proof.
  intros Hsetup Hpolls Hevs Hquit.
  pose proof (reach_setup st s1 Hsetup) as Hreach.
  destruct (main_setup_spec _ _ _ Hsetup) as (_ & _ & Hrunning & _).
  destruct (main_loop_keeps_running polls1 (evs :: polls2) st s1
              Hreach Hrunning Hpolls) as (st2 & s2 & Hloop & Hr2 & Hrun2).
  destruct (process_events_no_resize evs st2 s2 Hevs) as (st3 & Hev & _ & Hh & _).
  assert (Hf : frame evs st2 s2 = Ok (st3, gl_do_all (render_calls st3) s2)).
  { apply (frame_after_events _ _ _ _ _ Hev). rewrite Hh.
    exact (proj1 (reachable_target st2 s2 Hr2)). }
  assert (Hstop : running st3.2 = false).
  { rewrite (process_events_running _ _ _ _ _ Hev), Hquit.
    now rewrite andb_false_r. }
  assert (Hend : main_loop (evs :: polls2) st2 s2
                 = Ok (st3, gl_do_all (render_calls st3) s2)).
  { cbn [main_loop]. rewrite Hrun2, (bind_ok _ _ _ _ _ Hf).
    destruct polls2; cbn [main_loop]; [reflexivity | now rewrite Hstop]. }
  unfold main. rewrite (bind_ok _ _ _ _ _ Hsetup).
  rewrite Hend in Hloop. rewrite (bind_ok _ _ _ _ _ Hloop).
  rewrite Hstop. apply bind_raise, main_cleanup_exits.
Qed.

Lemma presents_app l1 l2 : presents (l1 ++ l2) = (presents l1 + presents l2)%nat.
Proof. unfold presents. now rewrite List.filter_app, length_app. Qed.

Lemma presents_none l :
  Forall (fun c => is_present c = false) l -> presents l = 0%nat.
Proof.
  unfold presents. induction 1 as [| c l Hc _ IH]; [reflexivity |].
  cbn [List.filter]. now rewrite Hc.
Qed.

Lemma inner_call_not_present l :
  Forall (fun c => inner_call c = true) l ->
  Forall (fun c => is_present c = false) l.
Proof.
  induction 1 as [| c l H _ IH]; constructor; [| exact IH].
  unfold inner_call in H. apply andb_true_iff in H as [_ H].
  now apply negb_true_iff in H.
Qed.

Lemma event_call_not_present l :
  Forall (fun c => event_call c = true) l ->
  Forall (fun c => is_present c = false) l.
Proof.
  induction 1 as [| c l H _ IH]; constructor; [| exact IH].
  unfold event_call in H. apply andb_true_iff in H as [_ H].
  now apply negb_true_iff in H.
Qed.

Lemma render_calls_present_once st : presents (render_calls st) = 1%nat.
Proof.
  unfold render_calls, scene_pass_calls, present_calls.
  rewrite !presents_app.
  rewrite (presents_none (scene_body_calls st.1))
    by apply inner_call_not_present, scene_body_calls_inner.
  rewrite (presents_none (post_pass_calls st))
    by apply inner_call_not_present, post_pass_calls_inner.
  rewrite (presents_none (overlay_calls (WIN_W st.1) (WIN_H st.1)
                             (event_horizon_radius_px st.1)))
    by apply inner_call_not_present, overlay_calls_inner.
  reflexivity.
Qed.

(** X13. Every completed iteration presents exactly one frame: its log has
    one more [pygame.display.flip()] than the log before it, and that flip
    comes after every draw of the iteration, followed only by the tick. *)
Theorem iteration_presents_once (evs : list event) (st st' : state)
    (s s' : gl_state) :
  reachable st s ->
  frame evs st s = Ok (st', s') ->
  presents (calls s') = S (presents (calls s)) /\
  exists before,
    calls s' = before ++ [pygame_display_flip; clock_tick 60].
Proof.
  intros Hreach Hframe.
  destruct (frame_returns_inv _ _ _ _ _ Hreach Hframe) as (s1 & Hev & _ & ->).
  destruct (process_events_calls _ _ _ _ _ Hev) as (l & Hc & Hl).
  rewrite calls_gl_do_all, Hc. split.
  - rewrite !presents_app, render_calls_present_once.
    rewrite (presents_none l) by now apply event_call_not_present.
    now rewrite Nat.add_0_r, Nat.add_1_r.
  - unfold render_calls, present_calls.
    eexists. rewrite !app_assoc. reflexivity.
Qed.

(** ** Events that undo each other, and the projection *)

Lemma set_cam_dist_same g : set_cam_dist (cam_dist g) g = g.
Proof. now destruct g. Qed.

(** X14. Wheel up followed by wheel down leaves every variable but the
    distance as it was and sets the distance [d <= 80] to [max(4.5, d)]: the
    two undo each other exactly when [d >= 4.5], below that the floor [3.5]
    of the zoom shows. *)
Theorem wheel_up_then_down (g : globals) (l : locals) (s : gl_state)
    (pos pos' : Z * Z) :
  cam_dist g <= 80 ->
  process_events [MOUSEBUTTONDOWN 4 pos; MOUSEBUTTONDOWN 5 pos'] (g, l) s
  = Ok ((set_cam_dist (Rmax 4.5 (cam_dist g)) g, l), s) /\
  (4.5 <= cam_dist g ->
   process_events [MOUSEBUTTONDOWN 4 pos; MOUSEBUTTONDOWN 5 pos'] (g, l) s
   = Ok ((g, l), s)).
Proof.
  intros Hd.
  assert (Hrun : process_events [MOUSEBUTTONDOWN 4 pos; MOUSEBUTTONDOWN 5 pos']
                   (g, l) s
                 = Ok ((set_cam_dist (Rmax 4.5 (cam_dist g)) g, l), s)).
  { assert (E : Py.min 80 (Py.max 3.5 (cam_dist g - 1) + 1)
                 = Rmax 4.5 (cam_dist g)).
    { rewrite py_min_Rmin, py_max_Rmax. unfold Rmin, Rmax.
      repeat destruct (Rle_dec _ _); lra. }
    assert (Hup : handle_event (MOUSEBUTTONDOWN 4 pos) (g, l) s
                  = Ok ((set_cam_dist (Py.max 3.5 (cam_dist g - 1)) g, l), s))
      by reflexivity.
    assert (Hdown : handle_event (MOUSEBUTTONDOWN 5 pos')
                      (set_cam_dist (Py.max 3.5 (cam_dist g - 1)) g, l) s
                    = Ok ((set_cam_dist (Rmax 4.5 (cam_dist g)) g, l), s)).
    { rewrite <- E. reflexivity. }
    cbn [process_events].
    rewrite (bind_ok _ _ _ _ _ Hup), (bind_ok _ _ _ _ _ Hdown). reflexivity. }
  split; [exact Hrun |].
  intros Hfar. rewrite Hrun.
  replace (Rmax 4.5 (cam_dist g)) with (cam_dist g);
    [now rewrite set_cam_dist_same |].
  unfold Rmax. destruct (Rle_dec _ _); lra.
Qed.

(** X15. The toggles are involutions: pressing G twice, or L twice, in one
    poll leaves the whole state as it was. *)
Theorem toggle_twice_restores (st : state) (s : gl_state) :
  process_events [KEYDOWN K_g; KEYDOWN K_g] st s = Ok (st, s) /\
  process_events [KEYDOWN K_l; KEYDOWN K_l] st s = Ok (st, s).
Proof.
  destruct st as [g l]. destruct g. split; cbn; now rewrite negb_involutive.
Qed.

(** X16. [set_perspective] raises [ZeroDivisionError] exactly for a zero
    height; for any other height it selects the projection matrix, loads the
    perspective of 60 degrees with aspect [w / h], near 0.1 and far 200, and
    selects the modelview matrix again. *)
Theorem set_perspective_result (w h : Z) (s : gl_state) :
  (h = 0%Z -> set_perspective w h s = Raise ZeroDivisionError) /\
  (h <> 0%Z ->
   set_perspective w h s
   = Ok (tt, gl_do_all [glMatrixMode GL_PROJECTION; glLoadIdentity;
                        gluPerspective 60 (IZR w / IZR h) 0.1 200;
                        glMatrixMode GL_MODELVIEW] s)).
Proof.
  split.
  - intros ->. apply set_perspective_zero_height.
  - intros Hh. apply (set_perspective_emits w h Hh).
Qed.

(** ** The objects in the context *)

Lemma untouched_gl_do c s :
  touches c = None ->
  shaders (gl_do c s) = shaders s /\ programs (gl_do c s) = programs s /\
  textures (gl_do c s) = textures s /\
  renderbuffers (gl_do c s) = renderbuffers s /\
  framebuffers (gl_do c s) = framebuffers s /\
  buffers (gl_do c s) = buffers s.
Proof.
  intros H.
  rewrite shaders_gl_do, programs_gl_do, textures_gl_do, renderbuffers_gl_do,
    framebuffers_gl_do, buffers_gl_do by (rewrite H; discriminate).
  now repeat split.
Qed.

Lemma untouched_gl_do_all l s :
  Forall (fun c => touches c = None) l ->
  shaders (gl_do_all l s) = shaders s /\
  programs (gl_do_all l s) = programs s /\
  textures (gl_do_all l s) = textures s /\
  renderbuffers (gl_do_all l s) = renderbuffers s /\
  framebuffers (gl_do_all l s) = framebuffers s /\
  buffers (gl_do_all l s) = buffers s.
Proof.
  intros Hl. revert s. induction Hl as [| c l Hc _ IH]; intros s.
  - now repeat split.
  - change (gl_do_all (c :: l) s) with (gl_do_all l (gl_do c s)).
    destruct (IH (gl_do c s)) as (-> & -> & -> & -> & -> & ->).
    now apply untouched_gl_do.
Qed.

Lemma perspective_calls_untouched w h :
  Forall (fun c => touches c = None) (perspective_calls w h).
Proof. unfold perspective_calls. all_calls. Qed.

Lemma render_calls_untouched st :
  Forall (fun c => touches c = None) (render_calls st).
Proof.
  destruct st as [g l].
  unfold render_calls, scene_pass_calls, scene_body_calls, post_pass_calls,
    overlay_calls, present_calls, perspective_calls, camera_calls, grid_calls,
    scene_objects_calls, ring_calls, rim_calls.
  cbn [fst snd]. destruct (show_grid g); all_calls.
  all: destruct x as [[[sx sy] sz] [[r g0] b]]; unfold star_calls; all_calls.
Qed.

(** A frame allocates and frees nothing: the render part of an iteration
    leaves every object table as it is. *)
Lemma render_keeps_tables st s :
  let s' := gl_do_all (render_calls st) s in
  shaders s' = shaders s /\ programs s' = programs s /\
  textures s' = textures s /\ renderbuffers s' = renderbuffers s /\
  framebuffers s' = framebuffers s /\ buffers s' = buffers s.
Proof. apply untouched_gl_do_all, render_calls_untouched. Qed.

(** ** The inventory of the context *)

Lemma main_setup_inventory st s :
  main_setup gl_empty = Ok (st, s) -> context_holds_only st s.
Proof.
  intros Hrun. unfold main_setup in Hrun. cbv zeta in Hrun.
  rewrite bind_cmds in Hrun.
  rewrite (bind_emits _ _ _ _
             (set_perspective_emits _ _ initial_height_nonzero)) in Hrun.
  set (s0 := gl_do_all (perspective_calls _ _) _) in Hrun.
  assert (H0 : shaders s0 = ∅ /\ programs s0 = ∅ /\ textures s0 = ∅ /\
               renderbuffers s0 = ∅ /\ framebuffers s0 = ∅ /\ buffers s0 = ∅).
  { unfold s0.
    match goal with
    | |- context [gl_do_all (perspective_calls ?w ?h) ?s] =>
        destruct (untouched_gl_do_all (perspective_calls w h) s
                    (perspective_calls_untouched w h))
          as (-> & -> & -> & -> & -> & ->)
    end.
    apply (untouched_gl_do_all _ gl_empty). all_calls. }
  destruct H0 as (_ & Hp0 & Ht0 & Hr0 & Hf0 & Hb0). clearbody s0.
  destruct (create_fbo_tex_spec (WIN_W initial_globals) (WIN_H initial_globals) s0)
    as [[_ Hraise] | (_ & s1 & Hok & Ht1 & Hr1 & Hf1 & _ & Hp1 & Hb1 & _)].
  { rewrite (bind_raise _ _ _ _ Hraise) in Hrun. discriminate. }
  rewrite (bind_ok _ _ _ _ _ Hok) in Hrun. cbv beta iota in Hrun.
  destruct (create_fs_quad_spec s1)
    as (s2 & Hq & Hb2 & Hne & _ & Hp2 & Ht2 & Hr2 & Hf2 & _).
  rewrite (bind_ok _ _ _ _ _ Hq) in Hrun. cbv beta iota in Hrun.
  destruct (link_program POST_VS POST_FS s2) as [[pid s3] | e] eqn:Hlink;
    [| rewrite (bind_raise _ _ _ _ Hlink) in Hrun; discriminate].
  rewrite (bind_ok _ _ _ _ _ Hlink) in Hrun.
  rewrite bind_ret_eq in Hrun. injection Hrun as <- <-.
  destruct (link_program_returns _ _ _ _ _ Hlink) as (Hvs & Hfs & _).
  destruct (link_program_linking POST_VS POST_FS s2 Hvs Hfs)
    as [[_ Hraise]
       | (_ & vs & fs & s3' & Hok3 & Hp3 & _ & _ & Ht3 & Hr3 & Hf3 & Hb3)].
  { rewrite Hraise in Hlink. discriminate. }
  rewrite Hok3 in Hlink. injection Hlink as Hpid Hs3. subst pid s3.
  unfold context_holds_only.
  cbn [fst snd fbo scene_tex rbo fs_vbo fs_ebo post_prog].
  rewrite Ht3, Ht2, Ht1, Hr3, Hr2, Hr1, Hf3, Hf2, Hf1.
  rewrite Hb3, Hb2, Hb1, Hp3, Hp2, Hp1.
  rewrite Hb1 in Hne.
  rewrite Ht0, Hr0, Hf0, Hb0, Hp0. rewrite Hb0 in Hne.
  rewrite !insert_empty. rewrite insert_empty in Hne.
  split; [reflexivity |]. split; [reflexivity |]. split; [reflexivity |].
  split; [reflexivity |]. split; [exact Hne |]. now exists vs, fs.
Qed.

(** A resize leaves the shaders, the programs and the buffers as they are,
    and the names of the quad's buffers and of the program. *)
Lemma handle_resize_other_tables w h st s st' s' :
  handle_event (VIDEORESIZE w h) st s = Ok (st', s') ->
  shaders s' = shaders s /\ programs s' = programs s /\
  buffers s' = buffers s /\
  fs_vbo st'.2 = fs_vbo st.2 /\ fs_ebo st'.2 = fs_ebo st.2 /\
  post_prog st'.2 = post_prog st.2.
Proof.
  intros Hrun.
  destruct (handle_resize_returns _ _ _ _ _ _ Hrun)
    as (Hh & _ & _ & fb & tex & rb & Hl & _).
  split; [| split; [| split]];
    [| | | rewrite Hl; now repeat split].
  all: destruct st as [g l]; unfold handle_event in Hrun;
    cbn [WIN_W WIN_H set_WIN_W set_WIN_H] in Hrun;
    rewrite !bind_cmd in Hrun;
    rewrite (bind_emits _ _ _ _ (set_perspective_emits w h Hh)) in Hrun;
    rewrite !bind_cmd in Hrun;
    set (sd := gl_do (glDeleteRenderbuffers 1 [rbo l]) _) in Hrun;
    destruct (create_fbo_tex_spec w h sd)
      as [[_ Hraise] | (_ & s1 & Hok & _ & _ & _ & Hs1 & Hp1 & Hb1 & _)];
    [ rewrite (bind_raise _ _ _ _ Hraise) in Hrun; discriminate | ];
    rewrite (bind_ok _ _ _ _ _ Hok) in Hrun; injection Hrun as _ <-;
    rewrite ?Hs1, ?Hp1, ?Hb1; unfold sd; untouched;
    match goal with
    | |- context [gl_do_all (perspective_calls ?w ?h) ?s] =>
        destruct (untouched_gl_do_all (perspective_calls w h) s
                    (perspective_calls_untouched w h))
          as (E1 & E2 & _ & _ & _ & E3)
    end;
    rewrite ?E1, ?E2, ?E3; now untouched.
Qed.

Lemma reachable_inventory st s : reachable st s -> context_holds_only st s.
Proof.
  induction 1 as [st s Hrun | e st s st' s' Hreach IH Hrun
                 | st s s' Hreach IH Hrun].
  - now apply main_setup_inventory.
  - destruct (is_resize e) eqn:He.
    + destruct e; try discriminate He.
      destruct (handle_resize_other_tables _ _ _ _ _ _ Hrun)
        as (_ & Hp & Hb & Hvbo & Hebo & Hprog).
      destruct (handle_resize_returns _ _ _ _ _ _ Hrun)
        as (_ & Hg & _ & fb & tex & rb & Hl & Ht & Hr & Hf & _).
      destruct IH as (It & Ir & If & Ib & Ine & vs & fs & Ip).
      unfold context_holds_only.
      rewrite Hvbo, Hebo, Hprog, Hp, Hb, Ht, Hr, Hf, It, Ir, If, Hg, Hl.
      cbn [fst snd fbo scene_tex rbo set_rbo set_scene_tex set_fbo
           WIN_W WIN_H set_WIN_W set_WIN_H].
      rewrite !delete_singleton_eq, !insert_empty.
      repeat split; try assumption. now exists vs, fs.
    + destruct (handle_event_not_resize e st s He) as (st'' & Hrun' & Hsame).
      rewrite Hrun' in Hrun. injection Hrun as <- <-.
      destruct Hsame as (Hw & Hh & _ & Hfb & Htex & Hrb & Hvbo & Hebo & Hprog).
      unfold context_holds_only.
      rewrite Hw, Hh, Hfb, Htex, Hrb, Hvbo, Hebo, Hprog. exact IH.
  - destruct (reachable_target _ _ Hreach) as (Hh & _).
    rewrite (render_run _ _ _ Hh Hrun).
    destruct (render_keeps_tables st s) as (_ & Hp & Ht & Hr & Hf & Hb).
    unfold context_holds_only. rewrite Hp, Ht, Hr, Hf, Hb. exact IH.
Qed.

(** X17. Resizing does not leak: in every reachable state, after any number
    of resizes and frames, the context holds exactly one texture and one
    renderbuffer, both of the window size, one framebuffer with these two
    attached, the two buffers of the quad with their data, and one linked
    program with two shaders attached. *)
Theorem context_inventory (st : state) (s : gl_state) :
  reachable st s ->
  context_holds_only st s /\
  size (textures s) = 1%nat /\ size (renderbuffers s) = 1%nat /\
  size (framebuffers s) = 1%nat /\ size (buffers s) = 2%nat /\
  size (programs s) = 1%nat.
Proof.
  intros Hreach. pose proof (reachable_inventory _ _ Hreach) as Hinv.
  split; [exact Hinv |].
  destruct Hinv as (-> & -> & -> & -> & Hne & vs & fs & ->).
  rewrite !map_size_singleton.
  repeat split.
  rewrite map_size_insert_None; [now rewrite map_size_singleton |].
  now apply lookup_singleton_ne.
Qed.

Lemma buffers_glDeleteBuffers n names s :
  buffers (gl_do (glDeleteBuffers n names) s) = delete_all names (buffers s).
Proof. reflexivity. Qed.

(** X18. The cleanup of [main] is the deletion of the objects followed by
    [sys.exit(0)], and from a reachable state it frees every texture,
    renderbuffer, framebuffer and buffer of the context; the program is not
    deleted. *)
Theorem cleanup_frees_targets_and_buffers (st : state) (s : gl_state) :
  reachable st s ->
  main_cleanup st = (cmds (cleanup_calls st) ;; raise (SystemExit 0)) /\
  let s' := gl_do_all (cleanup_calls st) s in
  textures s' = ∅ /\ renderbuffers s' = ∅ /\ framebuffers s' = ∅ /\
  buffers s' = ∅ /\ programs s' = programs s /\
  exists vs fs, programs s' !! post_prog st.2 = Some (ProgramObj [vs; fs] true).
Proof.
  intros Hreach. split; [reflexivity |].
  destruct (reachable_inventory _ _ Hreach)
    as (Ht & Hr & Hf & Hb & Hne & vs & fs & Hp).
  cbv zeta. unfold cleanup_calls.
  change (gl_do_all (?a :: ?b :: ?c :: ?d :: ?e :: ?f :: []) s)
    with (gl_do f (gl_do e (gl_do d (gl_do c (gl_do b (gl_do a s)))))).
  assert (Hprog : programs
            (gl_do pygame_quit
               (gl_do (glDeleteBuffers 1 [fs_ebo st.2])
                  (gl_do (glDeleteBuffers 1 [fs_vbo st.2])
                     (gl_do (glDeleteRenderbuffers 1 [rbo st.2])
                        (gl_do (glDeleteTextures 1 [scene_tex st.2])
                           (gl_do (glDeleteFramebuffers 1 [fbo st.2]) s))))))
            = programs s) by now untouched.
  split; [| split; [| split; [| split; [| split]]]].
  - untouched. rewrite textures_glDeleteTextures. untouched.
    rewrite Ht. apply delete_singleton_eq.
  - untouched. rewrite renderbuffers_glDeleteRenderbuffers. untouched.
    rewrite Hr. apply delete_singleton_eq.
  - untouched. rewrite framebuffers_glDeleteFramebuffers.
    rewrite Hf. apply delete_singleton_eq.
  - untouched. rewrite !buffers_glDeleteBuffers. untouched.
    rewrite Hb. cbn [delete_all foldr].
    rewrite delete_insert_ne by exact Hne.
    rewrite delete_singleton_eq, delete_insert_eq. apply delete_empty.
  - exact Hprog.
  - exists vs, fs. rewrite Hprog, Hp. apply lookup_singleton_eq.
Qed.

(** ** The binding points *)

Lemma bindings_gl_do c s :
  bound_framebuffer (gl_do c s) = rebind_framebuffer c (bound_framebuffer s) /\
  bound_texture (gl_do c s) = rebind_texture c (bound_texture s) /\
  bound_renderbuffer (gl_do c s)
    = rebind_renderbuffer c (bound_renderbuffer s) /\
  bound_array_buffer (gl_do c s)
    = rebind_array_buffer c (bound_array_buffer s) /\
  bound_element_array_buffer (gl_do c s)
    = rebind_element_array_buffer c (bound_element_array_buffer s) /\
  current_program (gl_do c s) = rebind_program c (current_program s).
Proof. destruct c; simpl; case_ifs; repeat split; reflexivity. Qed.

Lemma bindings_gl_do_all l s :
  bound_framebuffer (gl_do_all l s)
    = bound_after rebind_framebuffer l (bound_framebuffer s) /\
  bound_texture (gl_do_all l s)
    = bound_after rebind_texture l (bound_texture s) /\
  bound_renderbuffer (gl_do_all l s)
    = bound_after rebind_renderbuffer l (bound_renderbuffer s) /\
  bound_array_buffer (gl_do_all l s)
    = bound_after rebind_array_buffer l (bound_array_buffer s) /\
  bound_element_array_buffer (gl_do_all l s)
    = bound_after rebind_element_array_buffer l
        (bound_element_array_buffer s) /\
  current_program (gl_do_all l s)
    = bound_after rebind_program l (current_program s).
Proof.
  revert s. induction l as [| c l IH]; intros s; [now repeat split |].
  change (gl_do_all (c :: l) s) with (gl_do_all l (gl_do c s)).
  unfold bound_after. cbn [fold_left]. fold (bound_after rebind_framebuffer l).
  fold (bound_after rebind_texture l). fold (bound_after rebind_renderbuffer l).
  fold (bound_after rebind_array_buffer l).
  fold (bound_after rebind_element_array_buffer l).
  fold (bound_after rebind_program l).
  destruct (bindings_gl_do c s) as (<- & <- & <- & <- & <- & <-).
  apply IH.
Qed.

Lemma bound_after_app rebind l1 l2 b :
  bound_after rebind (l1 ++ l2) b
  = bound_after rebind l2 (bound_after rebind l1 b).
Proof. apply fold_left_app. Qed.

Lemma bound_after_fixed rebind l b :
  Forall (fun c => forall b', rebind c b' = b') l -> bound_after rebind l b = b.
Proof.
  intros Hl. revert b. induction Hl as [| c l Hc _ IH]; intros b;
    [reflexivity |].
  unfold bound_after. cbn [fold_left]. rewrite Hc. apply IH.
Qed.

Lemma keeps_bindings_fixed c :
  keeps_bindings c = true ->
  (forall b, rebind_framebuffer c b = b) /\
  (forall b, rebind_texture c b = b) /\
  (forall b, rebind_renderbuffer c b = b) /\
  (forall b, rebind_array_buffer c b = b) /\
  (forall b, rebind_element_array_buffer c b = b) /\
  (forall b, rebind_program c b = b).
Proof. destruct c; intros H; try discriminate H; now repeat split. Qed.

Lemma bound_after_keeps l :
  Forall (fun c => keeps_bindings c = true) l ->
  (forall b, bound_after rebind_framebuffer l b = b) /\
  (forall b, bound_after rebind_texture l b = b) /\
  (forall b, bound_after rebind_renderbuffer l b = b) /\
  (forall b, bound_after rebind_array_buffer l b = b) /\
  (forall b, bound_after rebind_element_array_buffer l b = b) /\
  (forall b, bound_after rebind_program l b = b).
Proof.
  intros Hl.
  repeat split; intros b; apply bound_after_fixed;
    induction Hl as [| c l Hc _ IH]; constructor; try exact IH;
    now destruct (keeps_bindings_fixed c Hc) as (? & ? & ? & ? & ? & ?).
Qed.

Lemma inner_call_keeps_framebuffer_binding l :
  Forall (fun c => inner_call c = true) l ->
  Forall (fun c => forall b, rebind_framebuffer c b = b) l.
Proof.
  intros Hl. induction Hl as [| c l Hc _ IH]; constructor; [| exact IH].
  destruct c; try discriminate Hc; reflexivity.
Qed.

Lemma scene_body_calls_keep_bindings g :
  Forall (fun c => keeps_bindings c = true) (scene_body_calls g).
Proof.
  unfold scene_body_calls, perspective_calls, camera_calls, grid_calls,
    scene_objects_calls.
  destruct (show_grid g); all_calls.
  all: destruct x as [[[sx sy] sz] [[r g0] b]]; unfold star_calls; all_calls.
Qed.

Lemma overlay_calls_keep_bindings w h eh :
  Forall (fun c => keeps_bindings c = true) (overlay_calls w h eh).
Proof. unfold overlay_calls, ring_calls, rim_calls. all_calls. Qed.

(** The bindings after the render part of an iteration. *)
Lemma render_calls_bindings st s :
  let s' := gl_do_all (render_calls st) s in
  bound_framebuffer s' = 0%N /\ current_program s' = 0%N /\
  bound_array_buffer s' = 0%N /\ bound_element_array_buffer s' = 0%N /\
  bound_texture s' = scene_tex st.2 /\
  bound_renderbuffer s' = bound_renderbuffer s.
Proof.
  cbv zeta.
  destruct (bindings_gl_do_all (render_calls st) s)
    as (-> & -> & -> & -> & -> & ->).
  unfold render_calls, scene_pass_calls, present_calls.
  rewrite !bound_after_app.
  destruct (bound_after_keeps _ (scene_body_calls_keep_bindings st.1))
    as (Sf & St & Sr & Sa & Se & Sp).
  destruct (bound_after_keeps _
              (overlay_calls_keep_bindings (WIN_W st.1) (WIN_H st.1)
                 (event_horizon_radius_px st.1)))
    as (Of & Ot & Or & Oa & Oe & Op).
  rewrite Sf, St, Sr, Sa, Se, Sp, Of, Ot, Or, Oa, Oe, Op.
  destruct st as [g l]. repeat split; reflexivity.
Qed.

(** X19. Every completed iteration leaves the default bindings behind: the
    window framebuffer is bound, no program is in use, no vertex or index
    buffer is bound; the scene texture stays bound to the texture unit. *)
Theorem frame_restores_bindings (evs : list event) (st st' : state)
    (s s' : gl_state) :
  reachable st s ->
  frame evs st s = Ok (st', s') ->
  bound_framebuffer s' = 0%N /\ current_program s' = 0%N /\
  bound_array_buffer s' = 0%N /\ bound_element_array_buffer s' = 0%N /\
  bound_texture s' = scene_tex st'.2.
Proof.
  intros Hreach Hrun.
  destruct (frame_returns_inv _ _ _ _ _ Hreach Hrun) as (s1 & _ & _ & ->).
  destruct (render_calls_bindings st' s1) as (Hf & Hp & Ha & He & Ht & _).
  now repeat split.
Qed.

Lemma render_calls_around_quad_draw st :
  render_calls st
  = calls_before_quad_draw st
    ++ glDrawElements GL_TRIANGLES 6 GL_UNSIGNED_INT 0
    :: calls_after_quad_draw st.
Proof.
  assert (E : post_pass_calls st
              = firstn 24 (post_pass_calls st)
                ++ glDrawElements GL_TRIANGLES 6 GL_UNSIGNED_INT 0
                :: skipn 25 (post_pass_calls st))
    by (destruct st; reflexivity).
  unfold render_calls, calls_before_quad_draw, calls_after_quad_draw.
  rewrite E at 1. rewrite <- !app_assoc. reflexivity.
Qed.

Lemma calls_around_quad_draw_no_quad_draw st :
  Forall (fun c => is_quad_draw c = false)
         (calls_before_quad_draw st ++ calls_after_quad_draw st).
Proof.
  destruct st as [g l].
  unfold calls_before_quad_draw, calls_after_quad_draw, scene_pass_calls,
    scene_body_calls, post_pass_calls, overlay_calls, present_calls,
    perspective_calls, camera_calls, grid_calls, scene_objects_calls,
    ring_calls, rim_calls.
  cbn [fst snd firstn skipn]. destruct (show_grid g); all_calls.
  all: destruct x as [[[sx sy] sz] [[r g0] b]]; unfold star_calls; all_calls.
Qed.

(** X20. From a reachable state the render part of an iteration performs
    [render_calls]; its one indexed draw, the fullscreen quad, finds what it
    needs: the window framebuffer is bound, the linked postprocess
    program is in use, the bound texture is the scene texture and has the
    size of the window, and the bound vertex and index buffers are those of
    the quad with their data. *)
Theorem quad_drawn_with_scene_bound (st : state) (s : gl_state) :
  reachable st s ->
  (render_scene_pass st ;; postprocess_pass st ;; overlay_pass st ;; present) s
  = Ok (tt, gl_do_all (render_calls st) s) /\
  render_calls st
  = calls_before_quad_draw st
    ++ glDrawElements GL_TRIANGLES 6 GL_UNSIGNED_INT 0
    :: calls_after_quad_draw st /\
  Forall (fun c => is_quad_draw c = false)
         (calls_before_quad_draw st ++ calls_after_quad_draw st) /\
  let s1 := gl_do_all (calls_before_quad_draw st) s in
  bound_framebuffer s1 = 0%N /\
  current_program s1 = post_prog st.2 /\
  (exists vs fs,
     programs s1 !! post_prog st.2 = Some (ProgramObj [vs; fs] true)) /\
  bound_texture s1 = scene_tex st.2 /\
  textures s1 !! scene_tex st.2 = Some (Some (WIN_W st.1, WIN_H st.1)) /\
  bound_array_buffer s1 = fs_vbo st.2 /\
  buffers s1 !! fs_vbo st.2 = Some (Some (c_float_array quad_vertices)) /\
  bound_element_array_buffer s1 = fs_ebo st.2 /\
  buffers s1 !! fs_ebo st.2 = Some (Some (c_uint_array quad_indices)).
Proof.
  intros Hreach.
  split; [apply render_emits; now destruct (reachable_target _ _ Hreach) |].
  split; [apply render_calls_around_quad_draw |].
  split; [apply calls_around_quad_draw_no_quad_draw |].
  cbv zeta.
  assert (Hun : Forall (fun c => touches c = None) (calls_before_quad_draw st)).
  { pose proof (render_calls_untouched st) as H.
    rewrite render_calls_around_quad_draw in H.
    now apply Forall_app in H as [H _]. }
  destruct (untouched_gl_do_all _ s Hun) as (_ & -> & -> & _ & _ & ->).
  destruct (reachable_inventory _ _ Hreach)
    as (-> & _ & _ & -> & Hne & vs & fs & ->).
  destruct (bindings_gl_do_all (calls_before_quad_draw st) s)
    as (-> & -> & _ & -> & -> & ->).
  unfold calls_before_quad_draw, scene_pass_calls.
  rewrite !bound_after_app.
  destruct (bound_after_keeps _ (scene_body_calls_keep_bindings st.1))
    as (Sf & St & _ & Sa & Se & Sp).
  rewrite Sf, St, Sa, Se, Sp.
  split; [destruct st; reflexivity |]. split; [destruct st; reflexivity |].
  split; [exists vs, fs; apply lookup_singleton_eq |].
  split; [destruct st; reflexivity |].
  split; [apply lookup_singleton_eq |].
  split; [destruct st; reflexivity |].
  split; [rewrite lookup_insert_ne by congruence; apply lookup_singleton_eq |].
  split; [destruct st; reflexivity | apply lookup_insert_eq].
Qed.

Lemma present_calls_keep_framebuffer_binding :
  Forall (fun c => forall b, rebind_framebuffer c b = b) present_calls.
Proof. unfold present_calls. repeat constructor. Qed.

(** X21. Each pass draws where it should.  The render part of an iteration
    performs the scene pass, the postprocess pass, the overlay and the flip;
    whatever part of the scene body
    has been performed, the offscreen framebuffer [fbo] is the bound one, and
    whatever part of the postprocess pass, the overlay and the flip has been
    performed after the scene pass, the window framebuffer is. *)
Theorem passes_draw_to_their_framebuffer (st : state) (s : gl_state)
    (done rest : list gl_call) :
  WIN_H st.1 <> 0%Z ->
  (render_scene_pass st ;; postprocess_pass st ;; overlay_pass st ;; present) s
  = Ok (tt, gl_do_all
              (scene_pass_calls st ++ post_pass_calls st
               ++ overlay_calls (WIN_W st.1) (WIN_H st.1)
                    (event_horizon_radius_px st.1)
               ++ present_calls) s) /\
  (scene_body_calls st.1 = done ++ rest ->
   bound_framebuffer
     (gl_do_all (glBindFramebuffer GL_FRAMEBUFFER (fbo st.2) :: done) s)
   = fbo st.2) /\
  (post_pass_calls st
   ++ overlay_calls (WIN_W st.1) (WIN_H st.1) (event_horizon_radius_px st.1)
   ++ present_calls = done ++ rest ->
   bound_framebuffer (gl_do_all (scene_pass_calls st ++ done) s) = 0%N).
Proof.
  intros Hh. split; [exact (render_emits st Hh s) |].
  split; intros Hsplit.
  - destruct (bindings_gl_do_all
                (glBindFramebuffer GL_FRAMEBUFFER (fbo st.2) :: done) s)
      as (-> & _).
    change (bound_after rebind_framebuffer done (fbo st.2) = fbo st.2).
    apply bound_after_fixed, inner_call_keeps_framebuffer_binding.
    pose proof (scene_body_calls_inner st.1) as H. rewrite Hsplit in H.
    now apply Forall_app in H as [H _].
  - destruct (bindings_gl_do_all (scene_pass_calls st ++ done) s) as (-> & _).
    unfold scene_pass_calls. rewrite !bound_after_app.
    rewrite (bound_after_fixed rebind_framebuffer (scene_body_calls st.1))
      by apply inner_call_keeps_framebuffer_binding, scene_body_calls_inner.
    change (bound_after rebind_framebuffer done 0%N = 0%N).
    apply bound_after_fixed.
    assert (H : Forall (fun c => forall b, rebind_framebuffer c b = b)
                       (done ++ rest)).
    { rewrite <- Hsplit. apply Forall_app. split.
      - apply inner_call_keeps_framebuffer_binding, post_pass_calls_inner.
      - apply Forall_app. split.
        + apply inner_call_keeps_framebuffer_binding, overlay_calls_inner.
        + apply present_calls_keep_framebuffer_binding. }
    now apply Forall_app in H as [H _].
Qed.

(** ** The geometry of the overlay *)

Lemma rim_vertex_on_circle cx cy r th :
  (cx + cos th * r - cx) * (cx + cos th * r - cx)
  + (cy + sin th * r - cy) * (cy + sin th * r - cy) = r * r.
Proof.
  pose proof (sin2_cos2 th) as H. unfold Rsqr in H.
  replace (cx + cos th * r - cx) with (cos th * r) by ring.
  replace (cy + sin th * r - cy) with (sin th * r) by ring.
  replace (cos th * r * (cos th * r) + sin th * r * (sin th * r))
    with ((sin th * sin th + cos th * cos th) * (r * r)) by ring.
  rewrite H. ring.
Qed.

Lemma rim_calls_on_circle cx cy r segments :
  Forall (vertex_on_circle cx cy r) (rim_calls cx cy r segments).
Proof.
  unfold rim_calls. apply Forall_map_intro. intros i.
  apply rim_vertex_on_circle.
Qed.

Lemma rim_calls_within cx cy r bound segments :
  r * r <= bound * bound ->
  Forall (vertex_within cx cy bound) (rim_calls cx cy r segments).
Proof.
  intros Hr. unfold rim_calls. apply Forall_map_intro. intros i.
  unfold vertex_within. rewrite rim_vertex_on_circle. exact Hr.
Qed.

Lemma ring_calls_within cx cy r a bound :
  r * r <= bound * bound ->
  Forall (vertex_within cx cy bound) (ring_calls cx cy r a).
Proof.
  intros Hr. unfold ring_calls.
  apply Forall_app. split.
  - constructor; [exact I |]. constructor; [exact I |].
    constructor; [| constructor]. unfold vertex_within. nra.
  - apply Forall_app. split; [now apply rim_calls_within |].
    constructor; [exact I | constructor].
Qed.

(** X22. The overlay is what [draw_black_hole_overlay] performs, and all of
    it lies in the disc of radius [3.25 * eh_px] around the centre of the
    window, the radius of the widest of the five glow rings; the rim of
    the black disc, drawn last, lies on the circle of radius [eh_px]. *)
Theorem overlay_within_glow_radius (w h eh : Z) (s : gl_state) :
  draw_black_hole_overlay w h eh s
  = Ok (tt, gl_do_all (overlay_calls w h eh) s) /\
  Forall (vertex_within (IZR w * 0.5) (IZR h * 0.5) (3.25 * IZR eh))
         (overlay_calls w h eh) /\
  Forall (vertex_on_circle (IZR w * 0.5) (IZR h * 0.5) (IZR eh))
         (rim_calls (IZR w * 0.5) (IZR h * 0.5) (IZR eh) 96).
Proof.
  split; [apply draw_black_hole_overlay_emits |].
  split; [| apply rim_calls_on_circle].
  unfold overlay_calls. cbv zeta. cbn [List.map concat].
  pose proof (Rle_0_sqr (IZR eh)) as Heh. unfold Rsqr in Heh.
  repeat match goal with
         | |- Forall _ (ring_calls _ _ _ _) => apply ring_calls_within; nra
         | |- Forall _ (rim_calls _ _ _ _) => apply rim_calls_within; nra
         | |- Forall _ (_ ++ _) => apply Forall_app; split
         | |- Forall _ (_ :: _) => constructor
         | |- Forall _ [] => constructor
         end;
    try exact I.
  unfold vertex_within. nra.
Qed.

(** ** Mouse motion *)

Lemma handle_motion_not_dragging pos st s :
  dragging st.2 = false -> handle_event (MOUSEMOTION pos) st s = Ok (st, s).
Proof.
  destruct st as [g l]. cbn [snd]. intros Hd.
  unfold handle_event. now rewrite Hd.
Qed.

Lemma process_motion_not_dragging evs st s :
  Forall (fun e => is_motion e = true) evs ->
  dragging st.2 = false -> process_events evs st s = Ok (st, s).
Proof.
  intros Hevs Hd. induction Hevs as [| e evs He _ IH]; [reflexivity |].
  destruct e; try discriminate He.
  cbn [process_events].
  now rewrite (bind_ok _ _ _ _ _ (handle_motion_not_dragging pos st s Hd)).
Qed.

(** X23. Mouse motion counts only during a drag: while [dragging] is false,
    and in particular after the left button is released, any number of
    motion events leaves the camera, the loop variables and the context as
    they are. *)
Theorem motion_ignored_unless_dragging (evs : list event) (st : state)
    (s : gl_state) :
  Forall (fun e => is_motion e = true) evs ->
  (dragging st.2 = false -> process_events evs st s = Ok (st, s)) /\
  (forall pos,
     process_events (MOUSEBUTTONUP 1 pos :: evs) st s
     = Ok ((st.1, set_dragging false st.2), s)).
Proof.
  intros Hevs. split; [now apply process_motion_not_dragging |].
  intros pos. destruct st as [g l]. cbn [process_events fst snd].
  assert (Hup : handle_event (MOUSEBUTTONUP 1 pos) (g, l) s
                = Ok ((g, set_dragging false l), s)) by reflexivity.
  rewrite (bind_ok _ _ _ _ _ Hup).
  apply process_motion_not_dragging; [exact Hevs | reflexivity].
Qed.

(** ** How [main] ends *)

Lemma link_program_raise vs_src fs_src s e :
  link_program vs_src fs_src s = Raise e ->
  (exists log, e = compile_error log) \/ (exists log, e = link_error log).
Proof.
  intros Hrun.
  destruct (compile_status drv GL_VERTEX_SHADER vs_src) eqn:Hvs.
  2: { rewrite link_program_vs_fails in Hrun by exact Hvs.
       injection Hrun as <-. left. now eexists. }
  destruct (compile_status drv GL_FRAGMENT_SHADER fs_src) eqn:Hfs.
  2: { rewrite link_program_fs_fails in Hrun by assumption.
       injection Hrun as <-. left. now eexists. }
  destruct (link_program_linking vs_src fs_src s Hvs Hfs)
    as [[_ Hraise] | (_ & vs & fs & s' & Hok & _)].
  - rewrite Hraise in Hrun. injection Hrun as <-. right. now eexists.
  - rewrite Hok in Hrun. discriminate.
Qed.

Lemma main_setup_raise s e : main_setup s = Raise e -> setup_error e.
Proof.
  intros Hrun. unfold main_setup in Hrun. cbv zeta in Hrun.
  rewrite bind_cmds in Hrun.
  rewrite (bind_emits _ _ _ _
             (set_perspective_emits _ _ initial_height_nonzero)) in Hrun.
  set (s0 := gl_do_all (perspective_calls _ _) _) in Hrun. clearbody s0.
  destruct (create_fbo_tex_spec (WIN_W initial_globals) (WIN_H initial_globals) s0)
    as [[_ Hraise] | (_ & s1 & Hok & _)].
  { rewrite (bind_raise _ _ _ _ Hraise) in Hrun. injection Hrun as <-.
    now left. }
  rewrite (bind_ok _ _ _ _ _ Hok) in Hrun. cbv beta iota in Hrun.
  destruct (create_fs_quad_spec s1) as (s2 & Hq & _).
  rewrite (bind_ok _ _ _ _ _ Hq) in Hrun. cbv beta iota in Hrun.
  destruct (link_program POST_VS POST_FS s2) as [[pid s3] | e'] eqn:Hlink.
  { rewrite (bind_ok _ _ _ _ _ Hlink), bind_ret_eq in Hrun. discriminate. }
  rewrite (bind_raise _ _ _ _ Hlink) in Hrun. injection Hrun as <-.
  right. exact (link_program_raise _ _ _ _ Hlink).
Qed.

Lemma handle_event_raise e st s x :
  handle_event e st s = Raise x -> is_resize e = true /\ resize_error x.
Proof.
  intros Hrun. destruct (is_resize e) eqn:He.
  - split; [reflexivity |]. destruct e; try discriminate He.
    destruct st as [g l].
    destruct (decide (h = 0%Z)) as [-> | Hh].
    + rewrite handle_resize_zero_height in Hrun. injection Hrun as <-.
      now left.
    + destruct (handle_resize_spec w h g l s Hh)
        as [[_ Hraise] | (_ & s' & Hok & _)].
      * rewrite Hraise in Hrun. injection Hrun as <-. now right.
      * rewrite Hok in Hrun. discriminate.
  - destruct (handle_event_not_resize e st s He) as (st' & Hok & _).
    rewrite Hok in Hrun. discriminate.
Qed.

Lemma process_events_raise evs st s x :
  process_events evs st s = Raise x ->
  existsb is_resize evs = true /\ resize_error x.
Proof.
  revert st s. induction evs as [| e evs IH]; intros st s Hrun;
    [discriminate |].
  cbn [process_events] in Hrun. cbn [existsb].
  destruct (handle_event e st s) as [[st1 s1] | x'] eqn:He.
  - rewrite (bind_ok _ _ _ _ _ He) in Hrun.
    destruct (IH _ _ Hrun) as (-> & Hx). now rewrite orb_true_r.
  - rewrite (bind_raise _ _ _ _ He) in Hrun. injection Hrun as <-.
    destruct (handle_event_raise _ _ _ _ He) as (-> & Hx). now split.
Qed.

Lemma frame_raise evs st s x :
  reachable st s -> frame evs st s = Raise x ->
  existsb is_resize evs = true /\ resize_error x.
Proof.
  intros Hreach Hrun.
  destruct (process_events evs st s) as [[st1 s1] | x'] eqn:Hev.
  - pose proof (process_events_reachable _ _ _ _ _ Hreach Hev) as Hr1.
    destruct (reachable_target _ _ Hr1) as (Hh & _).
    rewrite (frame_after_events _ _ _ _ _ Hev Hh) in Hrun. discriminate.
  - rewrite (frame_raises _ _ _ _ Hev) in Hrun. injection Hrun as <-.
    exact (process_events_raise _ _ _ _ Hev).
Qed.

Lemma main_loop_raise polls st s x :
  reachable st s -> main_loop polls st s = Raise x ->
  existsb (existsb is_resize) polls = true /\ resize_error x.
Proof.
  revert st s. induction polls as [| evs polls IH]; intros st s Hreach Hrun;
    [discriminate |].
  cbn [main_loop] in Hrun. cbn [existsb].
  destruct (running st.2); [| discriminate].
  destruct (frame evs st s) as [[st1 s1] | x'] eqn:Hf.
  - rewrite (bind_ok _ _ _ _ _ Hf) in Hrun.
    destruct (IH _ _ (frame_reachable _ _ _ _ _ Hreach Hf) Hrun) as (-> & Hx).
    now rewrite orb_true_r.
  - rewrite (bind_raise _ _ _ _ Hf) in Hrun. injection Hrun as <-.
    destruct (frame_raise _ _ _ _ Hreach Hf) as (-> & Hx). now split.
Qed.

Lemma frame_running evs st s st' s' :
  reachable st s -> frame evs st s = Ok (st', s') ->
  running st'.2 = running st.2 && negb (existsb is_quit evs).
Proof.
  intros Hreach Hrun.
  destruct (frame_returns_inv _ _ _ _ _ Hreach Hrun) as (s1 & Hev & _).
  exact (process_events_running _ _ _ _ _ Hev).
Qed.

Lemma main_loop_stops polls st s st' s' :
  reachable st s -> main_loop polls st s = Ok (st', s') ->
  running st.2 = true -> running st'.2 = false ->
  existsb (existsb is_quit) polls = true.
Proof.
  revert st s. induction polls as [| evs polls IH];
    intros st s Hreach Hrun Hr Hr'.
  - injection Hrun as <- <-. congruence.
  - cbn [main_loop] in Hrun. rewrite Hr in Hrun. cbn [existsb].
    destruct (frame evs st s) as [[st1 s1] | x'] eqn:Hf;
      [| rewrite (bind_raise _ _ _ _ Hf) in Hrun; discriminate].
    rewrite (bind_ok _ _ _ _ _ Hf) in Hrun.
    pose proof (frame_running _ _ _ _ _ Hreach Hf) as Hr1. rewrite Hr in Hr1.
    destruct (existsb is_quit evs); [reflexivity |].
    apply (IH st1 s1); try assumption.
    exact (frame_reachable _ _ _ _ _ Hreach Hf).
Qed.

(** X24. How [main] ends.  It raises a setup error ("FBO incomplete", a
    shader compile error or a program link error); or it raises
    [ZeroDivisionError] or "FBO incomplete" in an iteration, which takes a
    [VIDEORESIZE] event; or it exits with status 0, which takes a quit event;
    or the polls are used up with [running] still true.  It never exits with
    another status and never returns after the loop has stopped. *)
Theorem main_outcomes (polls : list (list event)) :
  match main polls gl_empty with
  | Ok (st, s) => running st.2 = true /\ reachable st s
  | Raise e =>
      setup_error e \/
      (resize_error e /\ existsb (existsb is_resize) polls = true) \/
      (e = SystemExit 0 /\ existsb (existsb is_quit) polls = true)
  end.
Proof.
  unfold main.
  destruct (main_setup gl_empty) as [[st0 s0] | e] eqn:Hsetup.
  2: { rewrite (bind_raise _ _ _ _ Hsetup). left.
       exact (main_setup_raise _ _ Hsetup). }
  rewrite (bind_ok _ _ _ _ _ Hsetup).
  pose proof (reach_setup _ _ Hsetup) as Hreach.
  destruct (main_setup_spec _ _ _ Hsetup) as (_ & _ & Hrun0 & _).
  destruct (main_loop polls st0 s0) as [[st1 s1] | e] eqn:Hloop.
  2: { rewrite (bind_raise _ _ _ _ Hloop). right. left.
       destruct (main_loop_raise _ _ _ _ Hreach Hloop). now split. }
  rewrite (bind_ok _ _ _ _ _ Hloop).
  destruct (running st1.2) eqn:Hr1.
  - rewrite bind_ret_eq. split; [exact Hr1 |].
    exact (main_loop_reachable _ _ _ _ _ Hreach Hloop).
  - rewrite (bind_raise _ _ _ _ (main_cleanup_exits st1 s1)).
    right. right. split; [reflexivity |].
    exact (main_loop_stops _ _ _ _ _ Hreach Hloop Hrun0 Hr1).
Qed.

(** ** Creating the objects *)

Lemma create_fbo_tex_bindings w h s r s' :
  create_fbo_tex w h s = Ok (r, s') ->
  bound_texture s' = 0%N /\ bound_renderbuffer s' = 0%N /\
  bound_framebuffer s' = 0%N /\
  bound_array_buffer s' = bound_array_buffer s /\
  bound_element_array_buffer s' = bound_element_array_buffer s /\
  current_program s' = current_program s.
Proof.
  unfold create_fbo_tex, bind, cmd, do_glGenTextures, do_glGenRenderbuffers,
    do_glGenFramebuffers, do_glCheckFramebufferStatus, gl_do.
  cbn.
  match goal with
  | |- context [negb ?b] => destruct b
  end; cbn; [| discriminate].
  intros H. injection H as _ <-. cbn. now repeat split.
Qed.

(** X25. [create_fbo_tex]: when the implementation reports the framebuffer
    incomplete it raises "FBO incomplete"; otherwise it returns three names
    that are not 0 and were not in use, of a texture and a renderbuffer of
    the requested size and of a framebuffer with these two attached, touches
    no other object, and leaves texture, renderbuffer and framebuffer 0
    bound. *)
Theorem create_fbo_tex_result (w h : Z) (s : gl_state) :
  (framebuffer_complete drv (Some (w, h)) (Some (w, h)) = false ->
   create_fbo_tex w h s = Raise (RuntimeError "FBO incomplete")) /\
  (framebuffer_complete drv (Some (w, h)) (Some (w, h)) = true ->
   exists fb tex rb s',
     create_fbo_tex w h s = Ok ((fb, tex, rb), s') /\
     fb <> 0%N /\ tex <> 0%N /\ rb <> 0%N /\
     framebuffers s !! fb = None /\ textures s !! tex = None /\
     renderbuffers s !! rb = None /\
     textures s' = <[tex := Some (w, h)]> (textures s) /\
     renderbuffers s' = <[rb := Some (w, h)]> (renderbuffers s) /\
     framebuffers s'
       = <[fb := FramebufferObj (Some tex) (Some rb)]> (framebuffers s) /\
     shaders s' = shaders s /\ programs s' = programs s /\
     buffers s' = buffers s /\
     bound_texture s' = 0%N /\ bound_renderbuffer s' = 0%N /\
     bound_framebuffer s' = 0%N).
Proof.
  destruct (create_fbo_tex_spec w h s)
    as [[Hno Hraise]
       | (Hyes & s' & Hok & Ht & Hr & Hf & Hs & Hp & Hb & _)].
  - split; [intros _; exact Hraise | congruence].
  - split; [congruence |]. intros _.
    destruct (create_fbo_tex_bindings _ _ _ _ _ Hok) as (Bt & Br & Bf & _).
    eexists _, _, _, s'. split; [exact Hok |].
    split; [apply fresh_name_nonzero |]. split; [apply fresh_name_nonzero |].
    split; [apply fresh_name_nonzero |].
    split; [apply fresh_name_lookup |]. split; [apply fresh_name_lookup |].
    split; [apply fresh_name_lookup |].
    now repeat split.
Qed.

(** X26. [link_program] on two sources that compile and link: it returns a
    name that is not 0 and was not in use, of a linked program with the two
    shaders attached; both shader objects are compiled and, being attached,
    survive their [glDeleteShader] flagged for deletion; nothing else in the
    context changes. *)
Theorem link_program_success (vs_src fs_src : string) (s : gl_state) :
  compile_status drv GL_VERTEX_SHADER vs_src = true ->
  compile_status drv GL_FRAGMENT_SHADER fs_src = true ->
  link_status drv (compiled_pair vs_src fs_src) = true ->
  exists pid vs fs s',
    link_program vs_src fs_src s = Ok (pid, s') /\
    pid <> 0%N /\ programs s !! pid = None /\
    programs s' = <[pid := ProgramObj [vs; fs] true]> (programs s) /\
    shaders s' !! vs = Some (ShaderObj GL_VERTEX_SHADER vs_src true true) /\
    shaders s' !! fs = Some (ShaderObj GL_FRAGMENT_SHADER fs_src true true) /\
    textures s' = textures s /\ renderbuffers s' = renderbuffers s /\
    framebuffers s' = framebuffers s /\ buffers s' = buffers s.
Proof.
  intros Hvs Hfs Hlink.
  destruct (link_program_linking vs_src fs_src s Hvs Hfs)
    as [[Hno _] | (_ & vs & fs & s' & Hok & Hrest)]; [congruence |].
  eexists _, vs, fs, s'. split; [exact Hok |].
  split; [apply fresh_name_nonzero |]. split; [apply fresh_name_lookup |].
  exact Hrest.
Qed.

Lemma create_fs_quad_bindings s r s' :
  create_fs_quad s = Ok (r, s') ->
  bound_array_buffer s' = 0%N /\ bound_element_array_buffer s' = 0%N /\
  bound_texture s' = bound_texture s /\
  bound_renderbuffer s' = bound_renderbuffer s /\
  bound_framebuffer s' = bound_framebuffer s /\
  current_program s' = current_program s.
Proof.
  unfold create_fs_quad. cbv zeta.
  rewrite bind_glGenBuffers, !bind_cmd, bind_glGenBuffers, !bind_cmd,
    bind_ret_eq.
  intros H. injection H as _ <-.
  repeat match goal with
         | |- context [gl_do ?c ?s0] =>
             destruct (bindings_gl_do c s0) as (-> & -> & -> & -> & -> & ->)
         end.
  now repeat split.
Qed.

(** X29. [create_fs_quad] never raises.  It returns two different names
    that are not 0 and were not in use; the first buffer holds the 16 floats
    of the four vertices, uploaded as 64 bytes, the second the 6 indices,
    uploaded as 24 bytes, and every index refers to one of the four
    vertices; no other object changes and no buffer is left bound. *)
Theorem create_fs_quad_result (s : gl_state) :
  exists vbo ebo s',
    create_fs_quad s = Ok ((vbo, ebo), s') /\
    vbo <> 0%N /\ ebo <> 0%N /\ vbo <> ebo /\
    buffers s !! vbo = None /\ buffers s !! ebo = None /\
    buffers s' = <[ebo := Some (c_uint_array quad_indices)]>
                   (<[vbo := Some (c_float_array quad_vertices)]> (buffers s)) /\
    In (glBufferData GL_ARRAY_BUFFER 64 (c_float_array quad_vertices)
          GL_STATIC_DRAW) (calls s') /\
    In (glBufferData GL_ELEMENT_ARRAY_BUFFER 24 (c_uint_array quad_indices)
          GL_STATIC_DRAW) (calls s') /\
    Forall (fun i => (0 <= i < Z.of_nat (length quad_vertices) / 4)%Z)
           quad_indices /\
    shaders s' = shaders s /\ programs s' = programs s /\
    textures s' = textures s /\ renderbuffers s' = renderbuffers s /\
    framebuffers s' = framebuffers s /\
    bound_array_buffer s' = 0%N /\ bound_element_array_buffer s' = 0%N.
Proof.
  destruct (create_fs_quad_spec s)
    as (s' & Hok & Hb & Hne & Hs & Hp & Ht & Hr & Hf & Hc).
  destruct (create_fs_quad_bindings _ _ _ Hok) as (Ba & Be & _).
  eexists _, _, s'. split; [exact Hok |].
  split; [apply fresh_name_nonzero |]. split; [apply fresh_name_nonzero |].
  split; [exact Hne |]. split; [apply fresh_name_lookup |].
  split.
  { pose proof (fresh_name_lookup
                  (<[fresh_name (dom (buffers s))
                     := Some (c_float_array quad_vertices)]> (buffers s))) as H.
    apply lookup_insert_None in H. apply H. }
  split; [exact Hb |].
  split; [rewrite Hc; apply in_or_app; right; in_list |].
  split; [rewrite Hc; apply in_or_app; right; in_list |].
  split.
  { change (Z.of_nat (length quad_vertices) / 4)%Z with 4%Z.
    unfold quad_indices. repeat (constructor; [lia |]). constructor. }
  now repeat split.
Qed.

(** ** Matrix stacks and immediate mode *)

Lemma run_calls_app {S} (step : gl_call -> S -> option S) l1 l2 x :
  run_calls step (l1 ++ l2) x
  = match run_calls step l1 x with
    | Some x' => run_calls step l2 x'
    | None => None
    end.
Proof.
  revert x. induction l1 as [| c l1 IH]; intros x; [reflexivity |].
  cbn [app run_calls]. destruct (step c x); [apply IH | reflexivity].
Qed.

Lemma run_calls_fixed {S} (step : gl_call -> S -> option S) l x :
  Forall (fun c => step c x = Some x) l -> run_calls step l x = Some x.
Proof.
  intros Hl. induction Hl as [| c l Hc _ IH]; [reflexivity |].
  cbn [run_calls]. now rewrite Hc.
Qed.

Lemma run_calls_concat_map {S A} (step : gl_call -> S -> option S)
    (F : A -> list gl_call) xs x :
  (forall a, run_calls step (F a) x = Some x) ->
  run_calls step (concat (List.map F xs)) x = Some x.
Proof.
  intros HF. induction xs as [| a xs IH]; [reflexivity |].
  cbn [List.map concat]. now rewrite run_calls_app, HF.
Qed.

Lemma matrix_run_rim cx cy r n m :
  run_calls matrix_step (rim_calls cx cy r n) m = Some m.
Proof.
  apply run_calls_fixed. unfold rim_calls. apply Forall_map_intro.
  intros i. now destruct m as [[mode p] v].
Qed.

Lemma matrix_run_ring cx cy r a m :
  run_calls matrix_step (ring_calls cx cy r a) m = Some m.
Proof.
  unfold ring_calls. destruct m as [[mode p] v].
  repeat progress (rewrite ?run_calls_app, ?matrix_run_rim;
                   cbn [run_calls matrix_step]).
  reflexivity.
Qed.

Lemma matrix_run_overlay w h eh mode p v :
  run_calls matrix_step (overlay_calls w h eh) (mode, p, v)
  = Some (GL_MODELVIEW, p, v).
Proof.
  unfold overlay_calls. cbv zeta.
  repeat progress
    (rewrite ?run_calls_app, ?matrix_run_rim,
       ?(run_calls_concat_map matrix_step)
       by (intros i; apply matrix_run_ring);
     cbn [run_calls matrix_step]).
  reflexivity.
Qed.

Lemma matrix_run_grid g m :
  run_calls matrix_step (grid_calls g) m = Some m.
Proof.
  apply run_calls_fixed. unfold grid_calls.
  destruct m as [[mode p] v]. destruct (show_grid g); all_calls.
Qed.

Lemma matrix_run_scene_objects p v :
  run_calls matrix_step scene_objects_calls (GL_MODELVIEW, p, v)
  = Some (GL_MODELVIEW, p, v).
Proof.
  unfold scene_objects_calls.
  repeat progress
    (rewrite ?run_calls_app,
       ?(run_calls_concat_map matrix_step star_calls)
       by (intros [[[sx sy] sz] [[r g0] b]]; reflexivity);
     cbn [run_calls matrix_step]).
  rewrite run_calls_fixed by all_calls.
  reflexivity.
Qed.

Lemma matrix_run_render st mode p v :
  run_calls matrix_step (render_calls st) (mode, p, v)
  = Some (GL_MODELVIEW, p, v).
Proof.
  assert (Hpost : forall m,
            run_calls matrix_step (post_pass_calls st) m = Some m).
  { intros [[mode' p'] v']. apply run_calls_fixed.
    destruct st. unfold post_pass_calls. all_calls. }
  unfold render_calls, scene_pass_calls, scene_body_calls, present_calls,
    perspective_calls, camera_calls.
  repeat progress
    (rewrite ?run_calls_app, ?matrix_run_grid, ?matrix_run_scene_objects,
       ?Hpost, ?matrix_run_overlay;
     cbn [run_calls matrix_step]).
  reflexivity.
Qed.

Lemma immediate_run_rim cx cy r n :
  run_calls immediate_step (rim_calls cx cy r n) true = Some true.
Proof.
  apply run_calls_fixed. unfold rim_calls. now apply Forall_map_intro.
Qed.

Lemma immediate_run_ring cx cy r a :
  run_calls immediate_step (ring_calls cx cy r a) false = Some false.
Proof.
  unfold ring_calls.
  repeat progress (rewrite ?run_calls_app, ?immediate_run_rim;
                   cbn [run_calls immediate_step]).
  reflexivity.
Qed.

Lemma immediate_run_overlay w h eh :
  run_calls immediate_step (overlay_calls w h eh) false = Some false.
Proof.
  unfold overlay_calls. cbv zeta.
  repeat progress
    (rewrite ?run_calls_app, ?immediate_run_rim,
       ?(run_calls_concat_map immediate_step)
       by (intros i; apply immediate_run_ring);
     cbn [run_calls immediate_step]).
  reflexivity.
Qed.

Lemma immediate_run_grid g :
  run_calls immediate_step (grid_calls g) false = Some false.
Proof.
  unfold grid_calls. destruct (show_grid g); [| reflexivity].
  repeat progress
    (rewrite ?run_calls_app,
       ?(run_calls_concat_map immediate_step) by (intros i; reflexivity);
     cbn [run_calls immediate_step]).
  reflexivity.
Qed.

Lemma immediate_run_scene_objects :
  run_calls immediate_step scene_objects_calls false = Some false.
Proof.
  unfold scene_objects_calls.
  repeat progress
    (rewrite ?run_calls_app,
       ?(run_calls_concat_map immediate_step star_calls)
       by (intros [[[sx sy] sz] [[r g0] b]]; reflexivity);
     cbn [run_calls immediate_step]).
  rewrite run_calls_concat_map by (intros i; reflexivity).
  reflexivity.
Qed.

Lemma immediate_run_render st :
  run_calls immediate_step (render_calls st) false = Some false.
Proof.
  assert (Hpost : run_calls immediate_step (post_pass_calls st) false
                 = Some false).
  { apply run_calls_fixed. destruct st. unfold post_pass_calls. all_calls. }
  unfold render_calls, scene_pass_calls, scene_body_calls, present_calls,
    perspective_calls, camera_calls.
  repeat progress
    (rewrite ?run_calls_app, ?immediate_run_grid,
       ?immediate_run_scene_objects, ?Hpost, ?immediate_run_overlay;
     cbn [run_calls immediate_step]).
  reflexivity.
Qed.

(** X27. The render part of an iteration in a window of non-zero height
    performs [render_calls], and these keep the matrix stacks balanced:
    whatever the matrix mode and the depths of the projection and modelview
    stacks before, no stack is popped below the depth it had, both have that
    depth again afterwards, and the matrix mode is [GL_MODELVIEW]. *)
Theorem matrix_stacks_balanced (st : state) (s : gl_state) (mode : GLenum)
    (p v : nat) :
  WIN_H st.1 <> 0%Z ->
  (render_scene_pass st ;; postprocess_pass st ;; overlay_pass st ;; present) s
  = Ok (tt, gl_do_all (render_calls st) s) /\
  run_calls matrix_step (render_calls st) (mode, 0%nat, 0%nat)
  = Some (GL_MODELVIEW, 0%nat, 0%nat) /\
  run_calls matrix_step (render_calls st) (mode, p, v)
  = Some (GL_MODELVIEW, p, v).
Proof.
  intros Hh. split; [exact (render_emits st Hh s) |].
  split; apply matrix_run_render.
Qed.

(** X28. The render part of an iteration in a window of non-zero height
    uses immediate mode properly: every [glBegin] is closed by a [glEnd]
    before the next one opens, vertices are issued only between the two,
    nothing but vertices is, and no primitive is left open at the flip. *)
Theorem immediate_mode_well_formed (st : state) (s : gl_state) :
  WIN_H st.1 <> 0%Z ->
  (render_scene_pass st ;; postprocess_pass st ;; overlay_pass st ;; present) s
  = Ok (tt, gl_do_all (render_calls st) s) /\
  run_calls immediate_step (render_calls st) false = Some false.
Proof.
  intros Hh. split; [exact (render_emits st Hh s) |].
  apply immediate_run_render.
Qed.

(** ** Dragging *)

Lemma Int_part_minus_IZR r k : Int_part (r - IZR k) = (Int_part r - k)%Z.
Proof.
  symmetry. apply Int_part_spec. rewrite minus_IZR.
  destruct (base_Int_part r) as [Hlo Hhi]. lra.
Qed.

Lemma fmod_add_fmod x d y :
  0 < y -> Py.fmod (Py.fmod x y + d) y = Py.fmod (x + d) y.
Proof.
  intros Hy. unfold Py.fmod.
  replace ((x - y * IZR (Int_part (x / y)) + d) / y)
    with ((x + d) / y - IZR (Int_part (x / y))) by (field; lra).
  rewrite Int_part_minus_IZR, minus_IZR. ring.
Qed.

Lemma handle_motion_dragging mx my g l s :
  dragging l = true ->
  handle_event (MOUSEMOTION (mx, my)) (g, l) s
  = Ok ((set_cam_pitch
           (Py.max (-85)
              (Py.min 85 (cam_pitch g + IZR (my - last_my l) * 0.3)))
           (set_cam_yaw
              (Py.fmod (cam_yaw g + IZR (mx - last_mx l) * 0.3) 360) g),
         set_last_my my (set_last_mx mx l)), s).
Proof. intros Hd. unfold handle_event. now rewrite Hd. Qed.

Lemma pitch_clamp_bounds x : -85 <= Py.max (-85) (Py.min 85 x) <= 85.
Proof. apply py_clamp_bounds. lra. Qed.

Lemma drag_motions ps q g l s :
  dragging l = true ->
  exists g' l',
    process_events (List.map MOUSEMOTION (ps ++ [q])) (g, l) s
    = Ok ((g', l'), s) /\
    cam_yaw g' = Py.fmod (cam_yaw g + IZR (q.1 - last_mx l) * 0.3) 360 /\
    -85 <= cam_pitch g' <= 85 /\
    cam_dist g' = cam_dist g /\
    dragging l' = true /\ last_mx l' = q.1 /\ last_my l' = q.2.
Proof.
  revert g l. induction ps as [| [px py] ps IH]; intros g l Hd.
  - destruct q as [qx qy]. eexists _, _.
    cbn [app List.map process_events].
    rewrite (bind_ok _ _ _ _ _ (handle_motion_dragging qx qy g l s Hd)).
    split; [reflexivity |]. cbn [fst snd].
    split; [reflexivity |]. split; [apply pitch_clamp_bounds |].
    split; [reflexivity |]. split; [exact Hd |]. split; reflexivity.
  - cbn [app List.map process_events].
    rewrite (bind_ok _ _ _ _ _ (handle_motion_dragging px py g l s Hd)).
    destruct (IH (set_cam_pitch
                    (Py.max (-85)
                       (Py.min 85 (cam_pitch g + IZR (py - last_my l) * 0.3)))
                    (set_cam_yaw
                       (Py.fmod (cam_yaw g + IZR (px - last_mx l) * 0.3) 360)
                       g))
                 (set_last_my py (set_last_mx px l)) Hd)
      as (g' & l' & Hrun & Hyaw & Hpitch & Hdist & Hrest).
    exists g', l'. split; [exact Hrun |].
    split; [| split; [exact Hpitch | split; [exact Hdist | exact Hrest]]].
    rewrite Hyaw. cbn [cam_yaw set_cam_pitch set_cam_yaw last_mx set_last_my
                         set_last_mx].
    rewrite fmod_add_fmod by lra. f_equal.
    rewrite !minus_IZR. lra.
Qed.

(** X30. During a drag the yaw depends only on how far the pointer has
    moved horizontally since the press: after a press of the left button at
    [p0] and any sequence of motions that ends at [q], it is the old yaw
    plus 0.3 degrees per pixel of [q.x - p0.x], modulo 360, whatever the
    path and whatever position an earlier drag left behind; the pitch is
    within its clamp, the distance unchanged, the drag still on. *)
Theorem drag_yaw_depends_on_displacement (g : globals) (l : locals)
    (s : gl_state) (p0 q : Z * Z) (ps : list (Z * Z)) :
  exists g' l',
    process_events
      (MOUSEBUTTONDOWN 1 p0 :: List.map MOUSEMOTION (ps ++ [q])) (g, l) s
    = Ok ((g', l'), s) /\
    cam_yaw g' = Py.fmod (cam_yaw g + IZR (q.1 - p0.1) * 0.3) 360 /\
    -85 <= cam_pitch g' <= 85 /\
    cam_dist g' = cam_dist g /\
    dragging l' = true /\ last_mx l' = q.1 /\ last_my l' = q.2.
Proof.
  assert (Hdown : handle_event (MOUSEBUTTONDOWN 1 p0) (g, l) s
                  = Ok ((g, set_last_my p0.2
                              (set_last_mx p0.1 (set_dragging true l))), s))
    by reflexivity.
  cbn [process_events]. rewrite (bind_ok _ _ _ _ _ Hdown).
  apply (drag_motions ps q g). reflexivity.
Qed.

(** ** Iterations that return *)

Lemma frame_without_resize evs st s :
  reachable st s ->
  Forall (fun e => is_resize e = false) evs ->
  exists st' s', frame evs st s = Ok (st', s').
Proof.
  intros Hreach Hevs.
  destruct (process_events_no_resize evs st s Hevs) as (st' & Hev & Hsame).
  destruct (reachable_target _ _ Hreach) as (Hh & _).
  destruct Hsame as (_ & Hh' & _).
  exists st', (gl_do_all (render_calls st') s).
  apply frame_after_events; [exact Hev | now rewrite Hh'].
Qed.
End WithDriver.

(** * Concrete instances *)

(** An implementation that accepts every shader, program and framebuffer. *)
Definition accepting_driver : driver :=
  {| compile_status := fun _ _ => true;
     shader_info_log := fun _ _ => "";
     link_status := fun _ => true;
     program_info_log := fun _ => "";
     framebuffer_complete := fun _ _ => true;
     uniform_location := fun name =>
       if String.eqb name "uScene" then 0
       else if String.eqb name "uResolution" then 1
       else if String.eqb name "uStrength" then 2
       else if String.eqb name "uRadius" then 3
       else if String.eqb name "uEHpx" then 4 else (-1);
     attrib_location := fun name =>
       if String.eqb name "aPos" then 0
       else if String.eqb name "aUV" then 1 else (-1) |}%Z.

(** Loop variables as the setup leaves them, with the names a fresh context
    hands out. *)
Definition idle_locals : locals :=
  {| fbo := 1; scene_tex := 1; rbo := 1; fs_vbo := 1; fs_ebo := 2;
     post_prog := 1; dragging := false; last_mx := 0; last_my := 0;
     running := true |}.

(** The state after the setup under [accepting_driver]. *)
Definition after_setup : state * gl_state :=
  match main_setup accepting_driver gl_empty with
  | Ok x => x
  | Raise _ => ((initial_globals, idle_locals), gl_empty)
  end.

(** The state after a resize to 640 x 480 that follows the setup. *)
Definition after_resize : state * gl_state :=
  match handle_event accepting_driver (VIDEORESIZE 640 480)
          after_setup.1 after_setup.2 with
  | Ok x => x
  | Raise _ => after_setup
  end.

(** The uniforms of the initial state and two fragments of a 1280 x 800
    window: one 100.7 pixels from the centre, one 460.5 pixels from it. *)
Definition initial_uniforms : PostFS.uniforms := post_uniforms initial_globals.
Definition near_fragment : vec2 := Vec2 700.5 480.5.
Definition far_fragment : vec2 := Vec2 1100.5 400.5.
Definition center_fragment : vec2 := Vec2 640.5 400.5.

Lemma after_setup_returns :
  main_setup accepting_driver gl_empty = Ok after_setup.
Proof.
  unfold after_setup.
  destruct (main_setup_returns accepting_driver gl_empty)
    as (st & s & ->); reflexivity.
Defined.

Lemma after_setup_reachable :
  reachable accepting_driver after_setup.1 after_setup.2.
Proof.
  apply reach_setup. rewrite after_setup_returns. now destruct after_setup.
Defined.

Lemma after_resize_returns :
  handle_event accepting_driver (VIDEORESIZE 640 480)
    after_setup.1 after_setup.2 = Ok (after_resize.1, after_resize.2).
Proof.
  unfold after_resize. destruct (after_setup.1) as [g l].
  destruct (handle_resize_spec accepting_driver 640 480 g l after_setup.2)
    as [[Hno _] | (_ & s' & -> & _)]; [discriminate | discriminate | reflexivity].
Defined.

(** The square root of a number below a square is below its root. *)
Lemma sqrt_lt_of_square x b : 0 < b -> x < b * b -> sqrt x < b.
Proof.
  intros Hb Hx. destruct (Rle_lt_dec x 0) as [Hneg | Hpos].
  - destruct (Rle_lt_or_eq_dec _ _ Hneg) as [Hlt | ->].
    + rewrite sqrt_neg_0 by lra. exact Hb.
    + rewrite sqrt_0. exact Hb.
  - rewrite <- (sqrt_square b) by lra. apply sqrt_lt_1; nra.
Defined.

Lemma sqrt_gt_of_square x b : 0 <= b -> b * b < x -> b < sqrt x.
Proof.
  intros Hb Hx. rewrite <- (sqrt_square b) at 1 by lra.
  apply sqrt_lt_1; nra.
Defined.

Lemma initial_min_side :
  Rmin (vx (PostFS.uResolution initial_uniforms))
       (vy (PostFS.uResolution initial_uniforms)) = 800.
Proof. simpl. unfold Rmin. destruct (Rle_dec 1280 800); lra. Defined.

Lemma near_fragment_inside :
  normalized_distance initial_uniforms near_fragment
  < PostFS.uRadius initial_uniforms.
Proof.
  unfold normalized_distance. rewrite initial_min_side.
  apply (Rmult_lt_reg_r (800 / 2)); [lra |].
  unfold Rdiv at 1. rewrite Rmult_assoc, Rinv_l, Rmult_1_r by lra.
  unfold center_distance. simpl.
  apply sqrt_lt_of_square; lra.
Defined.

Lemma far_fragment_outside :
  normalized_distance initial_uniforms far_fragment
  >= PostFS.uRadius initial_uniforms.
Proof.
  unfold normalized_distance. rewrite initial_min_side.
  apply Rle_ge. apply (Rmult_le_reg_r (800 / 2)); [lra |].
  unfold Rdiv at 2. rewrite Rmult_assoc, Rinv_l, Rmult_1_r by lra.
  unfold center_distance. simpl.
  apply Rlt_le, sqrt_gt_of_square; lra.
Defined.

Lemma center_fragment_in_horizon :
  center_distance initial_uniforms center_fragment
  <= PostFS.uEHpx initial_uniforms.
Proof.
  unfold center_distance. simpl.
  apply Rlt_le, sqrt_lt_of_square; lra.
Defined.

(** C1 at the initial uniforms: the near fragment is warped by the formula,
    the far one not at all. *)
Lemma warp_witness :
  PostFS.warp initial_uniforms near_fragment
  = 0.16 * (1 - normalized_distance initial_uniforms near_fragment / 0.55)
    / (normalized_distance initial_uniforms near_fragment + 0.02)
  /\ PostFS.warp initial_uniforms far_fragment = 0.
Proof.
  split.
  - exact (proj1 (warp_inside_radius_else_zero initial_uniforms near_fragment)
                 near_fragment_inside).
  - exact (proj1 (proj2 (warp_inside_radius_else_zero initial_uniforms
                           far_fragment)
                        far_fragment_outside)).
Defined.

(** C2 at the centre of the window. *)
Lemma event_horizon_witness :
  PostFS.main initial_uniforms (fun _ => Vec4 1 1 1 1) center_fragment
              (Vec2 0.5 0.5)
  = PostFS.FragOut (Vec4 0 0 0 1) [].
Proof.
  exact (proj1 (event_horizon_is_black initial_uniforms center_fragment
                  (Vec2 0.5 0.5) (fun _ => Vec4 1 1 1 1)
                  center_fragment_in_horizon)).
Defined.

(** A poll of three events: key G, wheel up, key L; and the state they lead
    to. *)
Definition three_events : list event :=
  [KEYDOWN K_g; MOUSEBUTTONDOWN 4 (0, 0)%Z; KEYDOWN K_l].

Definition after_three_events (st : state) : state :=
  (set_enable_lensing (negb (enable_lensing st.1))
     (set_cam_dist (Py.max 3.5 (cam_dist st.1 - 1))
        (set_show_grid (negb (show_grid st.1)) st.1)),
   st.2).

Lemma three_events_handled drv st s :
  all_events_handled drv three_events st s (Ok (after_three_events st, s)).
Proof.
  destruct st as [g l]. unfold three_events.
  eapply handled_next; [reflexivity |].
  eapply handled_next; [reflexivity |].
  eapply handled_next; [reflexivity |].
  apply handled_none.
Defined.

Lemma after_three_events_reachable :
  reachable accepting_driver (after_three_events after_setup.1) after_setup.2.
Proof.
  apply (process_events_reachable accepting_driver three_events _ _ _ _
           after_setup_reachable).
  apply all_events_handled_process, three_events_handled.
Defined.

Lemma after_resize_reachable :
  reachable accepting_driver after_resize.1 after_resize.2.
Proof.
  exact (reach_event accepting_driver _ _ _ _ _ after_setup_reachable
           after_resize_returns).
Defined.

(** C3 and C4 after the setup and the three events, of which the wheel has
    moved the camera. *)
Lemma camera_witness :
  -85 <= cam_pitch (after_three_events after_setup.1).1 <= 85 /\
  3.5 <= cam_dist (after_three_events after_setup.1).1 <= 80.
Proof.
  exact (proj1 (camera_stays_in_bounds accepting_driver _ _
                  after_three_events_reachable)).
Defined.

Lemma lens_witness :
  0.02 <= lens_strength (after_three_events after_setup.1).1 <= 0.75 /\
  0.15 <= lens_radius (after_three_events after_setup.1).1 <= 0.95.
Proof.
  exact (proj1 (lens_stays_in_bounds accepting_driver _ _
                  after_three_events_reachable)).
Defined.

(** C6 for a resize to 640 x 480 right after the setup. *)
Lemma resize_witness :
  WIN_W after_resize.1.1 = 640%Z /\ WIN_H after_resize.1.1 = 480%Z /\
  target_matches_window after_resize.1 after_resize.2.
Proof.
  pose proof (offscreen_target_follows_window accepting_driver
                after_setup.1 after_setup.2 640 480
                after_resize.1 after_resize.2 after_setup_reachable) as H.
  destruct (H after_resize_returns) as (_ & Hw & Hh & Ht & _).
  exact (conj Hw (conj Hh Ht)).
Defined.

(** C8, as amended, for the poll of three events right after the setup: the
    iteration returns in the state the three handlers lead to, with the grid
    and the lensing toggled. *)
Lemma frame_witness :
  exists s',
    frame accepting_driver three_events after_setup.1 after_setup.2
    = Ok (after_three_events after_setup.1, s') /\
    show_grid (after_three_events after_setup.1).1
    = negb (show_grid after_setup.1.1) /\
    enable_lensing (after_three_events after_setup.1).1
    = negb (enable_lensing after_setup.1.1).
Proof.
  destruct (proj2 (proj2 (proj2
              (frame_phases_in_order accepting_driver three_events
                 after_setup.1 after_setup.2 after_setup_reachable)))
              _ _ (three_events_handled accepting_driver
                     after_setup.1 after_setup.2))
    as (l & s' & Hf & _).
  exists s'. split; [exact Hf |]. split; reflexivity.
Defined.

(** An implementation that accepts the shaders and the program, but a
    framebuffer only at the initial window size 1280 x 800. *)
Definition strict_driver : driver :=
  {| compile_status := fun _ _ => true;
     shader_info_log := fun _ _ => "";
     link_status := fun _ => true;
     program_info_log := fun _ => "";
     framebuffer_complete := fun color _ =>
       match color with
       | Some (w, h) => (w =? 1280)%Z && (h =? 800)%Z
       | None => false
       end;
     uniform_location := fun _ => 0%Z;
     attrib_location := fun _ => 0%Z |}.

(** The state after the setup under [strict_driver]. *)
Definition strict_setup : state * gl_state :=
  match main_setup strict_driver gl_empty with
  | Ok x => x
  | Raise _ => ((initial_globals, idle_locals), gl_empty)
  end.

Lemma strict_setup_reachable :
  reachable strict_driver strict_setup.1 strict_setup.2.
Proof.
  apply reach_setup. unfold strict_setup.
  destruct (main_setup_returns strict_driver gl_empty)
    as (st & s & ->); reflexivity.
Defined.

Lemma strict_resize_raises :
  frame strict_driver [VIDEORESIZE 640 480] strict_setup.1 strict_setup.2
  = Raise (RuntimeError "FBO incomplete").
Proof.
  apply frame_raises. cbn [process_events]. apply bind_raise.
  destruct strict_setup.1 as [g l].
  destruct (handle_resize_spec strict_driver 640 480 g l strict_setup.2)
    as [[_ Hraise] | (Hyes & _)]; [discriminate | exact Hraise |].
  discriminate Hyes.
Defined.

(** C8 as stated fails: when the implementation reports the framebuffer of
    the new size incomplete, the handler of [VIDEORESIZE] raises
    [RuntimeError("FBO incomplete")], and the iteration that polled the event
    renders and presents nothing. *)
Lemma resize_failure_skips_rendering :
  reachable strict_driver strict_setup.1 strict_setup.2 /\
  ~ iteration_performs_all_phases strict_driver [VIDEORESIZE 640 480]
      strict_setup.1 strict_setup.2.
Proof.
  split; [exact strict_setup_reachable |].
  intros (st1 & s1 & s' & _ & Hf & _).
  rewrite strict_resize_raises in Hf. discriminate Hf.
Qed.

(** C9, as amended, for the key that toggles the grid. *)
Lemma grid_key_witness :
  exists st',
    handle_event accepting_driver (KEYDOWN K_g) (initial_globals, idle_locals)
                 gl_empty = Ok (st', gl_empty) /\
    WIN_W st'.1 = 1280%Z /\ WIN_H st'.1 = 800%Z /\ fbo st'.2 = 1%N.
Proof.
  destruct (input_events_keep_window_and_objects accepting_driver
              (KEYDOWN K_g) (initial_globals, idle_locals) gl_empty eq_refl)
    as (st' & Hrun & Hw & Hh & _ & Hf & _).
  exists st'. exact (conj Hrun (conj Hw (conj Hh Hf))).
Defined.

(** C9 as stated fails: key G changes [show_grid], which is none of the
    camera and lens variables. *)
Lemma grid_key_changes_show_grid :
  ~ mutates_only_camera_and_lens accepting_driver (KEYDOWN K_g)
      (initial_globals, idle_locals) gl_empty.
Proof.
  intros H.
  destruct (H (set_show_grid false initial_globals, idle_locals) gl_empty
              eq_refl) as (_ & _ & _ & _ & Hgrid & _).
  discriminate Hgrid.
Qed.

(** The uniforms of the initial state with lensing switched off. *)
Definition lensing_off_uniforms : PostFS.uniforms :=
  post_uniforms (set_enable_lensing false initial_globals).

Lemma far_fragment_beyond_horizon :
  center_distance lensing_off_uniforms far_fragment
  > PostFS.uEHpx lensing_off_uniforms.
Proof.
  unfold center_distance. simpl.
  apply Rlt_gt, sqrt_gt_of_square; lra.
Defined.

(** C10 for the initial globals with lensing switched off and a white scene:
    the strength is 0, the far fragment is not displaced and gets the sample
    at its own coordinate scaled by the vignette factor, and the fragment at
    the centre is black. *)
Lemma lensing_off_witness :
  PostFS.uStrength lensing_off_uniforms = 0 /\
  PostFS.disp lensing_off_uniforms far_fragment = Vec2 0 0 /\
  (let k := Glsl.clamp
              (1 - Glsl.pow (normalized_distance lensing_off_uniforms
                               far_fragment) 2 * 0.25) 0.8 1 in
   PostFS.main lensing_off_uniforms (fun _ => Vec4 1 1 1 1) far_fragment
               (Vec2 0.5 0.5)
   = PostFS.FragOut (Vec4 (1 * k) (1 * k) (1 * k) 1) [Vec2 0.5 0.5]) /\
  PostFS.main lensing_off_uniforms (fun _ => Vec4 1 1 1 1) center_fragment
              (Vec2 0.5 0.5)
  = PostFS.FragOut (Vec4 0 0 0 1) [].
Proof.
  destruct (lensing_off_samples_in_place accepting_driver
              (set_enable_lensing false initial_globals) eq_refl)
    as (Hs & _ & Hout & Hin).
  destruct (Hout far_fragment (Vec2 0.5 0.5) (fun _ => Vec4 1 1 1 1)
              far_fragment_beyond_horizon) as (Hd & _ & _ & Hmain).
  split; [exact Hs |]. split; [exact Hd |]. split; [exact Hmain |].
  apply Hin. unfold center_distance. simpl.
  apply Rlt_le, sqrt_lt_of_square; lra.
Defined.

(** * Instances of the further properties *)

Lemma after_setup_eq :
  main_setup accepting_driver gl_empty = Ok (after_setup.1, after_setup.2).
Proof. rewrite after_setup_returns. now destruct after_setup. Defined.

Lemma after_setup_running : running after_setup.1.2 = true.
Proof.
  exact (proj1 (proj2 (proj2 (main_setup_spec accepting_driver _ _ _
                                after_setup_eq)))).
Defined.

(** The state after an iteration that polls a [QUIT] event right after the
    setup. *)
Definition after_quit : state * gl_state :=
  match frame accepting_driver [QUIT] after_setup.1 after_setup.2 with
  | Ok x => x
  | Raise _ => after_setup
  end.

Lemma after_quit_returns :
  frame accepting_driver [QUIT] after_setup.1 after_setup.2
  = Ok (after_quit.1, after_quit.2).
Proof.
  unfold after_quit.
  destruct (frame_without_resize accepting_driver [QUIT] _ _
              after_setup_reachable ltac:(repeat constructor))
    as (st' & s' & ->).
  reflexivity.
Defined.

Lemma initial_strength : PostFS.uStrength initial_uniforms = 0.16.
Proof. reflexivity. Defined.

Lemma near_fragment_off_centre :
  center_distance initial_uniforms near_fragment > 1e-5.
Proof.
  unfold center_distance. simpl.
  apply Rlt_gt, sqrt_gt_of_square; lra.
Defined.

(** X1 and X2 at the initial uniforms. *)
Lemma warp_bounded_witness :
  0 <= PostFS.warp initial_uniforms near_fragment
    <= 50 * PostFS.uStrength initial_uniforms.
Proof.
  apply (warp_bounded initial_uniforms near_fragment).
  - rewrite initial_min_side. lra.
  - rewrite initial_strength. lra.
Defined.

Lemma warp_decreases_witness :
  PostFS.warp initial_uniforms far_fragment
  <= PostFS.warp initial_uniforms near_fragment.
Proof.
  apply (warp_decreases_with_distance initial_uniforms
           near_fragment far_fragment).
  - rewrite initial_min_side. lra.
  - rewrite initial_strength. lra.
  - pose proof near_fragment_inside. pose proof far_fragment_outside. lra.
Defined.

(** X3 for the near fragment and the fragment a quarter turn around the
    centre from it. *)
Lemma warp_distance_witness :
  PostFS.warp initial_uniforms near_fragment
  = PostFS.warp initial_uniforms (Vec2 559.5 460.5).
Proof.
  apply (proj1 (warp_depends_on_distance_only initial_uniforms near_fragment
                  (Vec2 559.5 460.5))).
  unfold center_distance. simpl. f_equal. lra.
Defined.

(** X4 and X5 at the near fragment. *)
Lemma displacement_witness :
  sqrt ((vx (PostFS.disp initial_uniforms near_fragment)
         * vx (PostFS.uResolution initial_uniforms)) ^ 2
        + (vy (PostFS.disp initial_uniforms near_fragment)
           * vy (PostFS.uResolution initial_uniforms)) ^ 2)
  = Rabs (PostFS.warp initial_uniforms near_fragment
          * (Rmin (vx (PostFS.uResolution initial_uniforms))
                  (vy (PostFS.uResolution initial_uniforms)) / 2)).
Proof.
  destruct (displacement_is_radial initial_uniforms
              near_fragment) as (_ & _ & H).
  - simpl. lra.
  - simpl. lra.
  - exact near_fragment_off_centre.
  - exact H.
Defined.

Lemma vignette_witness :
  Glsl.clamp (PostFS.vig initial_uniforms near_fragment) 0.8 1
  = Rmax 0.8 (1 - normalized_distance initial_uniforms near_fragment
                  * normalized_distance initial_uniforms near_fragment / 4).
Proof.
  destruct (vignette_factor initial_uniforms near_fragment)
    as (H & _).
  - rewrite initial_min_side. lra.
  - exact H.
Defined.

(** X6, X7 and X8 after the setup and the three events. *)
Lemma yaw_witness : 0 <= cam_yaw (after_three_events after_setup.1).1 <= 360.
Proof.
  exact (yaw_stays_in_range accepting_driver _ _
           after_three_events_reachable).
Defined.

Lemma pole_witness :
  0 < cos (cam_pitch (after_three_events after_setup.1).1 * PI / 180).
Proof.
  exact (proj1 (camera_never_at_pole accepting_driver _ _
                  after_three_events_reachable)).
Defined.

Lemma event_horizon_radius_witness :
  event_horizon_radius_px (after_three_events after_setup.1).1 = 70%Z.
Proof.
  exact (proj1 (event_horizon_radius_constant accepting_driver _ _
                  after_three_events_reachable)).
Defined.

(** X9 for an iteration that polls the three events right after the
    setup. *)
Lemma iteration_witness :
  exists st',
    frame accepting_driver three_events after_setup.1 after_setup.2
    = Ok (st', gl_do_all accepting_driver (render_calls accepting_driver st')
                 after_setup.2).
Proof.
  destruct (iteration_without_resize_returns accepting_driver three_events
              after_setup.1 after_setup.2 after_setup_reachable
              ltac:(repeat constructor))
    as (st' & H & _).
  exists st'. exact H.
Defined.

(** X10 for a resize to 640 x 0 in the first poll. *)
Lemma zero_height_witness :
  frame accepting_driver ([] ++ VIDEORESIZE 640 0 :: [])
        (initial_globals, idle_locals) gl_empty
  = Raise ZeroDivisionError.
Proof.
  exact (proj1 (proj2 (zero_height_resize_raises accepting_driver [] [] 640 []
                         (initial_globals, idle_locals)
                         (initial_globals, idle_locals) gl_empty gl_empty
                         eq_refl eq_refl))).
Defined.

(** X11, X12 and X13 for a [QUIT] event. *)
Lemma quit_ends_witness :
  running after_quit.1.2 = false /\
  main_loop accepting_driver [[QUIT]; []] after_setup.1 after_setup.2
  = Ok (after_quit.1, after_quit.2).
Proof.
  destruct (quit_ends_loop accepting_driver [QUIT] [[]] _ _ _ _
              after_setup_reachable after_setup_running eq_refl
              after_quit_returns) as (H1 & _ & H3).
  exact (conj H1 H3).
Defined.

Lemma quit_exits_witness :
  main accepting_driver ([[]; [KEYDOWN K_g]] ++ [QUIT] :: [[]]) gl_empty
  = Raise (SystemExit 0).
Proof.
  apply (quit_exits_with_status_0 accepting_driver [[]; [KEYDOWN K_g]] [[]]
           [QUIT] after_setup.1 after_setup.2).
  - exact after_setup_eq.
  - repeat constructor.
  - repeat constructor.
  - reflexivity.
Defined.

Lemma presents_witness :
  presents (calls after_quit.2) = S (presents (calls after_setup.2)).
Proof.
  exact (proj1 (iteration_presents_once accepting_driver [QUIT] _ _ _ _
                  after_setup_reachable after_quit_returns)).
Defined.

(** X14 at the initial distance 18. *)
Lemma wheel_witness :
  process_events accepting_driver
    [MOUSEBUTTONDOWN 4 (0, 0)%Z; MOUSEBUTTONDOWN 5 (0, 0)%Z]
    (initial_globals, idle_locals) gl_empty
  = Ok ((initial_globals, idle_locals), gl_empty).
Proof.
  destruct (wheel_up_then_down accepting_driver initial_globals idle_locals
              gl_empty (0, 0)%Z (0, 0)%Z) as (_ & H).
  - simpl. lra.
  - apply H. simpl. lra.
Defined.

(** X17 after a resize to 640 x 480, X18 right after the setup. *)
Lemma inventory_witness :
  size (textures after_resize.2) = 1%nat /\
  size (buffers after_resize.2) = 2%nat.
Proof.
  destruct (context_inventory accepting_driver _ _ after_resize_reachable)
    as (_ & Ht & _ & _ & Hb & _).
  exact (conj Ht Hb).
Defined.

Lemma cleanup_witness :
  textures (gl_do_all accepting_driver (cleanup_calls after_setup.1)
              after_setup.2) = ∅ /\
  buffers (gl_do_all accepting_driver (cleanup_calls after_setup.1)
             after_setup.2) = ∅.
Proof.
  destruct (cleanup_frees_targets_and_buffers accepting_driver _ _
              after_setup_reachable) as (_ & Ht & _ & _ & Hb & _).
  exact (conj Ht Hb).
Defined.

(** X19 after the iteration that polls [QUIT]. *)
Lemma bindings_witness :
  bound_framebuffer after_quit.2 = 0%N /\ current_program after_quit.2 = 0%N.
Proof.
  destruct (frame_restores_bindings accepting_driver [QUIT] _ _ _ _
              after_setup_reachable after_quit_returns) as (Hf & Hp & _).
  exact (conj Hf Hp).
Defined.

(** X20 right after the setup. *)
Lemma quad_draw_witness :
  bound_texture
    (gl_do_all accepting_driver
       (calls_before_quad_draw accepting_driver after_setup.1) after_setup.2)
  = scene_tex after_setup.1.2.
Proof.
  destruct (quad_drawn_with_scene_bound accepting_driver _ _
              after_setup_reachable)
    as (_ & _ & _ & _ & _ & _ & H & _).
  exact H.
Defined.

(** X21 after the viewport and the clear of the scene body, X27 and X28,
    for the initial window. *)
Lemma scene_framebuffer_witness :
  bound_framebuffer
    (gl_do_all accepting_driver
       [glBindFramebuffer GL_FRAMEBUFFER 1; glViewport 0 0 1280 800;
        glClear [GL_COLOR_BUFFER_BIT; GL_DEPTH_BUFFER_BIT]] gl_empty)
  = 1%N.
Proof.
  destruct (passes_draw_to_their_framebuffer accepting_driver
              (initial_globals, idle_locals) gl_empty
              [glViewport 0 0 1280 800;
               glClear [GL_COLOR_BUFFER_BIT; GL_DEPTH_BUFFER_BIT]]
              (perspective_calls 1280 800 ++ camera_calls initial_globals
               ++ grid_calls initial_globals ++ scene_objects_calls))
    as (_ & H & _); [discriminate |].
  exact (H eq_refl).
Defined.

Lemma matrix_stacks_witness :
  run_calls matrix_step
    (render_calls accepting_driver (initial_globals, idle_locals))
    (GL_MODELVIEW, 0%nat, 0%nat)
  = Some (GL_MODELVIEW, 0%nat, 0%nat).
Proof.
  destruct (matrix_stacks_balanced accepting_driver
              (initial_globals, idle_locals) gl_empty GL_MODELVIEW 0 0)
    as (_ & H & _); [discriminate | exact H].
Defined.

Lemma immediate_mode_witness :
  run_calls immediate_step
    (render_calls accepting_driver (initial_globals, idle_locals)) false
  = Some false.
Proof.
  destruct (immediate_mode_well_formed accepting_driver
              (initial_globals, idle_locals) gl_empty)
    as (_ & H); [discriminate | exact H].
Defined.

(** X23 for one motion event with the button up. *)
Lemma motion_witness :
  process_events accepting_driver [MOUSEMOTION (3, 4)%Z]
    (initial_globals, idle_locals) gl_empty
  = Ok ((initial_globals, idle_locals), gl_empty).
Proof.
  apply (proj1 (motion_ignored_unless_dragging accepting_driver
                  [MOUSEMOTION (3, 4)%Z] (initial_globals, idle_locals)
                  gl_empty ltac:(repeat constructor))).
  reflexivity.
Defined.

(** X26 for the shaders of the program. *)
Lemma link_witness :
  exists pid s',
    link_program accepting_driver POST_VS POST_FS gl_empty = Ok (pid, s') /\
    pid <> 0%N.
Proof.
  destruct (link_program_success accepting_driver POST_VS POST_FS gl_empty
              eq_refl eq_refl eq_refl)
    as (pid & vs & fs & s' & H & Hn & _).
  exists pid, s'. exact (conj H Hn).
Defined.
